(** * worker.js: synchronising an ASN's prefixes to a Gateway list

    A shallow embedding of [src/worker.js] and the properties its
    specification states about it.

    Conventions of the embedding.
    - A JavaScript string is a [string]; the two regular expressions of
      the source mention ASCII characters only, so a character outside
      ASCII belongs to none of their classes, as in JavaScript.
    - [async] functions are sequential: every [await] is a call whose
      effect on the outside world (the D1 database, the Cloudflare API,
      timers, [console.warn]/[console.error]) is recorded in a trace.
      [console.log] lines are informational and are not modelled.
    - An exception is the [Throw] outcome of a computation.
    - A response body is what [JSON.parse] makes of its text: a parse
      error, [null], or a value whose fields [success], [result] and
      [result.items] are read as the source reads them, by truthiness,
      with the [TypeError]s of reading a field of [null] and of calling
      [.map] on a value that is not an array.  An element of [items]
      that is not [null] is an object with a string [value]; the replies
      of D1 have the shape D1 documents. *)

From Stdlib Require Import String Ascii List Bool Arith ZArith Lia.
Import ListNotations.

Set Implicit Arguments.

(* ===================================================================== *)
(** * Regular expressions

    The source uses two anchored regular expression literals, both
    tested with [RegExp.prototype.test].  They contain neither
    back-references nor look-around, so [test] on an expression anchored
    with [^] and [$] decides membership of the whole string in the
    language of the expression. *)
(* ===================================================================== *)

Module Regex.

Inductive regex : Type :=
| Empty
| Eps
| Chr (c : ascii)
| Class (p : ascii -> bool)
| Cat (r1 r2 : regex)
| Alt (r1 r2 : regex)
| Star (r : regex).

(** [r+] *)
Definition Plus (r : regex) : regex := Cat r (Star r).

(** [r{n}] *)
Fixpoint Times (n : nat) (r : regex) : regex :=
  match n with
  | 0 => Eps
  | S k => Cat r (Times k r)
  end.

(** [r{0,n}] *)
Fixpoint UpTo (n : nat) (r : regex) : regex :=
  match n with
  | 0 => Eps
  | S k => Alt Eps (Cat r (UpTo k r))
  end.

(** [r{lo,hi}] *)
Definition Range (lo hi : nat) (r : regex) : regex :=
  Cat (Times lo r) (UpTo (hi - lo) r).

(** The language of an expression. *)
Fixpoint Lang (r : regex) (w : list ascii) : Prop :=
  match r with
  | Empty => False
  | Eps => w = []
  | Chr c => w = [c]
  | Class p => exists c, w = [c] /\ p c = true
  | Cat r1 r2 => exists u v, w = u ++ v /\ Lang r1 u /\ Lang r2 v
  | Alt r1 r2 => Lang r1 w \/ Lang r2 w
  | Star r1 => exists ws, w = concat ws /\ Forall (Lang r1) ws
  end.

(** Matching by derivatives. *)
Fixpoint nullable (r : regex) : bool :=
  match r with
  | Empty => false
  | Eps => true
  | Chr _ => false
  | Class _ => false
  | Cat r1 r2 => nullable r1 && nullable r2
  | Alt r1 r2 => nullable r1 || nullable r2
  | Star _ => true
  end.

Fixpoint deriv (c : ascii) (r : regex) : regex :=
  match r with
  | Empty => Empty
  | Eps => Empty
  | Chr d => if Ascii.eqb c d then Eps else Empty
  | Class p => if p c then Eps else Empty
  | Cat r1 r2 =>
      if nullable r1
      then Alt (Cat (deriv c r1) r2) (deriv c r2)
      else Cat (deriv c r1) r2
  | Alt r1 r2 => Alt (deriv c r1) (deriv c r2)
  | Star r1 => Cat (deriv c r1) (Star r1)
  end.

Fixpoint accepts (r : regex) (w : list ascii) : bool :=
  match w with
  | [] => nullable r
  | c :: w' => accepts (deriv c r) w'
  end.

(** [/^r$/.test(s)] *)
Definition test (r : regex) (s : string) : bool :=
  accepts r (list_ascii_of_string s).

(** Every character of [w] is in class [p]. *)
Definition all_in (p : ascii -> bool) (w : list ascii) : Prop :=
  forallb p w = true.

End Regex.

(* ===================================================================== *)
(** * Input validators: [isValidCIDR] and the ASN pattern *)
(* ===================================================================== *)

(** The code of a character. *)
Definition code (c : ascii) : nat := nat_of_ascii c.

(** A range [[lo-hi]] of a character class. *)
Definition between (lo hi : ascii) (c : ascii) : bool :=
  (code lo <=? code c) && (code c <=? code hi).

(** [[0-9]], which is also what [\d] denotes without the [u] flag *)
Definition is_digit (c : ascii) : bool := between "0" "9" c.

(** [[0-9a-fA-F:]] *)
Definition is_hex_or_colon (c : ascii) : bool :=
  between "0" "9" c || between "a" "f" c || between "A" "F" c
  || Ascii.eqb c ":".

Definition digit : Regex.regex := Regex.Class is_digit.

(** [/^(?:(?:[0-9]{1,3}\.){3}[0-9]{1,3}\/[0-9]{1,2}|(?:[0-9a-fA-F:]+)\/[0-9]{1,3})$/] *)
Definition cidr_regex : Regex.regex :=
  Regex.Alt
    (Regex.Cat (Regex.Times 3 (Regex.Cat (Regex.Range 1 3 digit) (Regex.Chr ".")))
       (Regex.Cat (Regex.Range 1 3 digit)
          (Regex.Cat (Regex.Chr "/") (Regex.Range 1 2 digit))))
    (Regex.Cat (Regex.Plus (Regex.Class is_hex_or_colon))
       (Regex.Cat (Regex.Chr "/") (Regex.Range 1 3 digit))).

(** [isValidCIDR(prefix)].  [regex.test] does not throw on a string, so
    the [catch] branch of the source is never taken. *)
Definition isValidCIDR (prefix : string) : bool :=
  Regex.test cidr_regex prefix.

(** [/^AS\d+$/] *)
Definition asn_regex : Regex.regex :=
  Regex.Cat (Regex.Chr "A") (Regex.Cat (Regex.Chr "S") (Regex.Plus digit)).

Definition isValidASN (asn : string) : bool := Regex.test asn_regex asn.

(** ** The grammars, stated on strings *)

(** [s] consists of between [lo] and [hi] characters, all in class [p]. *)
Definition run_of (p : ascii -> bool) (lo hi : nat) (s : string) : Prop :=
  lo <= String.length s <= hi /\ Regex.all_in p (list_ascii_of_string s).

(** A dotted quad of 1 to 3 digit groups, [/] and a prefix length of 1 or
    2 digits. *)
Definition ipv4_cidr (s : string) : Prop :=
  exists a b c d p : string,
    s = (a ++ "." ++ b ++ "." ++ c ++ "." ++ d ++ "/" ++ p)%string
    /\ run_of is_digit 1 3 a /\ run_of is_digit 1 3 b
    /\ run_of is_digit 1 3 c /\ run_of is_digit 1 3 d
    /\ run_of is_digit 1 2 p.

(** A non-empty group of hexadecimal digits and colons (a colon need not
    occur), [/] and a prefix length of 1 to 3 digits. *)
Definition hex_group_cidr (s : string) : Prop :=
  exists g p : string,
    s = (g ++ "/" ++ p)%string
    /\ g <> EmptyString
    /\ Regex.all_in is_hex_or_colon (list_ascii_of_string g)
    /\ run_of is_digit 1 3 p.

(** The second form as the specification words it, "a colon-containing
    hexadecimal group": the group contains at least one colon. *)
Definition colon_containing_cidr (s : string) : Prop :=
  exists g p : string,
    s = (g ++ "/" ++ p)%string
    /\ In ":"%char (list_ascii_of_string g)
    /\ Regex.all_in is_hex_or_colon (list_ascii_of_string g)
    /\ run_of is_digit 1 3 p.

(** [AS] followed by one or more digits, and nothing else. *)
Definition as_digits (s : string) : Prop :=
  exists ds : string,
    s = ("AS" ++ ds)%string /\ ds <> EmptyString
    /\ Regex.all_in is_digit (list_ascii_of_string ds).

(** ** The same grammars on lists of characters *)

(** [run_of] on the characters of a string. *)
Definition lrun (p : ascii -> bool) (lo hi : nat) (w : list ascii) : Prop :=
  lo <= length w <= hi /\ Regex.all_in p w.

(** [ipv4_cidr] *)
Definition ipv4_chars (w : list ascii) : Prop :=
  exists a b c d p,
    w = a ++ "."%char :: b ++ "."%char :: c ++ "."%char :: d ++ "/"%char :: p
    /\ lrun is_digit 1 3 a /\ lrun is_digit 1 3 b /\ lrun is_digit 1 3 c
    /\ lrun is_digit 1 3 d /\ lrun is_digit 1 2 p.

(** [hex_group_cidr] *)
Definition hex_group_chars (w : list ascii) : Prop :=
  exists g p,
    w = g ++ "/"%char :: p /\ g <> [] /\ Regex.all_in is_hex_or_colon g
    /\ lrun is_digit 1 3 p.

(* ===================================================================== *)
(** * Data *)
(* ===================================================================== *)

(** ** JavaScript [Set] of strings

    A [Set] keeps its members in insertion order without duplicates;
    [has] compares strings by value. *)
Module JSSet.

Definition t : Type := list string.

Definition has (s : t) (x : string) : bool := existsb (String.eqb x) s.

Definition add (s : t) (x : string) : t := if has s x then s else s ++ [x].

(** [new Set(iterable)] *)
Definition from (l : list string) : t := fold_left add l [].

(** [[...set]] *)
Definition spread (s : t) : list string := s.

End JSSet.

(** ** The Gateway list API *)

(** [{ value: p }] *)
Record Item : Type := { value : string }.

(** Body of a PATCH: [{ append: [...] }] or [{ remove: [...] }].  A field
    that is not set is [None]. *)
Record Payload : Type := {
  append : option (list Item);
  remove : option (list Item)
}.

(** The [items] of [data.result], by what the source does with it: it
    tests its truthiness and then calls [.map] on it. *)
Inductive ItemsField : Type :=
| ItemsAbsent       (* falsy: absent, [null], [false], [0] or the empty string *)
| ItemsNotArray     (* truthy and not an array: [.map] is not a function *)
| ItemsArray (elements : list (option Item)).
                    (* an array; [None] is a [null] element *)

(** [data.result] of a response, when it is truthy. *)
Record ApiResult : Type := { items : ItemsField }.

(** A parsed response body that is not [null], read through the fields
    the source reads: [success] is the truthiness of the field, [result]
    is [None] when the field is falsy.  Reading a field of a value that
    is not [null] never throws. *)
Record ApiJson : Type := {
  success : bool;
  result : option ApiResult;
  errors : option (list string)
}.

(** What [JSON.parse(text)] makes of a response text. *)
Inductive Body : Type :=
| Garbage (text : string)   (* [JSON.parse] throws *)
| JsonNull                  (* [JSON.parse] returns [null] *)
| Json (data : ApiJson).    (* [JSON.parse] returns [data], not [null] *)

(** [items.map(item => item.value)]: reading [value] of a [null] element
    throws. *)
Fixpoint item_values (elements : list (option Item)) : option (list string) :=
  match elements with
  | [] => Some []
  | Some item :: rest => option_map (cons (value item)) (item_values rest)
  | None :: _ => None
  end.

Record Response : Type := { status : Z; body : Body }.

(** [res.ok] *)
Definition ok (res : Response) : bool :=
  ((200 <=? status res) && (status res <=? 299))%Z.

Inductive Method : Type := GET | PATCH.

Record Headers : Type := {
  X_Auth_Email : string;
  X_Auth_Key : string;
  Content_Type : string
}.

Record Request : Type := {
  url : string;
  method : Method;
  headers : Headers;
  payload : option Payload
}.

(** ** The worker's bindings *)

Record Env : Type := {
  DB : bool;                    (* is the D1 binding present *)
  ACCOUNT_ID : option string;
  LIST_ID : option string;
  API_EMAIL : option string;
  API_KEY : option string
}.

(** Truthiness of a binding that is a string or [undefined]. *)
Definition truthy (v : option string) : bool :=
  match v with
  | Some s => negb (String.eqb s "")
  | None => false
  end.

(** A binding inside a template literal. *)
Definition interpolate (v : option string) : string :=
  match v with
  | Some s => s
  | None => "undefined"
  end.

(** ** Batch labels: [`Append batch ${i + 1}/${addBatches.length}`] *)

Inductive BatchKind : Type := AppendBatch | RemoveBatch.

Record BatchLabel : Type := {
  kind : BatchKind;
  number : nat;
  total : nat
}.

(** ** Errors

    The source throws plain [Error] objects that differ by message; one
    constructor stands for each message template. *)
Inductive Error : Type :=
| InvalidASNFormat                (* "Invalid ASN format" *)
| DatabaseNotInitialized          (* "Database not initialized" *)
| MissingCredentials              (* "Missing Cloudflare API credentials" *)
| NoValidPrefixes                 (* "No valid prefixes after filtering; ..." *)
| QueryFailed (error : option string)     (* "Query failed: ..." *)
| NoResultsReturned               (* "No results returned from query" *)
| TableMissing (table : string)   (* "Table ... does not exist in the database" *)
| NoActivePrefixes (table : string)  (* "No prefixes found in ... with active = 1" *)
| FetchDesiredFailed (table : string) (cause : Error)
                                  (* "Failed to fetch desired prefixes from ...: ..." *)
| ApiRequestFailed (status : Z) (text : Body)
                                  (* "API request failed with status ...: ..." *)
| ParseFailed (text : string)     (* "Failed to parse API response: ..." *)
| FetchGatewayListFailed (cause : Error)  (* "Failed to fetch Gateway list: ..." *)
| UpdateFailed (json : ApiJson)   (* "Update failed: ..." *)
| TestApiRequestFailed (status : Z) (text : Body)
                                  (* "Test API request failed with status ...: ..." *)
| TestParseFailed (text : string) (* "Failed to parse test API response: ..." *)
| TestUpdateFailed (json : ApiJson)       (* "Test update failed: ..." *)
| UpdateSyncedFailed (table : string) (cause : Error)
                                  (* "Failed to update synced prefixes for ...: ..." *)
| RecordSyncTimeFailed (asn : string) (cause : Error)
                                  (* "Failed to record sync time for ...: ..." *)
| D1Exception (message : string)  (* thrown by a D1 call *)
| NetworkError (message : string) (* thrown by the global [fetch] *)
| NullProperty (name : string)
    (* TypeError: Cannot read properties of null (reading '...') *)
| NotAFunction (name : string).   (* TypeError: ... is not a function *)

(** The error classes of the specification.  The source has no error
    classes; an error belongs to the class of the stage that raises it. *)
Inductive ErrorClass : Type :=
| InputValidationError
| DataAccessError
| RemoteAPIError
| ConfigurationError.

Definition error_class (e : Error) : ErrorClass :=
  match e with
  | InvalidASNFormat | NoValidPrefixes => InputValidationError
  | DatabaseNotInitialized | MissingCredentials => ConfigurationError
  | QueryFailed _ | NoResultsReturned | TableMissing _ | NoActivePrefixes _
  | FetchDesiredFailed _ _ | UpdateSyncedFailed _ _
  | RecordSyncTimeFailed _ _ | D1Exception _ => DataAccessError
  | ApiRequestFailed _ _ | ParseFailed _ | FetchGatewayListFailed _
  | UpdateFailed _ | TestApiRequestFailed _ _ | TestParseFailed _
  | TestUpdateFailed _ | NetworkError _ | NullProperty _ | NotAFunction _ =>
      RemoteAPIError
  end.

(** ** Calls on the D1 database *)

Inductive DbCall : Type :=
| SelectLastRun (asn : string)
    (* SELECT last_run FROM sync_state WHERE asn = ?   .first() *)
| SelectActivePrefixes (table : string)
    (* SELECT prefix FROM ${table} WHERE active = 1    .all() *)
| SelectTableName (table : string)
    (* SELECT name FROM sqlite_master WHERE type='table' AND name = ?  .first() *)
| SelectSample (table : string)
    (* SELECT prefix, active FROM ${table} LIMIT 5     .all() *)
| SelectActiveCounts (table : string)
    (* SELECT active, COUNT( * ) as count FROM ${table} GROUP BY active  .all() *)
| DeleteSynced (asn : string)
    (* DELETE FROM synced_prefixes WHERE asn = ?       .run() *)
| InsertSynced (asn : string) (prefixes : list string)
    (* DB.batch of INSERT OR IGNORE INTO synced_prefixes (asn, prefix) VALUES (?, ?) *)
| UpsertSyncState (asn : string) (now : string).
    (* INSERT INTO sync_state ... ON CONFLICT(asn) DO UPDATE ...  .run() *)

(** [{ results, success, error }] of [stmt.all()]; a row of the query on
    the ASN table is its [prefix] column. *)
Record D1Result : Type := {
  results : option (list string);
  d1_success : bool;
  d1_error : option string
}.

(** What each call resolves to. *)
Definition Reply (c : DbCall) : Type :=
  match c with
  | SelectLastRun _ => option string      (* [last_run] of the row, if any *)
  | SelectActivePrefixes _ => D1Result
  | SelectTableName _ => bool             (* is there a row *)
  | SelectSample _ => unit                (* only logged *)
  | SelectActiveCounts _ => unit          (* only logged *)
  | DeleteSynced _ => nat                 (* [meta.changes] *)
  | InsertSynced _ _ => list nat          (* [meta.changes] of each statement *)
  | UpsertSyncState _ _ => unit
  end.

(** Does the call write to the local state ([synced_prefixes],
    [sync_state])? *)
Definition is_write (c : DbCall) : bool :=
  match c with
  | DeleteSynced _ | InsertSynced _ _ | UpsertSyncState _ _ => true
  | _ => false
  end.

(** ** Observable events, in the order they happen *)

Inductive Warning : Type :=
| SkippedPrefixes (n : nat)       (* [WARN] Skipped n invalid or duplicate prefixes *)
| NoItemsInResponse               (* [API WARN] No items in Gateway list response *)
| RateLimitHit (label : BatchLabel). (* [RETRY] label: Rate limit hit, retrying after delay *)

Inductive ErrorLog : Type :=
| HandlerError (e : Error)        (* [ERROR] err *)
| UpdateError (label : BatchLabel) (e : Error)
    (* [ERROR] Failed to update Gateway list (label): message *)
| TestPatchError (e : Error).     (* [ERROR] Test PATCH failed: message *)

Inductive Event : Type :=
| Db (c : DbCall)
| Http (req : Request) (res : string + Response)
| Sleep (ms : Z)
| ConsoleWarn (w : Warning)
| ConsoleError (l : ErrorLog).

(** ** The platform: D1, the network and the clock, over a world [W] *)

(** A call either throws, with a message, or resolves, and leaves a
    world. *)
Record Platform (W : Type) : Type := {
  d1 : forall c : DbCall, W -> (string + Reply c) * W;   (* [env.DB] *)
  global_fetch : Request -> W -> (string + Response) * W; (* the global [fetch] *)
  now : W -> string             (* [new Date().toISOString()] *)
}.

(* ===================================================================== *)
(** * Computations *)
(* ===================================================================== *)

(** How a computation ends.  [Pending] is a promise that has not settled
    within the number of attempts granted to the retry loop. *)
Inductive Outcome (A : Type) : Type :=
| Return (a : A)
| Throw (e : Error)
| Pending.

Arguments Throw {A} e.
Arguments Pending {A}.

(** A run from a world: how it ends, the world it leaves and the events
    it caused, oldest first. *)
Record Result (W A : Type) : Type := {
  outcome : Outcome A;
  world : W;
  events : list Event
}.

Definition Run (W A : Type) : Type := W -> Result W A.

Section Monad.
Context {W : Type}.

Definition ret {A : Type} (a : A) : Run W A :=
  fun w => {| outcome := Return a; world := w; events := [] |}.

Definition throw {A : Type} (e : Error) : Run W A :=
  fun w => {| outcome := Throw e; world := w; events := [] |}.

Definition pending {A : Type} : Run W A :=
  fun w => {| outcome := Pending; world := w; events := [] |}.

Definition bind {A B : Type} (m : Run W A) (f : A -> Run W B) : Run W B :=
  fun w =>
    let r := m w in
    match outcome r with
    | Return a =>
        let r' := f a (world r) in
        {| outcome := outcome r'; world := world r';
           events := events r ++ events r' |}
    | Throw e => {| outcome := Throw e; world := world r; events := events r |}
    | Pending => {| outcome := Pending; world := world r; events := events r |}
    end.

(** [try { m } catch (err) { h err }] *)
Definition catch {A : Type} (m : Run W A) (h : Error -> Run W A) : Run W A :=
  fun w =>
    let r := m w in
    match outcome r with
    | Throw e =>
        let r' := h e (world r) in
        {| outcome := outcome r'; world := world r';
           events := events r ++ events r' |}
    | _ => r
    end.

(** An event with no reply. *)
Definition emit (ev : Event) : Run W unit :=
  fun w => {| outcome := Return tt; world := w; events := [ev] |}.

End Monad.

Declare Scope run_scope.
Delimit Scope run_scope with run.
Notation "x <- m ;; k" := (bind m (fun x => k))
  (at level 61, m at next level, right associativity) : run_scope.
Notation "m ;; k" := (bind m (fun _ => k))
  (at level 61, right associativity) : run_scope.
Open Scope run_scope.

(* ===================================================================== *)
(** * The worker *)
(* ===================================================================== *)

(** [l.slice(i, j)] for [0 <= i <= j] *)
Definition slice {A : Type} (l : list A) (i j : nat) : list A :=
  firstn (j - i) (skipn i l).

(** The loop
    [for (let i = 0; i < l.length; i += batchSize) out.push(l.slice(i, i + batchSize))]
    run for at most [n] iterations from index [i]. *)
Fixpoint batches_from {A : Type} (n i batchSize : nat) (l : list A)
  : list (list A) :=
  match n with
  | 0 => []
  | S n' =>
      if i <? length l
      then slice l i (i + batchSize) :: batches_from n' (i + batchSize) batchSize l
      else []
  end.

(** With a positive [batchSize] the loop leaves after at most [l.length]
    iterations. *)
Definition batches {A : Type} (batchSize : nat) (l : list A) : list (list A) :=
  batches_from (length l) 0 batchSize l.

(** With [batchSize = 0] the index never moves and the loop does not
    end, unless the list is empty. *)
Definition loops_forever {A : Type} (batchSize : nat) (l : list A) : bool :=
  (batchSize =? 0) && negb (length l =? 0).

(** [validDesired = [...new Set(desired.filter(prefix => isValidCIDR(prefix)))]] *)
Definition validDesired (desired : list string) : list string :=
  JSSet.spread (JSSet.from (filter isValidCIDR desired)).

(** [toAdd = validDesired.filter(prefix => !existingSet.has(prefix))]
    with [existingSet = new Set(existing)] *)
Definition toAdd (validDesired existing : list string) : list string :=
  let existingSet := JSSet.from existing in
  filter (fun prefix => negb (JSSet.has existingSet prefix)) validDesired.

(** [toRemove = existing.filter(prefix => !desiredSet.has(prefix))]
    with [desiredSet = new Set(validDesired)] *)
Definition toRemove (validDesired existing : list string) : list string :=
  let desiredSet := JSSet.from validDesired in
  filter (fun prefix => negb (JSSet.has desiredSet prefix)) existing.

(** [{ append: batch.map(p => ({ value: p })) }] *)
Definition append_payload (batch : list string) : Payload :=
  {| append := Some (map Build_Item batch); remove := None |}.

(** [{ remove: batch.map(p => ({ value: p })) }] *)
Definition remove_payload (batch : list string) : Payload :=
  {| append := None; remove := Some (map Build_Item batch) |}.

Definition gateway_url (env : Env) : string :=
  ("https://api.cloudflare.com/client/v4/accounts/"
     ++ interpolate (ACCOUNT_ID env) ++ "/gateway/lists/"
     ++ interpolate (LIST_ID env))%string.

Definition gateway_headers (env : Env) : Headers :=
  {| X_Auth_Email := interpolate (API_EMAIL env);
     X_Auth_Key := interpolate (API_KEY env);
     Content_Type := "application/json" |}.

(** [fetch(url, { method: "GET", headers })] *)
Definition get_request (env : Env) : Request :=
  {| url := gateway_url env; method := GET;
     headers := gateway_headers env; payload := None |}.

(** [fetch(url, { method: "PATCH", headers, body: JSON.stringify(payload) })] *)
Definition patch_request (env : Env) (p : Payload) : Request :=
  {| url := gateway_url env; method := PATCH;
     headers := gateway_headers env; payload := Some p |}.

(** One attempt of [updateGatewayListSingle] either settles with the
    result or asks for the call to be made again. *)
Inductive Attempt : Type :=
| Settled (result : option ApiResult)
| Again.

Section Worker.
Context {W : Type}.
Variable P : Platform W.

(** [await stmt.first()], [.all()], [.run()] or [DB.batch(...)] *)
Definition query (c : DbCall) : Run W (Reply c) :=
  fun w =>
    let '(r, w') := d1 P c w in
    {| outcome := match r with
                  | inl message => Throw (D1Exception message)
                  | inr reply => Return reply
                  end;
       world := w'; events := [Db c] |}.

(** [await fetch(url, { method, headers, body })] *)
Definition fetch_url (req : Request) : Run W Response :=
  fun w =>
    let '(r, w') := global_fetch P req w in
    {| outcome := match r with
                  | inl message => Throw (NetworkError message)
                  | inr res => Return res
                  end;
       world := w'; events := [Http req r] |}.

(** [await new Promise(resolve => setTimeout(resolve, ms))] *)
Definition sleep (ms : Z) : Run W unit := emit (Sleep ms).

Definition console_warn (w : Warning) : Run W unit := emit (ConsoleWarn w).

Definition console_error (l : ErrorLog) : Run W unit := emit (ConsoleError l).

(** [new Date().toISOString()] *)
Definition toISOString_now : Run W string :=
  fun w => {| outcome := Return (now P w); world := w; events := [] |}.

Definition fetchDesiredPrefixes (table : string) : Run W (list string) :=
  catch
    (r <- query (SelectActivePrefixes table) ;;
     if negb (d1_success r) then throw (QueryFailed (d1_error r))
     else
       match results r with
       | None => throw NoResultsReturned
       | Some rows =>
           if length rows =? 0 then
             tableCheck <- query (SelectTableName table) ;;
             if negb tableCheck then throw (TableMissing table)
             else
               query (SelectSample table) ;;
               query (SelectActiveCounts table) ;;
               throw (NoActivePrefixes table)
           else ret rows
       end)
    (fun err => throw (FetchDesiredFailed table err)).

Definition fetchCurrentGatewayList (env : Env) : Run W (list string) :=
  catch
    (res <- fetch_url (get_request env) ;;
     if negb (ok res) then throw (ApiRequestFailed (status res) (body res))
     else
       match body res with
       | Garbage text => throw (ParseFailed text)
       | JsonNull => throw (NullProperty "success")   (* [data.success] *)
       | Json data =>
           (* [!data.success || !data.result || !data.result.items] *)
           match (if success data
                  then match result data with
                       | Some r => items r
                       | None => ItemsAbsent
                       end
                  else ItemsAbsent) with
           | ItemsAbsent => console_warn NoItemsInResponse ;; ret []
           | ItemsNotArray => throw (NotAFunction "data.result.items.map")
           | ItemsArray elements =>
               match item_values elements with
               | Some values => ret values
               | None => throw (NullProperty "value")   (* [item.value] *)
               end
           end
       end)
    (fun err => throw (FetchGatewayListFailed err)).

(** The [try] block of [updateGatewayListSingle] with its [catch]: the
    recursive call is returned, not awaited, inside the [try], so an
    exception of the retry is not caught here a second time. *)
Definition attempt (env : Env) (payload : Payload) (batchLabel : BatchLabel)
  : Run W Attempt :=
  catch
    (res <- fetch_url (patch_request env payload) ;;
     if negb (ok res) then
       if (status res =? 429)%Z then
         console_warn (RateLimitHit batchLabel) ;;
         sleep 1000 ;;
         ret Again
       else throw (ApiRequestFailed (status res) (body res))
     else
       match body res with
       | Garbage text => throw (ParseFailed text)
       | JsonNull => throw (NullProperty "success")   (* [json.success] *)
       | Json json =>
           if negb (success json) then throw (UpdateFailed json)
           else ret (Settled (result json))
       end)
    (fun err => console_error (UpdateError batchLabel err) ;; throw err).

(** [fuel] bounds the number of requests made for one call. *)
Fixpoint updateGatewayListSingle (fuel : nat) (env : Env) (payload : Payload)
    (batchLabel : BatchLabel) : Run W (option ApiResult) :=
  match append payload, remove payload with
  | None, None => ret None
  | _, _ =>
      match fuel with
      | 0 => pending
      | S fuel' =>
          a <- attempt env payload batchLabel ;;
          match a with
          | Settled r => ret r
          | Again => updateGatewayListSingle fuel' env payload batchLabel
          end
      end
  end.

(** [for (let i = 0; i < batches.length; i++)]: one call for each batch,
    from index [i] on. *)
Fixpoint process_batches (fuel : nat) (env : Env)
    (make : list string -> Payload) (k : BatchKind) (count : nat)
    (i : nat) (todo : list (list string)) : Run W unit :=
  match todo with
  | [] => ret tt
  | batch :: rest =>
      updateGatewayListSingle fuel env (make batch)
        {| kind := k; number := i + 1; total := count |} ;;
      process_batches fuel env make k count (i + 1) rest
  end.

Definition updateGatewayListBatched (fuel : nat) (env : Env)
    (toAdd toRemove : list string) (batchSize : nat) : Run W unit :=
  if loops_forever batchSize toAdd then pending else
  let addBatches := batches batchSize toAdd in
  if loops_forever batchSize toRemove then pending else
  let removeBatches := batches batchSize toRemove in
  process_batches fuel env append_payload AppendBatch
    (length addBatches) 0 addBatches ;;
  process_batches fuel env remove_payload RemoveBatch
    (length removeBatches) 0 removeBatches.

Definition testGatewayListUpdate (env : Env) (prefix : string) : Run W unit :=
  let payload := {| append := Some [ {| value := prefix |} ]; remove := None |} in
  catch
    (res <- fetch_url (patch_request env payload) ;;
     if negb (ok res) then throw (TestApiRequestFailed (status res) (body res))
     else
       match body res with
       | Garbage text => throw (TestParseFailed text)
       | JsonNull => throw (NullProperty "success")   (* [json.success] *)
       | Json json =>
           if negb (success json) then throw (TestUpdateFailed json)
           else ret tt
       end)
    (fun err => console_error (TestPatchError err) ;; throw err).

(** The insert loop of [updateSyncedPrefixes] over the batches of 100. *)
Fixpoint insert_batches (table : string) (todo : list (list string))
  : Run W unit :=
  match todo with
  | [] => ret tt
  | batch :: rest =>
      query (InsertSynced table batch) ;;
      insert_batches table rest
  end.

Definition updateSyncedPrefixes (table : string) (prefixes : list string)
  : Run W unit :=
  catch
    (query (DeleteSynced table) ;;
     if length prefixes =? 0 then ret tt
     else
       let batchSize := 100 in
       insert_batches table (batches batchSize prefixes))
    (fun err => throw (UpdateSyncedFailed table err)).

Definition recordSyncTime (asn : string) : Run W unit :=
  catch
    (now <- toISOString_now ;;
     query (UpsertSyncState asn now))
    (fun err => throw (RecordSyncTimeFailed asn err)).

Definition syncASN (fuel : nat) (env : Env) (asn : string) : Run W unit :=
  if negb (isValidASN asn) then throw InvalidASNFormat else
  let table := asn in
  if negb (DB env) then throw DatabaseNotInitialized else
  if negb (truthy (ACCOUNT_ID env)) || negb (truthy (LIST_ID env))
     || negb (truthy (API_EMAIL env)) || negb (truthy (API_KEY env))
  then throw MissingCredentials else
  query (SelectLastRun asn) ;;
  desired <- fetchDesiredPrefixes table ;;
  existing <- fetchCurrentGatewayList env ;;
  let validDesired := validDesired desired in
  (if negb (length validDesired =? length desired)
   then console_warn (SkippedPrefixes (length desired - length validDesired))
   else ret tt) ;;
  if (length validDesired =? 0) && (0 <? length desired)
  then throw NoValidPrefixes else
  let toAdd := toAdd validDesired existing in
  let toRemove := toRemove validDesired existing in
  let batchSize := 50 in
  updateGatewayListBatched fuel env toAdd toRemove batchSize ;;
  match toAdd with
  | first :: _ => testGatewayListUpdate env first
  | [] => ret tt
  end ;;
  updateSyncedPrefixes table validDesired ;;
  recordSyncTime asn.

(** ** The entry point: [export default { fetch }] *)

Inductive HandlerResponse : Type :=
| BadRequest           (* 400 "Missing or invalid ?asn=ASxxxx parameter" *)
| SyncComplete         (* 200 "Sync complete" *)
| SyncFailed (e : Error).  (* 500 `Sync failed: ${err.message}` *)

Definition response_status (r : HandlerResponse) : Z :=
  match r with
  | BadRequest => 400
  | SyncComplete => 200
  | SyncFailed _ => 500
  end.

(** [asn] is [url.searchParams.get("asn")]: [None] is [null]. *)
Definition fetch (fuel : nat) (env : Env) (asn : option string)
  : Run W HandlerResponse :=
  catch
    (match asn with
     | None => ret BadRequest
     | Some asn =>
         if String.eqb asn "" || negb (isValidASN asn) then ret BadRequest
         else
           syncASN fuel env asn ;;
           ret SyncComplete
     end)
    (fun err => console_error (HandlerError err) ;; ret (SyncFailed err)).

End Worker.

(* ===================================================================== *)
(** * Two platforms to run the worker on *)
(* ===================================================================== *)

(** ** A scripted platform

    The network answers the requests with the replies of a script, in
    order; the database holds the active prefixes of one ASN and accepts
    every statement. *)
Module Scripted.

Record World : Type := {
  replies : list (string + Response);
  active_prefixes : list string
}.

Definition database (c : DbCall) (w : World) : (string + Reply c) * World :=
  (match c return string + Reply c with
   | SelectLastRun _ => inr None
   | SelectActivePrefixes _ =>
       inr {| results := Some (active_prefixes w); d1_success := true;
              d1_error := None |}
   | SelectTableName _ => inr true
   | SelectSample _ => inr tt
   | SelectActiveCounts _ => inr tt
   | DeleteSynced _ => inr 0
   | InsertSynced _ prefixes => inr (map (fun _ => 1) prefixes)
   | UpsertSyncState _ _ => inr tt
   end, w).

Definition network (req : Request) (w : World)
  : (string + Response) * World :=
  match replies w with
  | r :: rest => (r, {| replies := rest; active_prefixes := active_prefixes w |})
  | [] => (inl "connection refused"%string, w)
  end.

Definition platform : Platform World :=
  {| d1 := database; global_fetch := network;
     now := fun _ => "2025-05-23T00:00:00.000Z"%string |}.

End Scripted.

(** ** A database without the table

    The ASN names something that can be selected from but is not listed
    as a table (a view): the select returns zero rows and the table
    check finds nothing.  The network is down. *)
Module NoTable.

Definition database (c : DbCall) (w : unit) : (string + Reply c) * unit :=
  (match c return string + Reply c with
   | SelectLastRun _ => inr None
   | SelectActivePrefixes _ =>
       inr {| results := Some []; d1_success := true; d1_error := None |}
   | SelectTableName _ => inr false
   | SelectSample _ => inr tt
   | SelectActiveCounts _ => inr tt
   | DeleteSynced _ => inr 0
   | InsertSynced _ prefixes => inr (map (fun _ => 1) prefixes)
   | UpsertSyncState _ _ => inr tt
   end, w).

Definition network (req : Request) (w : unit) : (string + Response) * unit :=
  (inl "connection refused"%string, w).

Definition platform : Platform unit :=
  {| d1 := database; global_fetch := network;
     now := fun _ => "2025-05-23T00:00:00.000Z"%string |}.

End NoTable.

(** ** A faithful platform

    An in-memory D1 database and Gateway list following the interfaces
    of the specification: the list applies every PATCH it receives (an
    appended value is inserted if absent, a removed value is deleted) and
    answers 200 with [success: true]; a GET returns the values of the
    list; [synced_prefixes] has a unique key on (asn, prefix);
    [sync_state] has one row per ASN. *)
Module Faithful.

Record World : Type := {
  tables : list (string * list (string * Z));  (* ASN table: (prefix, active) rows *)
  synced_prefixes : list (string * string);    (* (asn, prefix) *)
  sync_state : list (string * string);         (* (asn, last_run) *)
  gateway_list : list string;
  clock : string
}.

Definition mem (x : string) (l : list string) : bool :=
  existsb (String.eqb x) l.

Definition find_table (name : string) (w : World)
  : option (list (string * Z)) :=
  option_map snd (find (fun t => String.eqb (fst t) name) (tables w)).

(** [SELECT prefix FROM table WHERE active = 1] *)
Definition select_active (rows : list (string * Z)) : list string :=
  map fst (filter (fun row => (snd row =? 1)%Z) rows).

Definition same_row (a b : string * string) : bool :=
  String.eqb (fst a) (fst b) && String.eqb (snd a) (snd b).

(** [INSERT OR IGNORE] of one row; the second component is [meta.changes]. *)
Definition insert_or_ignore (row : string * string)
    (t : list (string * string)) : list (string * string) * nat :=
  if existsb (same_row row) t then (t, 0) else (t ++ [row], 1).

Fixpoint insert_all (asn : string) (prefixes : list string)
    (t : list (string * string)) : list (string * string) * list nat :=
  match prefixes with
  | [] => (t, [])
  | p :: rest =>
      let '(t1, n) := insert_or_ignore (asn, p) t in
      let '(t2, ns) := insert_all asn rest t1 in
      (t2, n :: ns)
  end.

(** [INSERT ... ON CONFLICT(asn) DO UPDATE SET last_run = ...]: the row
    of the ASN is updated where it is, or a new row is added. *)
Fixpoint upsert (asn last_run : string) (t : list (string * string))
  : list (string * string) :=
  match t with
  | [] => [(asn, last_run)]
  | row :: rest =>
      if String.eqb (fst row) asn then (asn, last_run) :: rest
      else row :: upsert asn last_run rest
  end.

Definition set_local (w : World) (synced state : list (string * string))
  : World :=
  {| tables := tables w; synced_prefixes := synced; sync_state := state;
     gateway_list := gateway_list w; clock := clock w |}.

Definition set_gateway (w : World) (l : list string) : World :=
  {| tables := tables w; synced_prefixes := synced_prefixes w;
     sync_state := sync_state w; gateway_list := l; clock := clock w |}.

Definition no_such_table (c : DbCall) (w : World) : (string + Reply c) * World :=
  (inl "no such table"%string, w).

Definition database (c : DbCall) (w : World) : (string + Reply c) * World :=
  match c return (string + Reply c) * World with
  | SelectLastRun asn =>
      (inr (option_map snd
              (find (fun row => String.eqb (fst row) asn) (sync_state w))), w)
  | SelectActivePrefixes table =>
      match find_table table w with
      | Some rows =>
          (inr {| results := Some (select_active rows); d1_success := true;
                  d1_error := None |}, w)
      | None => no_such_table (SelectActivePrefixes table) w
      end
  | SelectTableName table =>
      (inr (match find_table table w with Some _ => true | None => false end), w)
  | SelectSample table =>
      match find_table table w with
      | Some _ => (inr tt, w)
      | None => no_such_table (SelectSample table) w
      end
  | SelectActiveCounts table =>
      match find_table table w with
      | Some _ => (inr tt, w)
      | None => no_such_table (SelectActiveCounts table) w
      end
  | DeleteSynced asn =>
      let kept := filter (fun row => negb (String.eqb (fst row) asn))
                    (synced_prefixes w) in
      (inr (length (synced_prefixes w) - length kept),
       set_local w kept (sync_state w))
  | InsertSynced asn prefixes =>
      let '(t, ns) := insert_all asn prefixes (synced_prefixes w) in
      (inr ns, set_local w t (sync_state w))
  | UpsertSyncState asn last_run =>
      (inr tt, set_local w (synced_prefixes w) (upsert asn last_run (sync_state w)))
  end.

(** Appending inserts the values that are absent, in order. *)
Fixpoint apply_append (l : list string) (values : list string) : list string :=
  match values with
  | [] => l
  | v :: rest => apply_append (if mem v l then l else l ++ [v]) rest
  end.

(** Removing deletes every occurrence of the values. *)
Definition apply_remove (l : list string) (values : list string) : list string :=
  filter (fun x => negb (mem x values)) l.

Definition field (o : option (list Item)) : list string :=
  match o with
  | Some its => map value its
  | None => []
  end.

Definition apply_patch (p : Payload) (l : list string) : list string :=
  apply_remove (apply_append l (field (append p))) (field (remove p)).

Definition answer (l : list string) : Response :=
  {| status := 200;
     body := Json {| success := true;
                     result :=
                       Some {| items :=
                                 ItemsArray
                                   (map (fun v => Some (Build_Item v)) l) |};
                     errors := None |} |}.

Definition network (req : Request) (w : World)
  : (string + Response) * World :=
  match method req with
  | GET => (inr (answer (gateway_list w)), w)
  | PATCH =>
      let l := match payload req with
               | Some p => apply_patch p (gateway_list w)
               | None => gateway_list w
               end in
      (inr (answer l), set_gateway w l)
  end.

Definition platform : Platform World :=
  {| d1 := database; global_fetch := network; now := clock |}.

End Faithful.

(** ** A platform whose list cannot always be read

    The faithful platform, except that the next [unreadable] GET
    requests are answered by a 200 whose body has [success: false].  The
    database and the PATCH requests are those of the faithful platform:
    every PATCH is applied to the list. *)
Module Flaky.

Record World : Type := {
  inner : Faithful.World;
  unreadable : nat
}.

Definition database (c : DbCall) (w : World) : (string + Reply c) * World :=
  let '(reply, inner') := Faithful.database c (inner w) in
  (reply, {| inner := inner'; unreadable := unreadable w |}).

Definition network (req : Request) (w : World)
  : (string + Response) * World :=
  match method req, unreadable w with
  | GET, S n =>
      (inr {| status := 200;
              body := Json {| success := false; result := None;
                              errors := None |} |},
       {| inner := inner w; unreadable := n |})
  | _, _ =>
      let '(reply, inner') := Faithful.network req (inner w) in
      (reply, {| inner := inner'; unreadable := unreadable w |})
  end.

Definition platform : Platform World :=
  {| d1 := database; global_fetch := network;
     now := fun w => Faithful.clock (inner w) |}.

End Flaky.

(* ===================================================================== *)
(** * Reading a trace *)
(* ===================================================================== *)

(** The reply is an HTTP 429: the one case [updateGatewayListSingle]
    tries again. *)
Definition rate_limited (reply : string + Response) : bool :=
  match reply with
  | inr res => negb (ok res) && (status res =? 429)%Z
  | inl _ => false
  end.

(** The reply makes the update succeed: a 2xx status and a body that
    parses with [success] set. *)
Definition accepted (reply : string + Response) : bool :=
  match reply with
  | inr res =>
      ok res && match body res with
                | Json json => success json
                | Garbage _ | JsonNull => false
                end
  | inl _ => false
  end.

(** The PATCH requests of a trace, each with its reply. *)
Definition patches (evs : list Event) : list (Payload * (string + Response)) :=
  flat_map (fun ev =>
              match ev with
              | Http {| method := PATCH; payload := Some p |} reply => [(p, reply)]
              | _ => []
              end) evs.

(** The payloads whose request was answered by something else than a 429. *)
Definition settled (evs : list Event) : list Payload :=
  map fst (filter (fun pr => negb (rate_limited (snd pr))) (patches evs)).

(** The payloads whose request succeeded. *)
Definition applied (evs : list Event) : list Payload :=
  map fst (filter (fun pr => accepted (snd pr)) (patches evs)).

(** The pauses of a trace. *)
Definition sleeps (evs : list Event) : list Z :=
  flat_map (fun ev => match ev with Sleep ms => [ms] | _ => [] end) evs.

(** The database calls of a trace. *)
Definition db_calls (evs : list Event) : list DbCall :=
  flat_map (fun ev => match ev with Db c => [c] | _ => [] end) evs.

(** The local-state writes of a trace. *)
Definition writes (evs : list Event) : list DbCall :=
  filter is_write (db_calls evs).

(** The requests sent to the API. *)
Definition requests (evs : list Event) : list Request :=
  flat_map (fun ev => match ev with Http req _ => [req] | _ => [] end) evs.


(** The table name a statement interpolates into its SQL text. *)
Definition interpolated_table (c : DbCall) : option string :=
  match c with
  | SelectActivePrefixes table | SelectSample table
  | SelectActiveCounts table => Some table
  | _ => None
  end.

(** The requests [updateGatewayListBatched] is to make: the append
    batches, then the remove batches. *)
Definition plan (batchSize : nat) (toAdd toRemove : list string) : list Payload :=
  map append_payload (batches batchSize toAdd)
  ++ map remove_payload (batches batchSize toRemove).

(** What a payload carries: the values to append and the values to
    remove, [None] for a field that is not set. *)
Definition carried (p : Payload) : option (list string) * option (list string) :=
  (option_map (map value) (append p), option_map (map value) (remove p)).

(** The chunks of the two lists, as requests have to carry them: each
    chunk of [toAdd] as an append alone, then each chunk of [toRemove]
    as a remove alone. *)
Definition chunks (batchSize : nat) (toAdd toRemove : list string)
  : list (option (list string) * option (list string)) :=
  map (fun b => (Some b, None)) (batches batchSize toAdd)
  ++ map (fun b => (None, Some b)) (batches batchSize toRemove).

(** In a list of requests with their replies, every request answered by
    a 429 is followed at once by a request with the same payload; the
    list ends on a 429 only when [unsettled] holds. *)
Definition resent (ps : list (Payload * (string + Response))) (unsettled : Prop)
  : Prop :=
  forall pre p reply post,
    ps = pre ++ (p, reply) :: post ->
    rate_limited reply = true ->
    match post with
    | (q, _) :: _ => q = p
    | [] => unsettled
    end.

(** The request of the connectivity test that follows the batches. *)
Definition probe (toAdd : list string) : list Payload :=
  match toAdd with
  | first :: _ => [ {| append := Some [ {| value := first |} ]; remove := None |} ]
  | [] => []
  end.

(** The payload sets exactly one of [append] and [remove]. *)
Definition one_sided (p : Payload) : bool :=
  match append p, remove p with
  | Some _, None | None, Some _ => true
  | _, _ => false
  end.

(** All four credentials are set. *)
Definition configured (env : Env) : bool :=
  truthy (ACCOUNT_ID env) && truthy (LIST_ID env)
  && truthy (API_EMAIL env) && truthy (API_KEY env).

(** The sizes of the slices [batches_from] cuts from a list of length
    [len]. *)
Fixpoint sizes_from (n i batchSize len : nat) : list nat :=
  match n with
  | 0 => []
  | S n' =>
      if i <? len
      then Nat.min batchSize (len - i) :: sizes_from n' (i + batchSize) batchSize len
      else []
  end.

(** The reply ends the update with an error: neither a success nor a 429. *)
Definition failed (reply : string + Response) : bool :=
  negb (accepted reply) && negb (rate_limited reply).

(** The PATCH requests of a trace that failed. *)
Definition failures (evs : list Event) : list (Payload * (string + Response)) :=
  filter (fun pr => failed (snd pr)) (patches evs).

(** The error [updateGatewayListSingle] raises on a reply that is
    neither a success nor a 429. *)
Definition update_error (reply : string + Response) : Error :=
  match reply with
  | inl message => NetworkError message
  | inr res =>
      if negb (ok res) then ApiRequestFailed (status res) (body res)
      else
        match body res with
        | Garbage text => ParseFailed text
        | JsonNull => NullProperty "success"
        | Json json => UpdateFailed json
        end
  end.

(** The [json.result] of a reply. *)
Definition reply_result (reply : string + Response) : option ApiResult :=
  match reply with
  | inr res =>
      match body res with
      | Json json => result json
      | Garbage _ | JsonNull => None
      end
  | inl _ => None
  end.

(** What one request of [updateGatewayListSingle] leads to, by its reply:
    how the attempt ends and what it logs after the request. *)
Definition attempt_outcome (batchLabel : BatchLabel) (reply : string + Response)
  : Outcome Attempt * list Event :=
  if rate_limited reply then
    (Return Again, [ConsoleWarn (RateLimitHit batchLabel); Sleep 1000])
  else if accepted reply then
    (Return (Settled (reply_result reply)), [])
  else
    (Throw (update_error reply),
     [ConsoleError (UpdateError batchLabel (update_error reply))]).

(** [data.result.items] when [data.success], [data.result] and
    [data.result.items] are all truthy. *)
Definition listed_items (data : ApiJson) : ItemsField :=
  if success data
  then match result data with
       | Some r => items r
       | None => ItemsAbsent
       end
  else ItemsAbsent.

(** What the GET of [fetchCurrentGatewayList] leads to, by its reply. *)
Definition read_outcome (reply : string + Response)
  : Outcome (list string) * list Event :=
  match reply with
  | inl message => (Throw (FetchGatewayListFailed (NetworkError message)), [])
  | inr res =>
      if negb (ok res) then
        (Throw (FetchGatewayListFailed
                  (ApiRequestFailed (status res) (body res))), [])
      else
        match body res with
        | Garbage text => (Throw (FetchGatewayListFailed (ParseFailed text)), [])
        | JsonNull =>
            (Throw (FetchGatewayListFailed (NullProperty "success")), [])
        | Json data =>
            match listed_items data with
            | ItemsAbsent => (Return [], [ConsoleWarn NoItemsInResponse])
            | ItemsNotArray =>
                (Throw (FetchGatewayListFailed
                          (NotAFunction "data.result.items.map")), [])
            | ItemsArray elements =>
                match item_values elements with
                | Some values => (Return values, [])
                | None =>
                    (Throw (FetchGatewayListFailed (NullProperty "value")), [])
                end
            end
        end
  end.


(** The statement names no other table than [table]. *)
Definition table_ok (table : string) (c : DbCall) : Prop :=
  forall t, interpolated_table c = Some t -> t = table.

(* ===================================================================== *)
(** * Values used in the examples *)
(* ===================================================================== *)

Definition example_env : Env :=
  {| DB := true; ACCOUNT_ID := Some "account"%string;
     LIST_ID := Some "list"%string; API_EMAIL := Some "ops@example.net"%string;
     API_KEY := Some "key"%string |}.

Definition too_many_requests : Response :=
  {| status := 429; body := Garbage "rate limited"%string |}.

Definition server_error : Response :=
  {| status := 500; body := Garbage "Internal Server Error"%string |}.

Definition updated : Response :=
  {| status := 200;
     body := Json {| success := true; result := None; errors := None |} |}.


Definition refused : Response :=
  {| status := 200;
     body := Json {| success := false; result := None;
                     errors := Some ["list unavailable"%string] |} |}.

(* ===================================================================== *)
(** * Following the Gateway list of the faithful platform *)
(* ===================================================================== *)

(** The list after the payloads have been applied to it, in order. *)
Definition replay (ps : list Payload) (l : list string) : list string :=
  fold_left (fun l p => Faithful.apply_patch p l) ps l.

(** A computation on the faithful platform leaves the ASN tables alone,
    changes the Gateway list by its PATCH requests only, and has each of
    them accepted. *)
Definition tracks {A : Type} (m : Run Faithful.World A) : Prop :=
  forall w,
    Faithful.tables (world (m w)) = Faithful.tables w
    /\ Faithful.gateway_list (world (m w))
       = replay (map fst (patches (events (m w)))) (Faithful.gateway_list w)
    /\ Forall (fun pr => accepted (snd pr) = true) (patches (events (m w))).

Definition example_world : Faithful.World :=
  {| Faithful.tables :=
       [("AS64500"%string,
         [("1.1.1.0/24"%string, 1%Z); ("2.2.2.0/24"%string, 1%Z);
          ("9.9.9.0/24"%string, 0%Z); ("1.1.1.0/24"%string, 1%Z)])];
     Faithful.synced_prefixes := [];
     Faithful.sync_state := [];
     Faithful.gateway_list := ["2.2.2.0/24"; "3.3.3.0/24"; "3.3.3.0/24"]%string;
     Faithful.clock := "2025-05-23T10:00:00.000Z"%string |}.

(* ===================================================================== *)
(** * Computations that only read the database *)
(* ===================================================================== *)

(** The event is a database read that names no other table than
    [table], or a console line. *)
Definition reads_only (table : string) (ev : Event) : Prop :=
  match ev with
  | Db c => is_write c = false /\ table_ok table c
  | Http _ _ => False
  | Sleep _ => False
  | ConsoleWarn _ | ConsoleError _ => True
  end.

(** Every event of the computation is allowed, and it settles. *)
Definition calm {W A : Type} (allowed : Event -> Prop) (m : Run W A) : Prop :=
  forall w, Forall allowed (events (m w)) /\ outcome (m w) <> Pending.

(** The API accepts every request it gets. *)
Definition accepts_all {W : Type} (P : Platform W) : Prop :=
  forall req w, accepted (fst (global_fetch P req w)) = true.

(* ===================================================================== *)
(** * Further notions *)
(* ===================================================================== *)

(** ** A platform whose API is always busy

    Every request is answered by a 429; the database accepts every
    statement and holds no row. *)
Module Busy.

Definition database (c : DbCall) (w : unit) : (string + Reply c) * unit :=
  (match c return string + Reply c with
   | SelectLastRun _ => inr None
   | SelectActivePrefixes _ =>
       inr {| results := Some []; d1_success := true; d1_error := None |}
   | SelectTableName _ => inr true
   | SelectSample _ => inr tt
   | SelectActiveCounts _ => inr tt
   | DeleteSynced _ => inr 0
   | InsertSynced _ prefixes => inr (map (fun _ => 1) prefixes)
   | UpsertSyncState _ _ => inr tt
   end, w).

Definition network (req : Request) (w : unit) : (string + Response) * unit :=
  (inr too_many_requests, w).

Definition platform : Platform unit :=
  {| d1 := database; global_fetch := network;
     now := fun _ => "2025-05-23T00:00:00.000Z"%string |}.

End Busy.

(** The API answers every request by a 429. *)
Definition always_busy {W : Type} (P : Platform W) : Prop :=
  forall req w, rate_limited (fst (global_fetch P req w)) = true.

(** The label of the [n]-th request of a plan with [adds] append batches
    and [removes] remove batches, counting from 0. *)
Definition label_at (adds removes n : nat) : BatchLabel :=
  if n <? adds
  then {| kind := AppendBatch; number := n + 1; total := adds |}
  else {| kind := RemoveBatch; number := n - adds + 1; total := removes |}.

(** The sizes of the batches cut from [len] members: full batches, then
    what is left, if anything. *)
Definition batch_sizes (batchSize len : nat) : list nat :=
  repeat batchSize (len / batchSize)
  ++ (if len mod batchSize =? 0 then [] else [len mod batchSize]).

(** The request is a PATCH built from the bindings. *)
Definition is_patch_of (env : Env) (req : Request) : Prop :=
  exists p, req = patch_request env p /\ one_sided p = true.

(** The statements [updateSyncedPrefixes] is to run. *)
Definition replace_statements (table : string) (prefixes : list string)
  : list DbCall :=
  DeleteSynced table :: map (InsertSynced table) (batches 100 prefixes).

(** The row of [synced_prefixes] belongs to another ASN. *)
Definition other_asn (asn : string) (row : string * string) : bool :=
  negb (String.eqb (fst row) asn).

(** Every request of the trace is a PATCH of the list. *)
Definition only_patches (env : Env) (evs : list Event) : Prop :=
  Forall (is_patch_of env) (requests evs).

(** What the faithful database holds, the Gateway list apart. *)
Definition local_state (w : Faithful.World)
  : list (string * list (string * Z)) * list (string * string)
    * list (string * string) * string :=
  (Faithful.tables w, Faithful.synced_prefixes w, Faithful.sync_state w,
   Faithful.clock w).

(** A computation on the faithful platform that leaves the database as
    it found it. *)
Definition keeps_local {A : Type} (m : Run Faithful.World A) : Prop :=
  forall w, local_state (world (m w)) = local_state w.

(* ===================================================================== *)
(** * Facts about the matcher *)
(* ===================================================================== *)

Module RegexFacts.
Import Regex.

(** ** Correctness of the matcher *)

Lemma nullable_spec (r : regex) : nullable r = true <-> Lang r [].
Proof.
  induction r; simpl.
  - split; [discriminate | tauto].
  - split; auto.
  - split; discriminate.
  - split; [discriminate | intros (c & H & _); discriminate].
  - rewrite andb_true_iff, IHr1, IHr2. split.
    + intros [H1 H2]. exists [], []. auto.
    + intros (u & v & E & H1 & H2). symmetry in E.
      apply app_eq_nil in E as [-> ->]. auto.
  - rewrite orb_true_iff, IHr1, IHr2. tauto.
  - split; auto. intros _. exists []. split; auto.
Qed.

Lemma star_cons_inv (r : regex) (c : ascii) (w : list ascii) :
  Lang (Star r) (c :: w) ->
  exists u v, w = u ++ v /\ Lang r (c :: u) /\ Lang (Star r) v.
Proof.
  simpl. intros (ws & E & F). revert E.
  induction F as [|x ws Hx F IH]; simpl; intros E; [discriminate|].
  destruct x as [|d x].
  - simpl in E. auto.
  - simpl in E. injection E as -> ->.
    exists x, (concat ws). split; [reflexivity|]. split; [assumption|].
    exists ws. auto.
Qed.

Lemma deriv_spec (r : regex) :
  forall c w, Lang (deriv c r) w <-> Lang r (c :: w).
Proof.
  induction r; intros a w; simpl.
  - tauto.
  - split; [tauto | discriminate].
  - destruct (Ascii.eqb_spec a c) as [->|N]; simpl.
    + split; [intros ->; reflexivity | intros E; injection E; auto].
    + split; [tauto | intros E; injection E; intros; subst; tauto].
  - destruct (p a) eqn:Pa; simpl.
    + split.
      * intros ->. exists a. auto.
      * intros (c & E & _). injection E; auto.
    + split; [tauto|]. intros (c & E & Pc). injection E as -> ->. congruence.
  - assert (C : (exists u v, w = u ++ v /\ Lang (deriv a r1) u /\ Lang r2 v)
                \/ (Lang r1 [] /\ Lang r2 (a :: w))
                <-> exists u v, a :: w = u ++ v /\ Lang r1 u /\ Lang r2 v).
    { split.
      - intros [(u & v & -> & H1 & H2) | [H1 H2]].
        + exists (a :: u), v. rewrite IHr1 in H1. auto.
        + exists [], (a :: w). auto.
      - intros (u & v & E & H1 & H2). destruct u as [|d u]; simpl in E.
        + right. subst v. auto.
        + injection E as <- ->. left. exists u, v. rewrite IHr1. auto. }
    destruct (nullable r1) eqn:N; simpl.
    + rewrite IHr2, <- C. apply nullable_spec in N. tauto.
    + rewrite <- C. split; [tauto|]. intros [H | [H _]]; [assumption|].
      apply nullable_spec in H. congruence.
  - rewrite IHr1, IHr2. tauto.
  - split.
    + intros (u & v & -> & H1 & ws & -> & F).
      exists ((a :: u) :: ws). split; [reflexivity|].
      constructor; [apply IHr; assumption | assumption].
    + intros H. apply star_cons_inv in H as (u & v & -> & H1 & H2).
      exists u, v. rewrite IHr. auto.
Qed.

Lemma accepts_spec (w : list ascii) :
  forall r, accepts r w = true <-> Lang r w.
Proof.
  induction w as [|c w IH]; intros r; simpl.
  - apply nullable_spec.
  - rewrite IH. apply deriv_spec.
Qed.

(** ** Languages of the repetition operators over a character class *)

Lemma Lang_Times_Class (p : ascii -> bool) (n : nat) (w : list ascii) :
  Lang (Times n (Class p)) w <-> length w = n /\ all_in p w.
Proof.
  unfold all_in. revert w. induction n as [|n IH]; intros w; simpl.
  - split.
    + intros ->. auto.
    + intros [E _]. destruct w; [reflexivity | discriminate].
  - split.
    + intros (u & v & -> & (c & -> & Pc) & Hv). apply IH in Hv as [<- Hv].
      simpl. rewrite Pc, Hv. auto.
    + intros [E F]. destruct w as [|c w]; [discriminate|].
      simpl in *. apply andb_true_iff in F as [Pc F].
      exists [c], w. split; [reflexivity|]. split; [eauto|].
      apply IH. split; [lia | assumption].
Qed.

Lemma Lang_UpTo_Class (p : ascii -> bool) (n : nat) (w : list ascii) :
  Lang (UpTo n (Class p)) w <-> length w <= n /\ all_in p w.
Proof.
  unfold all_in. revert w. induction n as [|n IH]; intros w; simpl.
  - split.
    + intros ->. auto.
    + intros [E _]. destruct w; [reflexivity | simpl in E; lia].
  - split.
    + intros [-> | (u & v & -> & (c & -> & Pc) & Hv)].
      * simpl. split; [lia | reflexivity].
      * apply IH in Hv as [L Hv]. simpl. rewrite Pc, Hv. split; [lia | auto].
    + intros [E F]. destruct w as [|c w]; [left; reflexivity|].
      simpl in *. apply andb_true_iff in F as [Pc F].
      right. exists [c], w. split; [reflexivity|]. split; [eauto|].
      apply IH. split; [lia | assumption].
Qed.

Lemma all_in_app (p : ascii -> bool) (u v : list ascii) :
  all_in p (u ++ v) <-> all_in p u /\ all_in p v.
Proof. unfold all_in. rewrite forallb_app, andb_true_iff. tauto. Qed.

Lemma Lang_Range_Class (p : ascii -> bool) (lo hi : nat) (w : list ascii) :
  lo <= hi ->
  Lang (Range lo hi (Class p)) w <-> (lo <= length w <= hi) /\ all_in p w.
Proof.
  intros L. unfold Range. simpl. split.
  - intros (u & v & -> & Hu & Hv).
    apply Lang_Times_Class in Hu as [Lu Hu].
    apply Lang_UpTo_Class in Hv as [Lv Hv].
    rewrite length_app, all_in_app. split; [lia | auto].
  - intros [Lw Hw].
    exists (firstn lo w), (skipn lo w).
    rewrite <- (firstn_skipn lo w) in Hw. apply all_in_app in Hw as [H1 H2].
    split; [symmetry; apply firstn_skipn|]. split.
    + apply Lang_Times_Class. split; [|assumption].
      rewrite length_firstn. lia.
    + apply Lang_UpTo_Class. split; [|assumption].
      rewrite length_skipn. lia.
Qed.

Lemma Lang_Star_Class (p : ascii -> bool) (w : list ascii) :
  Lang (Star (Class p)) w <-> all_in p w.
Proof.
  unfold all_in. simpl. split.
  - intros (ws & -> & F). induction F as [|x ws (c & -> & Pc) F IH]; simpl.
    + reflexivity.
    + rewrite Pc, IH. reflexivity.
  - intros F. exists (map (fun c => [c]) w). split.
    + induction w as [|c w IH]; simpl; [reflexivity|].
      simpl in F. apply andb_true_iff in F as [_ F]. rewrite <- IH; auto.
    + induction w as [|c w IH]; simpl; constructor.
      * simpl in F. apply andb_true_iff in F as [Pc _]. simpl. eauto.
      * simpl in F. apply andb_true_iff in F as [_ F]. auto.
Qed.

Lemma Lang_Plus_Class (p : ascii -> bool) (w : list ascii) :
  Lang (Plus (Class p)) w <-> w <> [] /\ all_in p w.
Proof.
  unfold Plus. change (Lang (Cat (Class p) (Star (Class p))) w)
    with (exists u v, w = u ++ v /\ Lang (Class p) u /\ Lang (Star (Class p)) v).
  split.
  - intros (u & v & -> & (c & -> & Pc) & Hv). apply Lang_Star_Class in Hv.
    split; [discriminate|]. unfold all_in in *. simpl. rewrite Pc, Hv. auto.
  - intros [N F]. destruct w as [|c w]; [congruence|].
    unfold all_in in F. simpl in F. apply andb_true_iff in F as [Pc F].
    exists [c], w. split; [reflexivity|]. split; [simpl; eauto|].
    apply Lang_Star_Class. assumption.
Qed.

End RegexFacts.

(* ===================================================================== *)
(** * The validators accept exactly their grammars *)
(* ===================================================================== *)

Module ValidatorFacts.
Import Regex RegexFacts.

Lemma chars_app (a b : string) :
  list_ascii_of_string (a ++ b) = list_ascii_of_string a ++ list_ascii_of_string b.
Proof. induction a as [|c a IH]; simpl; [reflexivity | now rewrite IH]. Qed.

Lemma chars_length (s : string) :
  length (list_ascii_of_string s) = String.length s.
Proof. induction s as [|c s IH]; simpl; [reflexivity | now rewrite IH]. Qed.

Lemma chars_inj (s t : string) :
  list_ascii_of_string s = list_ascii_of_string t -> s = t.
Proof.
  intros E. rewrite <- (string_of_list_ascii_of_string s),
    <- (string_of_list_ascii_of_string t). now rewrite E.
Qed.

Lemma chars_nonempty (s : string) :
  s <> EmptyString <-> list_ascii_of_string s <> [].
Proof. destruct s; simpl; split; intros H; congruence. Qed.

Lemma run_of_chars (p : ascii -> bool) (lo hi : nat) (s : string) :
  run_of p lo hi s <-> lrun p lo hi (list_ascii_of_string s).
Proof. unfold run_of, lrun. now rewrite chars_length. Qed.

Lemma Lang_digits (lo hi : nat) (w : list ascii) :
  lo <= hi -> Lang (Range lo hi digit) w <-> lrun is_digit lo hi w.
Proof. intros L. unfold digit, lrun. now apply Lang_Range_Class. Qed.

Lemma Lang_Cat_iff (r1 r2 : regex) (w : list ascii) :
  Lang (Cat r1 r2) w <-> exists u v, w = u ++ v /\ Lang r1 u /\ Lang r2 v.
Proof. reflexivity. Qed.

Lemma Lang_Chr_Cat (c : ascii) (r : regex) (w : list ascii) :
  Lang (Cat (Chr c) r) w <-> exists v, w = c :: v /\ Lang r v.
Proof.
  rewrite Lang_Cat_iff. split.
  - intros (u & v & -> & Hu & Hv). simpl in Hu. subst u. exists v. auto.
  - intros (v & -> & Hv). exists [c], v. simpl. auto.
Qed.

(** One group of the dotted quad followed by the rest: [[0-9]{1,3}\.r]. *)
Lemma Lang_group_dot (r : regex) (w : list ascii) :
  Lang (Cat (Cat (Range 1 3 digit) (Chr ".")) r) w <->
  exists a v, w = a ++ "."%char :: v /\ lrun is_digit 1 3 a /\ Lang r v.
Proof.
  rewrite Lang_Cat_iff. split.
  - intros (u & v & -> & Hu & Hv).
    apply Lang_Cat_iff in Hu as (a & d & -> & Ha & Hd).
    simpl in Hd. subst d. apply Lang_digits in Ha; [|lia].
    exists a, v. rewrite <- app_assoc. auto.
  - intros (a & v & -> & Ha & Hv).
    exists (a ++ ["."%char]), v. rewrite <- app_assoc. split; [reflexivity|].
    split; [|assumption]. apply Lang_Cat_iff. exists a, ["."%char].
    split; [reflexivity|]. split; [apply Lang_digits; [lia | assumption]|].
    reflexivity.
Qed.

Lemma Lang_tail (n : nat) (w : list ascii) :
  1 <= n ->
  Lang (Cat (Range 1 3 digit) (Cat (Chr "/") (Range 1 n digit))) w <->
  exists d p, w = d ++ "/"%char :: p /\ lrun is_digit 1 3 d /\ lrun is_digit 1 n p.
Proof.
  intros Ln. rewrite Lang_Cat_iff. split.
  - intros (d & v & -> & Hd & Hv). apply Lang_Chr_Cat in Hv as (p & -> & Hp).
    apply Lang_digits in Hd; [|lia]. apply Lang_digits in Hp; [|lia]. eauto 6.
  - intros (d & p & -> & Hd & Hp). exists d, ("/"%char :: p).
    split; [reflexivity|]. split; [apply Lang_digits; [lia | assumption]|].
    apply Lang_Chr_Cat. exists p. split; [reflexivity|].
    apply Lang_digits; [lia | assumption].
Qed.

Lemma Lang_ipv4 (w : list ascii) :
  Lang (Cat (Times 3 (Cat (Range 1 3 digit) (Chr ".")))
          (Cat (Range 1 3 digit) (Cat (Chr "/") (Range 1 2 digit)))) w
  <-> ipv4_chars w.
Proof.
  unfold ipv4_chars. rewrite Lang_Cat_iff. split.
  - intros (u & v & -> & Hu & Hv).
    apply Lang_tail in Hv as (d & p & -> & Hd & Hp); [|lia].
    change (Times 3 (Cat (Range 1 3 digit) (Chr "."))) with
      (Cat (Cat (Range 1 3 digit) (Chr "."))
        (Cat (Cat (Range 1 3 digit) (Chr "."))
          (Cat (Cat (Range 1 3 digit) (Chr ".")) Eps))) in Hu.
    apply Lang_group_dot in Hu as (a & u1 & -> & Ha & Hu).
    apply Lang_group_dot in Hu as (b & u2 & -> & Hb & Hu).
    apply Lang_group_dot in Hu as (c & u3 & -> & Hc & Hu).
    simpl in Hu. subst u3.
    exists a, b, c, d, p. repeat (rewrite <- app_assoc; simpl). auto 10.
  - intros (a & b & c & d & p & -> & Ha & Hb & Hc & Hd & Hp).
    exists (a ++ "."%char :: b ++ "."%char :: c ++ ["."%char]),
      (d ++ "/"%char :: p).
    split; [repeat (rewrite <- app_assoc; simpl); reflexivity|]. split.
    + change (Times 3 (Cat (Range 1 3 digit) (Chr "."))) with
        (Cat (Cat (Range 1 3 digit) (Chr "."))
          (Cat (Cat (Range 1 3 digit) (Chr "."))
            (Cat (Cat (Range 1 3 digit) (Chr ".")) Eps))).
      apply Lang_group_dot. exists a, (b ++ "."%char :: c ++ ["."%char]).
      split; [reflexivity|]. split; [assumption|].
      apply Lang_group_dot. exists b, (c ++ ["."%char]).
      split; [reflexivity|]. split; [assumption|].
      apply Lang_group_dot. exists c, []. simpl. auto.
    + apply Lang_tail; [lia|]. eauto 6.
Qed.

Lemma Lang_hex_group (w : list ascii) :
  Lang (Cat (Plus (Class is_hex_or_colon))
          (Cat (Chr "/") (Range 1 3 digit))) w
  <-> hex_group_chars w.
Proof.
  unfold hex_group_chars. rewrite Lang_Cat_iff. split.
  - intros (g & v & -> & Hg & Hv). apply Lang_Chr_Cat in Hv as (p & -> & Hp).
    apply Lang_Plus_Class in Hg as [Ng Hg]. apply Lang_digits in Hp; [|lia].
    eauto 8.
  - intros (g & p & -> & Ng & Hg & Hp). exists g, ("/"%char :: p).
    split; [reflexivity|]. split; [apply Lang_Plus_Class; auto|].
    apply Lang_Chr_Cat. exists p. split; [reflexivity|].
    apply Lang_digits; [lia | assumption].
Qed.

Lemma ipv4_cidr_chars (s : string) :
  ipv4_cidr s <-> ipv4_chars (list_ascii_of_string s).
Proof.
  unfold ipv4_cidr, ipv4_chars. split.
  - intros (a & b & c & d & p & -> & Ha & Hb & Hc & Hd & Hp).
    rewrite run_of_chars in Ha, Hb, Hc, Hd, Hp.
    repeat (rewrite chars_app; simpl). eauto 12.
  - intros (a & b & c & d & p & E & Ha & Hb & Hc & Hd & Hp).
    exists (string_of_list_ascii a), (string_of_list_ascii b),
      (string_of_list_ascii c), (string_of_list_ascii d),
      (string_of_list_ascii p).
    rewrite !run_of_chars, !list_ascii_of_string_of_list_ascii.
    split; [|auto 6]. apply chars_inj. rewrite E.
    repeat (rewrite chars_app; simpl).
    now rewrite !list_ascii_of_string_of_list_ascii.
Qed.

Lemma hex_group_cidr_chars (s : string) :
  hex_group_cidr s <-> hex_group_chars (list_ascii_of_string s).
Proof.
  unfold hex_group_cidr, hex_group_chars. split.
  - intros (g & p & -> & Ng & Hg & Hp).
    rewrite run_of_chars in Hp. rewrite chars_nonempty in Ng.
    repeat (rewrite chars_app; simpl). eauto 8.
  - intros (g & p & E & Ng & Hg & Hp).
    exists (string_of_list_ascii g), (string_of_list_ascii p).
    rewrite run_of_chars, chars_nonempty, !list_ascii_of_string_of_list_ascii.
    split; [|auto]. apply chars_inj. rewrite E.
    repeat (rewrite chars_app; simpl).
    now rewrite !list_ascii_of_string_of_list_ascii.
Qed.

Lemma isValidCIDR_grammar (s : string) :
  isValidCIDR s = true <-> ipv4_cidr s \/ hex_group_cidr s.
Proof.
  unfold isValidCIDR, test. rewrite accepts_spec.
  rewrite ipv4_cidr_chars, hex_group_cidr_chars.
  unfold cidr_regex.
  change (Lang (Alt ?a ?b) ?w) with (Lang a w \/ Lang b w).
  now rewrite Lang_ipv4, Lang_hex_group.
Qed.

Lemma isValidASN_grammar (s : string) :
  isValidASN s = true <-> as_digits s.
Proof.
  unfold isValidASN, test, asn_regex, as_digits. rewrite accepts_spec.
  rewrite Lang_Chr_Cat. split.
  - intros (v & E & Hv). apply Lang_Chr_Cat in Hv as (ds & -> & Hd).
    apply Lang_Plus_Class in Hd as [Nd Hd].
    exists (string_of_list_ascii ds).
    rewrite chars_nonempty, list_ascii_of_string_of_list_ascii.
    split; [|auto]. apply chars_inj. rewrite E. simpl.
    now rewrite list_ascii_of_string_of_list_ascii.
  - intros (ds & -> & Nd & Hd).
    exists ("S"%char :: list_ascii_of_string ds). split; [reflexivity|].
    apply Lang_Chr_Cat. exists (list_ascii_of_string ds).
    split; [reflexivity|].
    apply Lang_Plus_Class. now rewrite <- chars_nonempty.
Qed.

End ValidatorFacts.

(* ===================================================================== *)
(** * Sets, the diff and the batches *)
(* ===================================================================== *)

Module JSSetFacts.

Lemma has_In (s : JSSet.t) (x : string) : JSSet.has s x = true <-> In x s.
Proof.
  unfold JSSet.has. rewrite existsb_exists. split.
  - intros (y & Hy & E). apply String.eqb_eq in E. now subst.
  - intros H. exists x. split; [assumption | apply String.eqb_refl].
Qed.

Lemma has_false (s : JSSet.t) (x : string) : JSSet.has s x = false <-> ~ In x s.
Proof.
  rewrite <- has_In. destruct (JSSet.has s x); split; congruence.
Qed.

Lemma In_add (s : JSSet.t) (x y : string) :
  In y (JSSet.add s x) <-> In y s \/ y = x.
Proof.
  unfold JSSet.add. destruct (JSSet.has s x) eqn:H.
  - apply has_In in H. split; [tauto | intros [?| ->]; assumption].
  - rewrite in_app_iff. simpl. intuition.
Qed.

Lemma NoDup_add (s : JSSet.t) (x : string) : NoDup s -> NoDup (JSSet.add s x).
Proof.
  intros N. unfold JSSet.add. destruct (JSSet.has s x) eqn:H; [assumption|].
  apply has_false in H. apply NoDup_app; [assumption | | ].
  - constructor; [simpl; tauto | constructor].
  - intros y Hy [<-|[]]. contradiction.
Qed.

Lemma In_fold_add (l : list string) :
  forall (s : JSSet.t) (y : string),
    In y (fold_left JSSet.add l s) <-> In y s \/ In y l.
Proof.
  induction l as [|x l IH]; intros s y; simpl.
  - tauto.
  - rewrite IH, In_add. intuition.
Qed.

Lemma NoDup_fold_add (l : list string) :
  forall s : JSSet.t, NoDup s -> NoDup (fold_left JSSet.add l s).
Proof.
  induction l as [|x l IH]; intros s N; simpl; [assumption|].
  apply IH. now apply NoDup_add.
Qed.

Lemma In_from (l : list string) (y : string) : In y (JSSet.from l) <-> In y l.
Proof. unfold JSSet.from. rewrite In_fold_add. simpl. tauto. Qed.

Lemma NoDup_from (l : list string) : NoDup (JSSet.from l).
Proof. apply NoDup_fold_add. constructor. Qed.

Lemma has_from (l : list string) (x : string) :
  JSSet.has (JSSet.from l) x = true <-> In x l.
Proof. now rewrite has_In, In_from. Qed.

Lemma has_from_false (l : list string) (x : string) :
  JSSet.has (JSSet.from l) x = false <-> ~ In x l.
Proof. now rewrite has_false, In_from. Qed.

End JSSetFacts.

Module DiffFacts.
Import JSSetFacts.

Lemma In_toAdd (D R : list string) (x : string) :
  In x (toAdd D R) <-> In x D /\ ~ In x R.
Proof.
  unfold toAdd. rewrite filter_In, negb_true_iff, has_from_false. tauto.
Qed.

Lemma In_toRemove (D R : list string) (x : string) :
  In x (toRemove D R) <-> In x R /\ ~ In x D.
Proof.
  unfold toRemove. rewrite filter_In, negb_true_iff, has_from_false. tauto.
Qed.

Lemma In_validDesired (desired : list string) (x : string) :
  In x (validDesired desired) <-> In x desired /\ isValidCIDR x = true.
Proof.
  unfold validDesired, JSSet.spread. now rewrite In_from, filter_In.
Qed.

Lemma NoDup_validDesired (desired : list string) : NoDup (validDesired desired).
Proof. apply NoDup_from. Qed.



End DiffFacts.

Module BatchFacts.

Section Batches.
Context {A : Type}.
Variable batchSize : nat.
Hypothesis positive : 0 < batchSize.

Lemma slice_step (l : list A) (i : nat) :
  slice l i (i + batchSize) = firstn batchSize (skipn i l).
Proof. unfold slice. f_equal. lia. Qed.

Lemma concat_batches_from (l : list A) :
  forall n i, length l - i <= n ->
    concat (batches_from n i batchSize l) = skipn i l.
Proof.
  induction n as [|n IH]; intros i L; simpl.
  - symmetry. apply skipn_all2. lia.
  - destruct (Nat.ltb_spec i (length l)) as [Lt|Ge].
    + simpl. rewrite IH by lia. rewrite slice_step.
      rewrite Nat.add_comm, <- skipn_skipn. apply firstn_skipn.
    + symmetry. apply skipn_all2. lia.
Qed.

Lemma concat_batches (l : list A) : concat (batches batchSize l) = l.
Proof. unfold batches. rewrite concat_batches_from by lia. reflexivity. Qed.

Lemma bounded_batches_from (l : list A) :
  forall n i,
    Forall (fun b => 1 <= length b <= batchSize) (batches_from n i batchSize l).
Proof.
  induction n as [|n IH]; intros i; simpl; [constructor|].
  destruct (Nat.ltb_spec i (length l)) as [Lt|Ge]; [|constructor].
  constructor; [|apply IH].
  rewrite slice_step, length_firstn, length_skipn. lia.
Qed.

Lemma bounded_batches (l : list A) :
  Forall (fun b => 1 <= length b <= batchSize) (batches batchSize l).
Proof. apply bounded_batches_from. Qed.

Lemma sizes_batches_from (l : list A) :
  forall n i,
    map (@length A) (batches_from n i batchSize l)
    = sizes_from n i batchSize (length l).
Proof.
  induction n as [|n IH]; intros i; simpl; [reflexivity|].
  destruct (i <? length l); [|reflexivity]. simpl.
  rewrite IH, slice_step, length_firstn, length_skipn. reflexivity.
Qed.

Lemma loops_forever_false (l : list A) : loops_forever batchSize l = false.
Proof.
  unfold loops_forever. destruct (Nat.eqb_spec batchSize 0); [lia | reflexivity].
Qed.

End Batches.

Lemma sizes_batches {A : Type} (batchSize : nat) (l : list A) :
  0 < batchSize ->
  map (@length A) (batches batchSize l)
  = sizes_from (length l) 0 batchSize (length l).
Proof. intros H. unfold batches. now apply sizes_batches_from. Qed.

End BatchFacts.

(* ===================================================================== *)
(** * Runs *)
(* ===================================================================== *)

Module RunFacts.

Section Observers.

Lemma patches_app (a b : list Event) : patches (a ++ b) = patches a ++ patches b.
Proof. apply flat_map_app. Qed.

Lemma settled_app (a b : list Event) : settled (a ++ b) = settled a ++ settled b.
Proof. unfold settled. now rewrite patches_app, filter_app, map_app. Qed.

Lemma applied_app (a b : list Event) : applied (a ++ b) = applied a ++ applied b.
Proof. unfold applied. now rewrite patches_app, filter_app, map_app. Qed.

Lemma failures_app (a b : list Event) :
  failures (a ++ b) = failures a ++ failures b.
Proof. unfold failures. now rewrite patches_app, filter_app. Qed.

Lemma sleeps_app (a b : list Event) : sleeps (a ++ b) = sleeps a ++ sleeps b.
Proof. apply flat_map_app. Qed.

Lemma db_calls_app (a b : list Event) :
  db_calls (a ++ b) = db_calls a ++ db_calls b.
Proof. apply flat_map_app. Qed.

Lemma writes_app (a b : list Event) : writes (a ++ b) = writes a ++ writes b.
Proof. unfold writes. now rewrite db_calls_app, filter_app. Qed.

Lemma requests_app (a b : list Event) :
  requests (a ++ b) = requests a ++ requests b.
Proof. apply flat_map_app. Qed.

Lemma no_patches (evs : list Event) :
  patches evs = [] -> settled evs = [] /\ applied evs = [] /\ failures evs = [].
Proof. unfold settled, applied, failures. intros ->. auto. Qed.

Lemma no_requests (evs : list Event) : requests evs = [] -> patches evs = [].
Proof.
  induction evs as [|ev evs IH]; [reflexivity|].
  destruct ev; simpl; try assumption. discriminate.
Qed.

Lemma no_db_calls (evs : list Event) : db_calls evs = [] -> writes evs = [].
Proof. unfold writes. now intros ->. Qed.

End Observers.

Section Monad.
Context {W : Type}.

Lemma bind_Return {A B : Type} (m : Run W A) (f : A -> Run W B) (w : W)
    (a : A) (w' : W) (evs : list Event) :
  m w = {| outcome := Return a; world := w'; events := evs |} ->
  bind m f w = {| outcome := outcome (f a w'); world := world (f a w');
                  events := evs ++ events (f a w') |}.
Proof. intros E. unfold bind. now rewrite E. Qed.

Lemma bind_Throw {A B : Type} (m : Run W A) (f : A -> Run W B) (w : W)
    (e : Error) (w' : W) (evs : list Event) :
  m w = {| outcome := Throw e; world := w'; events := evs |} ->
  bind m f w = {| outcome := Throw e; world := w'; events := evs |}.
Proof. intros E. unfold bind. now rewrite E. Qed.

Lemma bind_Pending {A B : Type} (m : Run W A) (f : A -> Run W B) (w : W)
    (w' : W) (evs : list Event) :
  m w = {| outcome := Pending; world := w'; events := evs |} ->
  bind m f w = {| outcome := Pending; world := w'; events := evs |}.
Proof. intros E. unfold bind. now rewrite E. Qed.

Lemma result_eta {A : Type} (r : Result W A) :
  r = {| outcome := outcome r; world := world r; events := events r |}.
Proof. now destruct r. Qed.

End Monad.

End RunFacts.

(* ===================================================================== *)
(** * The batched updater *)
(* ===================================================================== *)

Module UpdateFacts.
Import RunFacts.

Section Update.
Context {W : Type}.
Variable P : Platform W.

(** One attempt, by the reply of the network. *)
Lemma attempt_run (env : Env) (p : Payload) (label : BatchLabel) (w : W) :
  attempt P env p label w
  = {| outcome := fst (attempt_outcome label (fst (global_fetch P (patch_request env p) w)));
       world := snd (global_fetch P (patch_request env p) w);
       events := Http (patch_request env p)
                   (fst (global_fetch P (patch_request env p) w))
                 :: snd (attempt_outcome label
                           (fst (global_fetch P (patch_request env p) w))) |}.
Proof.
  unfold attempt, catch, bind, fetch_url, attempt_outcome, update_error,
    reply_result, rate_limited, accepted.
  destruct (global_fetch P (patch_request env p) w) as [[msg|res] w']; simpl;
    [reflexivity|].
  destruct (ok res) eqn:Ok; simpl.
  - destruct (body res) as [text| |json]; simpl; [reflexivity|reflexivity|].
    destruct (success json); reflexivity.
  - destruct (status res =? 429)%Z; reflexivity.
Qed.

(** A call with a payload that sets a field makes a request when it has
    fuel. *)
Lemma single_step (fuel : nat) (env : Env) (p : Payload) (label : BatchLabel) :
  one_sided p = true ->
  updateGatewayListSingle P (S fuel) env p label
  = bind (attempt P env p label)
      (fun a => match a with
                | Settled r => ret r
                | Again => updateGatewayListSingle P fuel env p label
                end).
Proof.
  unfold one_sided. simpl.
  destruct (append p), (remove p); intros H; try discriminate; reflexivity.
Qed.

Lemma single_zero (env : Env) (p : Payload) (label : BatchLabel) :
  one_sided p = true ->
  updateGatewayListSingle P 0 env p label = pending.
Proof.
  unfold one_sided. simpl.
  destruct (append p), (remove p); intros H; try discriminate; reflexivity.
Qed.

Lemma patches_cons_patch (env : Env) (p : Payload)
    (reply : string + Response) (evs : list Event) :
  patches (Http (patch_request env p) reply :: evs) = (p, reply) :: patches evs.
Proof. reflexivity. Qed.

Lemma rate_limited_not_accepted (reply : string + Response) :
  rate_limited reply = true -> accepted reply = false.
Proof.
  destruct reply as [|res]; simpl; [discriminate|].
  destruct (ok res); simpl; [discriminate | reflexivity].
Qed.

(** What a call leaves in the trace, by how it ends. *)
Lemma single_trace (env : Env) (p : Payload) (label : BatchLabel) :
  one_sided p = true ->
  forall (fuel : nat) (w : W),
    let r := updateGatewayListSingle P fuel env p label w in
    db_calls (events r) = []
    /\ Forall (fun pr => fst pr = p) (patches (events r))
    /\ match outcome r with
       | Return _ =>
           settled (events r) = [p] /\ applied (events r) = [p]
           /\ failures (events r) = []
       | Throw _ => settled (events r) = [p] /\ applied (events r) = []
       | Pending =>
           settled (events r) = [] /\ applied (events r) = []
           /\ failures (events r) = []
       end.
Proof.
  intros Hp. induction fuel as [|fuel IH]; intros w.
  - rewrite single_zero by assumption. simpl. auto.
  - rewrite single_step by assumption. unfold bind. rewrite attempt_run.
    cbn [outcome world events].
    destruct (global_fetch P (patch_request env p) w) as [reply w'].
    cbn [fst snd]. unfold attempt_outcome.
    destruct (rate_limited reply) eqn:RL; [|destruct (accepted reply) eqn:Ac].
    + cbn [fst snd outcome world events].
      specialize (IH w').
      destruct (updateGatewayListSingle P fuel env p label w') as [o w2 evs].
      cbn [outcome world events] in *.
      change (Http (patch_request env p) reply
                :: [ConsoleWarn (RateLimitHit label); Sleep 1000] ++ evs)
        with ([Http (patch_request env p) reply;
               ConsoleWarn (RateLimitHit label); Sleep 1000] ++ evs).
      rewrite db_calls_app, settled_app, applied_app, failures_app, patches_app.
      assert (S0 : settled [Http (patch_request env p) reply;
                ConsoleWarn (RateLimitHit label); Sleep 1000] = []).
      { unfold settled. cbn. rewrite RL. reflexivity. }
      assert (A0 : applied [Http (patch_request env p) reply;
                ConsoleWarn (RateLimitHit label); Sleep 1000] = []).
      { unfold applied. cbn.
        rewrite (rate_limited_not_accepted _ RL). reflexivity. }
      assert (F0 : failures [Http (patch_request env p) reply;
                ConsoleWarn (RateLimitHit label); Sleep 1000] = []).
      { unfold failures, failed. cbn. rewrite RL, andb_false_r. reflexivity. }
      rewrite S0, A0, F0. cbn [app db_calls flat_map].
      destruct IH as (D & Fp & IH). split; [assumption|]. split.
      * cbn. constructor; [reflexivity | assumption].
      * destruct o; exact IH.
    + cbn. unfold settled, applied, failures, failed. cbn.
      rewrite RL, Ac. cbn. auto.
    + cbn. unfold settled, applied, failures, failed. cbn.
      rewrite RL, Ac. cbn. auto.
Qed.

(** The loop over the batches: the trace holds the requests of the
    batches done so far. *)
Lemma process_trace (fuel : nat) (env : Env) (make : list string -> Payload)
    (k : BatchKind) (count : nat) :
  (forall b, one_sided (make b) = true) ->
  forall (todo : list (list string)) (i : nat) (w : W),
    let r := process_batches P fuel env make k count i todo w in
    db_calls (events r) = []
    /\ Forall (fun pr => In (fst pr) (map make todo)) (patches (events r))
    /\ (outcome r = Pending -> failures (events r) = [])
    /\ exists done rest,
         todo = done ++ rest
         /\ settled (events r) = map make done
         /\ (outcome r = Return tt ->
             rest = [] /\ applied (events r) = map make todo
             /\ failures (events r) = []).
Proof.
  intros Hmake. induction todo as [|b todo IH]; intros i w.
  - cbn. split; [reflexivity|]. split; [constructor|]. split; [reflexivity|].
    exists [], []. auto.
  - cbn [process_batches]. unfold bind.
    pose proof (single_trace env (make b)
                  {| kind := k; number := i + 1; total := count |}
                  (Hmake b) fuel w) as H1.
    cbn zeta in H1.
    destruct (updateGatewayListSingle P fuel env (make b)
                {| kind := k; number := i + 1; total := count |} w)
      as [o w1 e1].
    cbn [outcome world events] in *. destruct H1 as (D1 & P1 & H1).
    assert (P1' : Forall (fun pr => In (fst pr) (map make (b :: todo)))
                    (patches e1)).
    { eapply Forall_impl; [|exact P1]. cbn. intros pr ->. auto. }
    destruct o as [a|e|].
    + destruct H1 as (S1 & A1 & F1).
      specialize (IH (i + 1) w1). cbn zeta in IH.
      destruct (process_batches P fuel env make k count (i + 1) todo w1)
        as [o2 w2 e2].
      cbn [outcome world events] in *.
      destruct IH as (D2 & P2 & N2 & done & rest & -> & S2 & R2).
      rewrite db_calls_app, settled_app, applied_app, failures_app, patches_app.
      rewrite D1, D2, S1, S2, A1, F1. split; [reflexivity|]. split.
      { apply Forall_app. split; [assumption|].
        eapply Forall_impl; [|exact P2]. cbn. auto. }
      split; [exact N2|].
      exists (b :: done), rest. split; [reflexivity|]. split; [reflexivity|].
      intros E. destruct (R2 E) as (-> & A2 & F2).
      rewrite A2, F2. auto.
    + destruct H1 as (S1 & A1). cbn [outcome world events].
      split; [assumption|]. split; [assumption|]. split; [discriminate|].
      exists [b], todo.
      split; [reflexivity|]. split; [assumption|]. discriminate.
    + destruct H1 as (S1 & A1 & F1). cbn [outcome world events].
      split; [assumption|]. split; [assumption|]. split; [auto|].
      exists [], (b :: todo).
      split; [reflexivity|]. split; [assumption|]. discriminate.
Qed.

Lemma one_sided_append (b : list string) : one_sided (append_payload b) = true.
Proof. reflexivity. Qed.

Lemma one_sided_remove (b : list string) : one_sided (remove_payload b) = true.
Proof. reflexivity. Qed.

(** The batched updater: the requests that were not turned away by a 429
    are the first requests of the plan, and all of it when the updater
    returns; every request for an append batch comes before every request
    for a remove batch. *)
Lemma batched_trace (fuel : nat) (env : Env) (toAdd toRemove : list string)
    (batchSize : nat) (w : W) :
  0 < batchSize ->
  let r := updateGatewayListBatched P fuel env toAdd toRemove batchSize w in
  db_calls (events r) = []
  /\ (exists rest, plan batchSize toAdd toRemove = settled (events r) ++ rest)
  /\ (exists first second,
        events r = first ++ second
        /\ Forall (fun pr => In (fst pr)
                               (map append_payload (batches batchSize toAdd)))
             (patches first)
        /\ Forall (fun pr => In (fst pr)
                               (map remove_payload (batches batchSize toRemove)))
             (patches second))
  /\ (outcome r = Pending -> failures (events r) = [])
  /\ (outcome r = Return tt ->
      settled (events r) = plan batchSize toAdd toRemove
      /\ applied (events r) = plan batchSize toAdd toRemove
      /\ failures (events r) = []).
Proof.
  intros Hb. unfold updateGatewayListBatched, plan.
  rewrite !(BatchFacts.loops_forever_false Hb). unfold bind.
  pose proof (process_trace fuel env append_payload AppendBatch
                (length (batches batchSize toAdd)) one_sided_append
                (batches batchSize toAdd) 0 w) as H1.
  cbn zeta in H1.
  destruct (process_batches P fuel env append_payload AppendBatch
              (length (batches batchSize toAdd)) 0 (batches batchSize toAdd) w)
    as [o1 w1 e1].
  cbn [outcome world events] in *.
  destruct H1 as (D1 & P1 & N1 & done1 & rest1 & E1 & S1 & R1).
  destruct o1 as [[]|e|].
  - destruct (R1 eq_refl) as (-> & A1 & F1). rewrite app_nil_r in E1.
    subst done1.
    pose proof (process_trace fuel env remove_payload RemoveBatch
                  (length (batches batchSize toRemove)) one_sided_remove
                  (batches batchSize toRemove) 0 w1) as H2.
    cbn zeta in H2.
    destruct (process_batches P fuel env remove_payload RemoveBatch
                (length (batches batchSize toRemove)) 0
                (batches batchSize toRemove) w1)
      as [o2 w2 e2].
    cbn [outcome world events] in *.
    destruct H2 as (D2 & P2 & N2 & done2 & rest2 & E2 & S2 & R2).
    rewrite db_calls_app, settled_app, applied_app, failures_app.
    rewrite D1, D2, S1, S2, A1, F1. split; [reflexivity|]. split.
    { exists (map remove_payload rest2).
      rewrite E2, map_app, app_assoc. reflexivity. }
    split; [exists e1, e2; auto|]. split; [exact N2|].
    intros E. destruct (R2 E) as (-> & A2 & F2).
    rewrite app_nil_r in E2. subst done2. rewrite A2, F2. auto.
  - cbn [outcome world events]. split; [assumption|]. split.
    { exists (map append_payload rest1
              ++ map remove_payload (batches batchSize toRemove)).
      rewrite S1, E1, map_app, app_assoc. reflexivity. }
    split; [|split; discriminate].
    exists e1, []. rewrite app_nil_r. split; [reflexivity|].
    split; [assumption | constructor].
  - cbn [outcome world events]. split; [assumption|]. split.
    { exists (map append_payload rest1
              ++ map remove_payload (batches batchSize toRemove)).
      rewrite S1, E1, map_app, app_assoc. reflexivity. }
    split; [|split; [auto | discriminate]].
    exists e1, []. rewrite app_nil_r. split; [reflexivity|].
    split; [assumption | constructor].
Qed.

(** ** When the API accepts every request *)

Lemma accepted_not_rate_limited (reply : string + Response) :
  accepted reply = true -> rate_limited reply = false.
Proof.
  intros Ac. destruct (rate_limited reply) eqn:RL; [|reflexivity].
  apply rate_limited_not_accepted in RL. congruence.
Qed.

Lemma single_accepting (fuel : nat) (env : Env) (p : Payload)
    (label : BatchLabel) (w : W) :
  accepts_all P -> one_sided p = true ->
  let r := updateGatewayListSingle P (S fuel) env p label w in
  (exists a, outcome r = Return a) /\ map fst (patches (events r)) = [p].
Proof.
  intros Acc Hp. cbv zeta. rewrite single_step by assumption.
  unfold bind. rewrite attempt_run. cbn [outcome world events].
  unfold attempt_outcome. specialize (Acc (patch_request env p) w).
  destruct (global_fetch P (patch_request env p) w) as [reply w'].
  cbn [fst snd] in *. rewrite (accepted_not_rate_limited _ Acc), Acc.
  cbn. eauto.
Qed.

Lemma process_accepting (fuel : nat) (env : Env)
    (make : list string -> Payload) (k : BatchKind) (count : nat) :
  accepts_all P -> (forall b, one_sided (make b) = true) ->
  forall (todo : list (list string)) (i : nat) (w : W),
    let r := process_batches P (S fuel) env make k count i todo w in
    outcome r = Return tt /\ map fst (patches (events r)) = map make todo.
Proof.
  intros Acc Hmake. induction todo as [|b todo IH]; intros i w.
  - cbn. auto.
  - cbn [process_batches]. unfold bind.
    destruct (single_accepting fuel env (make b)
                {| kind := k; number := i + 1; total := count |} w Acc
                (Hmake b)) as ((a & O1) & P1).
    destruct (updateGatewayListSingle P (S fuel) env (make b)
                {| kind := k; number := i + 1; total := count |} w)
      as [o w1 e1].
    cbn [outcome world events] in *. subst o.
    destruct (IH (i + 1) w1) as (O2 & P2).
    destruct (process_batches P (S fuel) env make k count (i + 1) todo w1)
      as [o2 w2 e2].
    cbn [outcome world events] in *.
    split; [assumption|]. now rewrite patches_app, map_app, P1, P2.
Qed.

Lemma batched_accepting (fuel : nat) (env : Env)
    (toAdd toRemove : list string) (batchSize : nat) (w : W) :
  accepts_all P -> 0 < batchSize ->
  let r := updateGatewayListBatched P (S fuel) env toAdd toRemove batchSize w in
  outcome r = Return tt
  /\ map fst (patches (events r)) = plan batchSize toAdd toRemove.
Proof.
  intros Acc Hb. cbv zeta. unfold updateGatewayListBatched, plan.
  rewrite !(BatchFacts.loops_forever_false Hb). unfold bind.
  destruct (process_accepting fuel env append_payload AppendBatch
              (length (batches batchSize toAdd)) Acc one_sided_append
              (batches batchSize toAdd) 0 w) as (O1 & P1).
  destruct (process_batches P (S fuel) env append_payload AppendBatch
              (length (batches batchSize toAdd)) 0 (batches batchSize toAdd) w)
    as [o1 w1 e1].
  cbn [outcome world events] in *. subst o1.
  destruct (process_accepting fuel env remove_payload RemoveBatch
              (length (batches batchSize toRemove)) Acc one_sided_remove
              (batches batchSize toRemove) 0 w1) as (O2 & P2).
  destruct (process_batches P (S fuel) env remove_payload RemoveBatch
              (length (batches batchSize toRemove)) 0
              (batches batchSize toRemove) w1)
    as [o2 w2 e2].
  cbn [outcome world events] in *.
  split; [assumption|]. now rewrite patches_app, map_app, P1, P2.
Qed.

End Update.
End UpdateFacts.

(* ===================================================================== *)
(** * The stages of a sync *)
(* ===================================================================== *)

Module StageFacts.
Import RunFacts UpdateFacts.

Ltac run_d1 :=
  repeat match goal with
         | |- context [d1 ?P ?c ?w] =>
             destruct (d1 P c w) as [[?|?] ?]; cbn
         end.

Section Stages.
Context {W : Type}.
Variable P : Platform W.

Lemma configured_passes (env : Env) :
  configured env = true ->
  negb (truthy (ACCOUNT_ID env)) || negb (truthy (LIST_ID env))
  || negb (truthy (API_EMAIL env)) || negb (truthy (API_KEY env)) = false.
Proof.
  unfold configured. intros H.
  apply andb_true_iff in H as [H Hk]. apply andb_true_iff in H as [H He].
  apply andb_true_iff in H as [Ha Hl]. now rewrite Ha, Hl, He, Hk.
Qed.

Lemma query_run (c : DbCall) (w : W) :
  query P c w
  = {| outcome := match fst (d1 P c w) with
                  | inl message => Throw (D1Exception message)
                  | inr reply => Return reply
                  end;
       world := snd (d1 P c w); events := [Db c] |}.
Proof. unfold query. now destruct (d1 P c w) as [[m|r] w']. Qed.

Lemma fetchCurrent_run (env : Env) (w : W) :
  fetchCurrentGatewayList P env w
  = {| outcome := fst (read_outcome (fst (global_fetch P (get_request env) w)));
       world := snd (global_fetch P (get_request env) w);
       events := Http (get_request env) (fst (global_fetch P (get_request env) w))
                 :: snd (read_outcome (fst (global_fetch P (get_request env) w))) |}.
Proof.
  unfold fetchCurrentGatewayList, catch, bind, fetch_url, read_outcome,
    listed_items.
  destruct (global_fetch P (get_request env) w) as [[msg|res] w']; cbn;
    [reflexivity|].
  destruct (ok res); cbn; [|reflexivity].
  destruct (body res) as [text| |data]; cbn; [reflexivity|reflexivity|].
  destruct (success data); cbn; [|reflexivity].
  destruct (result data) as [r|]; cbn; [|reflexivity].
  destruct (items r) as [| |elements]; try reflexivity.
  destruct (item_values elements); reflexivity.
Qed.

Lemma fetchCurrent_trace (env : Env) (w : W) :
  let r := fetchCurrentGatewayList P env w in
  db_calls (events r) = [] /\ patches (events r) = []
  /\ outcome r <> Pending.
Proof.
  cbv zeta. rewrite fetchCurrent_run. cbn [outcome world events].
  destruct (global_fetch P (get_request env) w) as [reply w']. cbn [fst snd].
  unfold read_outcome.
  destruct reply as [msg|res]; [cbn; repeat split; discriminate|].
  destruct (ok res); cbn; [|repeat split; discriminate].
  destruct (body res) as [text| |data]; cbn;
    [repeat split; discriminate|repeat split; discriminate|].
  destruct (listed_items data) as [| |elements]; cbn;
    try (repeat split; discriminate).
  destruct (item_values elements); cbn; repeat split; discriminate.
Qed.

(** ** Calm computations *)

Lemma calm_ret {A : Type} (allowed : Event -> Prop) (a : A) :
  calm allowed (ret (W := W) a).
Proof. intros w. cbn. split; [constructor | discriminate]. Qed.

Lemma calm_throw {A : Type} (allowed : Event -> Prop) (e : Error) :
  calm allowed (throw (W := W) (A := A) e).
Proof. intros w. cbn. split; [constructor | discriminate]. Qed.

Lemma calm_bind {A B : Type} (allowed : Event -> Prop) (m : Run W A)
    (f : A -> Run W B) :
  calm allowed m -> (forall a, calm allowed (f a)) -> calm allowed (bind m f).
Proof.
  intros Hm Hf w. unfold bind. destruct (Hm w) as (F1 & N1).
  destruct (m w) as [[a|e|] w1 e1]; cbn [outcome world events] in *;
    [|split; [assumption | discriminate] | congruence].
  destruct (Hf a w1) as (F2 & N2). split; [|assumption].
  apply Forall_app. auto.
Qed.

Lemma calm_catch {A : Type} (allowed : Event -> Prop) (m : Run W A)
    (h : Error -> Run W A) :
  calm allowed m -> (forall e, calm allowed (h e)) -> calm allowed (catch m h).
Proof.
  intros Hm Hh w. unfold catch. destruct (Hm w) as (F1 & N1).
  destruct (m w) as [[a|e|] w1 e1]; cbn [outcome world events] in *;
    [split; [assumption | discriminate] | | congruence].
  destruct (Hh e w1) as (F2 & N2). split; [|assumption].
  apply Forall_app. auto.
Qed.

Lemma calm_query (allowed : Event -> Prop) (c : DbCall) :
  allowed (Db c) -> calm allowed (query P c).
Proof.
  intros H w. rewrite query_run. cbn [outcome events]. split.
  - repeat constructor. assumption.
  - destruct (fst (d1 P c w)); discriminate.
Qed.

Lemma reads_only_trace (table : string) (evs : list Event) :
  Forall (reads_only table) evs ->
  requests evs = [] /\ writes evs = []
  /\ Forall (table_ok table) (db_calls evs).
Proof.
  induction 1 as [|ev evs H F (R & Wr & T)]; [cbn; auto|].
  destruct ev as [c| | | |]; cbn in H; try contradiction;
    try (cbn; auto; fail).
  destruct H as (Hw & Ht). unfold writes in *. cbn. rewrite Hw.
  auto.
Qed.

Lemma bind_Return_inv {A B : Type} (m : Run W A) (f : A -> Run W B) (w : W)
    (b : B) :
  outcome (bind m f w) = Return b ->
  exists a w', outcome (f a w') = Return b.
Proof.
  unfold bind. destruct (m w) as [[a|e|] w1 e1]; cbn; try discriminate. eauto.
Qed.

Lemma catch_rethrow_Return_inv {A : Type} (m : Run W A) (wrap : Error -> Error)
    (w : W) (a : A) :
  outcome (catch m (fun err => throw (wrap err)) w) = Return a ->
  outcome (m w) = Return a.
Proof.
  unfold catch. destruct (m w) as [[a'|e|] w1 e1]; cbn; congruence.
Qed.

Lemma fetchDesired_trace (table : string) (w : W) :
  let r := fetchDesiredPrefixes P table w in
  requests (events r) = [] /\ writes (events r) = []
  /\ Forall (table_ok table) (db_calls (events r))
  /\ outcome r <> Pending
  /\ (forall rows, outcome r = Return rows -> rows <> []).
Proof.
  cbv zeta.
  assert (Q : forall c, is_write c = false ->
                        (forall t, interpolated_table c = Some t -> t = table) ->
                        calm (reads_only table) (query P c)).
  { intros c Hw Ht. apply calm_query. split; assumption. }
  assert (C : calm (reads_only table) (fetchDesiredPrefixes P table)).
  { unfold fetchDesiredPrefixes.
    apply calm_catch; [|intros; apply calm_throw].
    apply calm_bind; [apply Q; [reflexivity | cbn; congruence]|].
    intros r. destruct (negb (d1_success r)); [apply calm_throw|].
    destruct (results r) as [rows|]; [|apply calm_throw].
    destruct (length rows =? 0); [|apply calm_ret].
    apply calm_bind; [apply Q; [reflexivity | cbn; congruence]|].
    intros tableCheck. destruct (negb tableCheck); [apply calm_throw|].
    apply calm_bind; [apply Q; [reflexivity | cbn; congruence]|]. intros _.
    apply calm_bind; [apply Q; [reflexivity | cbn; congruence]|]. intros _.
    apply calm_throw. }
  destruct (C w) as (F & N).
  destruct (reads_only_trace F) as (Rq & Wr & T).
  repeat (split; [assumption|]).
  intros rows E. unfold fetchDesiredPrefixes in E.
  apply catch_rethrow_Return_inv in E.
  apply bind_Return_inv in E as (r & w1 & E).
  destruct (negb (d1_success r)); [discriminate|].
  destruct (results r) as [rows'|]; [|discriminate].
  destruct rows' as [|row rows']; cbn [length Nat.eqb] in E.
  - apply bind_Return_inv in E as (tableCheck & w2 & E).
    destruct (negb tableCheck); [discriminate|].
    apply bind_Return_inv in E as (? & w3 & E).
    apply bind_Return_inv in E as (? & w4 & E). discriminate.
  - cbn in E. injection E as <-. discriminate.
Qed.

Lemma probe_trace (env : Env) (prefix : string) (w : W) :
  let r := testGatewayListUpdate P env prefix w in
  let p := {| append := Some [ {| value := prefix |} ]; remove := None |} in
  db_calls (events r) = []
  /\ outcome r <> Pending
  /\ (outcome r = Return tt ->
      settled (events r) = [p] /\ applied (events r) = [p]
      /\ failures (events r) = []).
Proof.
  cbv zeta. unfold testGatewayListUpdate, catch, bind, fetch_url.
  destruct (global_fetch P _ w) as [[msg|res] w']; cbn;
    [repeat split; discriminate|].
  destruct (ok res) eqn:Ok; cbn; [|repeat split; discriminate].
  destruct (body res) as [text| |json] eqn:Bd; cbn;
    [repeat split; discriminate|repeat split; discriminate|].
  destruct (success json) eqn:Sc; cbn; [|repeat split; discriminate].
  split; [reflexivity|]. split; [discriminate|]. intros _.
  unfold settled, applied, failures, failed. cbn. rewrite Ok, Bd, Sc. cbn.
  assert (St : (status res =? 429)%Z = false).
  { unfold ok in Ok. apply andb_true_iff in Ok as [_ Ok].
    apply Z.leb_le in Ok. apply Z.eqb_neq. lia. }
  auto.
Qed.

Lemma insert_batches_trace (table : string) (todo : list (list string)) :
  forall w : W,
    let r := insert_batches P table todo w in
    requests (events r) = [] /\ outcome r <> Pending
    /\ Forall (table_ok table) (db_calls (events r)).
Proof.
  induction todo as [|b todo IH]; intros w; cbn.
  - repeat split; [discriminate | constructor].
  - unfold bind, query.
    destruct (d1 P (InsertSynced table b) w) as [[msg|reply] w1]; cbn.
    + repeat split; [discriminate|]. repeat constructor. intros t. discriminate.
    + specialize (IH w1). cbv zeta in IH.
      destruct (insert_batches P table todo w1) as [o w2 e2]. cbn in *.
      destruct IH as (R & N & T).
      split; [assumption|]. split; [destruct o; congruence|].
      constructor; [intros t; discriminate | assumption].
Qed.

Lemma updateSynced_trace (table : string) (prefixes : list string) (w : W) :
  let r := updateSyncedPrefixes P table prefixes w in
  requests (events r) = [] /\ outcome r <> Pending
  /\ Forall (table_ok table) (db_calls (events r)).
Proof.
  cbv zeta. unfold updateSyncedPrefixes, catch, bind, query.
  destruct (d1 P (DeleteSynced table) w) as [[msg|reply] w1]; cbn.
  - repeat split; [discriminate|]. repeat constructor. intros t. discriminate.
  - destruct (length prefixes =? 0); cbn.
    + repeat split; [discriminate|]. repeat constructor. intros t. discriminate.
    + pose proof (insert_batches_trace table (batches 100 prefixes) w1) as H.
      cbv zeta in H.
      destruct (insert_batches P table (batches 100 prefixes) w1) as [o w2 e2].
      cbn in *. destruct H as (R & N & T).
      destruct o; cbn; rewrite ?requests_app, ?db_calls_app; cbn;
        (split; [try rewrite app_nil_r; assumption|]);
        (split; [try discriminate; try congruence|]);
        try (constructor; [intros t; discriminate|]);
        try (apply Forall_app; split; [assumption | constructor]);
        try assumption.
Qed.

Lemma recordSyncTime_trace (asn : string) (w : W) :
  let r := recordSyncTime P asn w in
  requests (events r) = [] /\ outcome r <> Pending
  /\ Forall (table_ok asn) (db_calls (events r)).
Proof.
  cbv zeta. unfold recordSyncTime, catch, bind, query, toISOString_now. cbn.
  destruct (d1 P (UpsertSyncState asn (now P w)) w) as [[msg|reply] w1]; cbn;
    (repeat split; [discriminate|]; repeat constructor; intros t; discriminate).
Qed.

End Stages.
End StageFacts.

(* ===================================================================== *)
(** * The shape of a sync *)
(* ===================================================================== *)

Module SyncFacts.
Import RunFacts UpdateFacts StageFacts.

Ltac use_nil :=
  repeat match goal with
         | H : _ = [] |- _ => rewrite H
         end.

Ltac split_trace :=
  rewrite ?writes_app, ?failures_app, ?patches_app, ?db_calls_app,
    ?settled_app, ?applied_app, ?requests_app.

Ltac quiet := split_trace; use_nil; cbn; auto.

Ltac tables :=
  split_trace; use_nil; cbn [app db_calls flat_map]; rewrite ?app_nil_r;
  repeat first [ assumption
               | apply Forall_nil
               | apply Forall_cons;
                 [let H := fresh in intros ? H; cbn in H; discriminate|]
               | apply Forall_app; split ].

Ltac next_stage Er Er' r' :=
  match type of Er with
  | _ = {| outcome := outcome ?x; world := _; events := _ |} =>
      remember x as r' eqn:Er' in Er
  end.

Section Sync.
Context {W : Type}.
Variable P : Platform W.

(** An ASN that fails the pattern is turned away at once. *)
Lemma syncASN_invalid (fuel : nat) (env : Env) (asn : string) (w : W) :
  isValidASN asn = false ->
  syncASN P fuel env asn w
  = {| outcome := Throw InvalidASNFormat; world := w; events := [] |}.
Proof. intros V. unfold syncASN. rewrite V. reflexivity. Qed.

(** A sync either ends without a local-state write, or it has gone
    through the batched updater and the connectivity test with every
    request of the plan applied, and writes afterwards. *)
Lemma syncASN_shape (fuel : nat) (env : Env) (asn : string) (w : W) :
  let r := syncASN P fuel env asn w in
  Forall (table_ok asn) (db_calls (events r))
  /\ ((writes (events r) = []
       /\ (forall u, outcome r <> Return u)
       /\ (outcome r = Pending -> failures (events r) = []))
      \/ exists desired existing pre mid post w1,
           let w0 := world (query P (SelectLastRun asn) w) in
           let A := toAdd (validDesired desired) existing in
           let R := toRemove (validDesired desired) existing in
           (isValidASN asn = true /\ DB env = true /\ configured env = true
            /\ validDesired desired <> [])
           /\ outcome (fetchDesiredPrefixes P asn w0) = Return desired
           /\ w1 = world (fetchDesiredPrefixes P asn w0)
           /\ outcome (fetchCurrentGatewayList P env w1) = Return existing
           /\ events r = pre ++ mid ++ post
           /\ patches pre = [] /\ writes pre = []
           /\ db_calls mid = []
           /\ settled mid = plan 50 A R ++ probe A
           /\ applied mid = plan 50 A R ++ probe A
           /\ failures mid = []
           /\ patches post = []
           /\ outcome r <> Pending).
Proof.
  cbv zeta. remember (syncASN P fuel env asn w) as r eqn:Er.
  unfold syncASN in Er.
  assert (Early : forall e,
            r = {| outcome := Throw e; world := w; events := [] |} ->
            Forall (table_ok asn) (db_calls (events r))
            /\ (writes (events r) = []
                /\ (forall u, outcome r <> Return u)
                /\ (outcome r = Pending -> failures (events r) = []))).
  { intros e ->. cbn. split; [constructor|]. repeat split; discriminate. }
  assert (Hc : configured env
               = negb (negb (truthy (ACCOUNT_ID env))
                       || negb (truthy (LIST_ID env))
                       || negb (truthy (API_EMAIL env))
                       || negb (truthy (API_KEY env)))).
  { unfold configured.
    destruct (truthy (ACCOUNT_ID env)), (truthy (LIST_ID env)),
      (truthy (API_EMAIL env)), (truthy (API_KEY env)); reflexivity. }
  rewrite Hc. clear Hc.
  destruct (isValidASN asn) eqn:V; cbn [negb] in Er;
    [|destruct (Early _ Er); auto].
  destruct (DB env); cbn [negb] in Er; [|destruct (Early _ Er); auto].
  match type of Er with
  | context [if ?c then throw MissingCredentials else _] => destruct c
  end; [destruct (Early _ Er); auto|]. clear Early.
  (* the last-run query *)
  unfold bind at 1 in Er. rewrite query_run in *.
  cbn [outcome world events] in *.
  destruct (d1 P (SelectLastRun asn) w) as [[msg|lastRun] w0];
    cbn [fst snd] in *.
  { subst r. cbn. split; [repeat constructor; intros ? ?; discriminate|].
    left. repeat split; discriminate. }
  next_stage Er Er1 r1.
  (* the desired prefixes *)
  unfold bind at 1 in Er1.
  pose proof (fetchDesired_trace P asn w0) as H1. cbv zeta in H1.
  destruct (fetchDesiredPrefixes P asn w0) as [o1 w1 e1].
  cbn [outcome world events] in *.
  destruct H1 as (R1 & W1 & T1 & N1 & Ne1).
  pose proof (no_requests _ R1) as P1.
  destruct (no_patches _ P1) as (_ & _ & F1).
  destruct o1 as [desired|e|]; [| | congruence].
  2:{ subst. cbn [outcome world events]. split; [tables|].
      left. repeat split; try discriminate. quiet. }
  next_stage Er1 Er2 r2.
  (* the current list *)
  unfold bind at 1 in Er2.
  pose proof (fetchCurrent_trace P env w1) as H2. cbv zeta in H2.
  destruct (fetchCurrentGatewayList P env w1) as [o2 w2 e2] eqn:E2.
  cbn [outcome world events] in *.
  destruct H2 as (D2 & P2 & N2).
  pose proof (no_db_calls _ D2) as W2.
  destruct (no_patches _ P2) as (_ & _ & F2).
  destruct o2 as [existing|e|]; [| | congruence].
  2:{ subst. cbn [outcome world events]. split; [tables|].
      left. repeat split; try discriminate. quiet. }
  next_stage Er2 Er3 r3.
  (* the warning about skipped prefixes *)
  unfold bind at 1 in Er3.
  match type of Er3 with
  | context [outcome (?m w2)] => set (warn := m) in *
  end.
  assert (Hw : exists ew, warn w2 = {| outcome := Return tt; world := w2;
                                       events := ew |}
                          /\ db_calls ew = [] /\ patches ew = []).
  { subst warn.
    destruct (negb (length (validDesired desired) =? length desired));
      eexists; split; try reflexivity; auto. }
  destruct Hw as (ew & Ew & Dw & Pw). rewrite Ew in Er3. clear Ew warn.
  cbn [outcome world events] in Er3.
  pose proof (no_db_calls _ Dw) as Ww.
  destruct (no_patches _ Pw) as (_ & _ & Fw).
  next_stage Er3 Er4 r4.
  match type of Er4 with
  | context [if ?c then throw NoValidPrefixes else _] => destruct c eqn:NV
  end.
  { subst. cbn [throw outcome world events]. split; [tables|].
    left. repeat split; try discriminate. quiet. }
  assert (Nvd : validDesired desired <> []).
  { intros E. rewrite E in NV. cbn in NV.
    destruct desired; [now apply (Ne1 [])| discriminate]. }
  clear NV Ne1.
  (* the batched update *)
  unfold bind at 1 in Er4.
  set (A := toAdd (validDesired desired) existing) in *.
  set (R := toRemove (validDesired desired) existing) in *.
  pose proof (batched_trace P fuel env A R w2 (batchSize := 50)
                ltac:(lia)) as H3.
  cbv zeta in H3.
  destruct (updateGatewayListBatched P fuel env A R 50 w2) as [o3 w3 e3].
  cbn [outcome world events] in *.
  destruct H3 as (D3 & _ & _ & Pn3 & Rt3).
  pose proof (no_db_calls _ D3) as W3.
  destruct o3 as [[]|e|].
  2:{ subst r4 r3 r2 r1 r. cbn [outcome world events]. split; [tables|].
      left. repeat split; try discriminate. quiet. }
  2:{ subst r4 r3 r2 r1 r. cbn [outcome world events]. split; [tables|].
      left. repeat split; try discriminate.
      - quiet.
      - intros _. split_trace. rewrite (Pn3 eq_refl). quiet. }
  destruct (Rt3 eq_refl) as (S3 & A3 & F3).
  next_stage Er4 Er5 r5.
  (* the connectivity test *)
  unfold bind at 1 in Er5.
  match type of Er5 with
  | context [outcome (?m w3)] => set (test := m) in *
  end.
  assert (H4 : db_calls (events (test w3)) = []
               /\ outcome (test w3) <> Pending
               /\ (outcome (test w3) = Return tt ->
                   settled (events (test w3)) = probe A
                   /\ applied (events (test w3)) = probe A
                   /\ failures (events (test w3)) = [])).
  { subst test. destruct A as [|first rest].
    - cbn. repeat split; discriminate.
    - apply probe_trace. }
  destruct (test w3) as [o4 w4 e4]. cbn [outcome world events] in *.
  clear test.
  destruct H4 as (D4 & N4 & Rt4).
  pose proof (no_db_calls _ D4) as W4.
  destruct o4 as [[]|e|]; [| | congruence].
  2:{ subst r5 r4 r3 r2 r1 r. cbn [outcome world events]. split; [tables|].
      left. repeat split; try discriminate. quiet. }
  destruct (Rt4 eq_refl) as (S4 & A4 & F4).
  next_stage Er5 Er6 r6.
  (* the local state *)
  unfold bind at 1 in Er6.
  pose proof (updateSynced_trace P asn (validDesired desired) w4) as H5.
  cbv zeta in H5.
  destruct (updateSyncedPrefixes P asn (validDesired desired) w4)
    as [o5 w5 e5].
  cbn [outcome world events] in *.
  destruct H5 as (R5 & N5 & T5).
  pose proof (no_requests _ R5) as P5.
  pose proof (recordSyncTime_trace P asn w5) as H6. cbv zeta in H6.
  destruct o5 as [[]|e|]; [| | congruence].
  - destruct (recordSyncTime P asn w5) as [o6 w6 e6].
    cbn [outcome world events] in *. destruct H6 as (R6 & N6 & T6).
    pose proof (no_requests _ R6) as P6.
    subst r6 r5 r4 r3 r2 r1 r. cbn [outcome world events].
    split; [tables|]. right.
    exists desired, existing, ([Db (SelectLastRun asn)] ++ e1 ++ e2 ++ ew),
      (e3 ++ e4), (e5 ++ e6), w1.
    split; [auto|].
    repeat split; try assumption; try reflexivity.
    + now rewrite E2.
    + now rewrite <- !app_assoc.
    + quiet.
    + quiet.
    + quiet.
    + split_trace. now rewrite S3, S4.
    + split_trace. now rewrite A3, A4.
    + quiet.
    + quiet.
  - subst r6 r5 r4 r3 r2 r1 r. cbn [outcome world events].
    split; [tables|]. right.
    exists desired, existing, ([Db (SelectLastRun asn)] ++ e1 ++ e2 ++ ew),
      (e3 ++ e4), e5, w1.
    split; [auto|].
    repeat split; try assumption; try reflexivity; try discriminate.
    + now rewrite E2.
    + now rewrite <- !app_assoc.
    + quiet.
    + quiet.
    + quiet.
    + split_trace. now rewrite S3, S4.
    + split_trace. now rewrite A3, A4.
    + quiet.
Qed.

End Sync.
End SyncFacts.

(* ===================================================================== *)
(** * Runs on the scripted platform *)
(* ===================================================================== *)

Module ScriptedFacts.
Import RunFacts UpdateFacts.

Lemma status_429_rate_limited (res : Response) :
  status res = 429%Z -> rate_limited (inr res) = true.
Proof. unfold rate_limited, ok. intros ->. reflexivity. Qed.

(** Any number of 429 replies is waited out, one second each, with the
    same request made again, until a reply that is not a 429. *)
Lemma retry_chain (env : Env) (p : Payload) (label : BatchLabel) :
  one_sided p = true ->
  forall (limited : list Response) (last : string + Response)
         (rest : list (string + Response)) (active : list string) (fuel : nat),
    Forall (fun res => status res = 429%Z) limited ->
    rate_limited last = false ->
    length limited < fuel ->
    let w := {| Scripted.replies := map inr limited ++ last :: rest;
                Scripted.active_prefixes := active |} in
    let r := updateGatewayListSingle Scripted.platform fuel env p label w in
    outcome r = (if accepted last then Return (reply_result last)
                 else Throw (update_error last))
    /\ Scripted.replies (world r) = rest
    /\ sleeps (events r) = repeat 1000%Z (length limited)
    /\ requests (events r) = repeat (patch_request env p) (S (length limited))
    /\ applied (events r) = (if accepted last then [p] else []).
Proof.
  intros Hp. induction limited as [|res limited IH];
    intros last rest active fuel F NL L; cbv zeta.
  - destruct fuel as [|fuel]; [simpl in L; lia|].
    rewrite single_step by assumption. unfold bind. rewrite attempt_run.
    cbn [outcome world events map app Scripted.platform global_fetch
         Scripted.network Scripted.replies fst snd length repeat].
    unfold attempt_outcome. rewrite NL.
    destruct (accepted last) eqn:Ac; cbn; unfold applied; cbn;
      rewrite Ac; auto.
  - destruct fuel as [|fuel]; [simpl in L; lia|].
    inversion F as [|? ? St F']; subst.
    rewrite single_step by assumption. unfold bind. rewrite attempt_run.
    cbn [outcome world events map app Scripted.platform global_fetch
         Scripted.network Scripted.replies Scripted.active_prefixes
         fst snd length].
    unfold attempt_outcome. rewrite (status_429_rate_limited _ St).
    cbn [fst snd outcome world events].
    specialize (IH last rest active fuel F' NL ltac:(simpl in L; lia)).
    cbv zeta in IH.
    destruct (updateGatewayListSingle Scripted.platform fuel env p label _)
      as [o w2 evs].
    cbn [outcome world events] in *.
    destruct IH as (O & Wd & Sl & Rq & Ap).
    split; [assumption|]. split; [assumption|].
    change (Http (patch_request env p) (inr res)
              :: [ConsoleWarn (RateLimitHit label); Sleep 1000] ++ evs)
      with ([Http (patch_request env p) (inr res);
             ConsoleWarn (RateLimitHit label); Sleep 1000] ++ evs).
    rewrite sleeps_app, requests_app, applied_app, Sl, Rq, Ap.
    split; [reflexivity|]. split; [reflexivity|].
    pose proof (rate_limited_not_accepted _ (status_429_rate_limited _ St))
      as NA.
    unfold applied. cbn. cbn in NA. rewrite NA. reflexivity.
Qed.

End ScriptedFacts.

(* ===================================================================== *)
(** * Where the first write of a trace lies *)
(* ===================================================================== *)

Module TraceFacts.
Import RunFacts.

Lemma writes_Db_cons (c : DbCall) (evs : list Event) :
  is_write c = true -> writes (Db c :: evs) = c :: writes evs.
Proof. intros H. unfold writes. cbn. now rewrite H. Qed.

(** A write of a trace is not in a part that has no write. *)
Lemma write_after (quiet : list Event) :
  forall (rest pre post : list Event) (c : DbCall),
    quiet ++ rest = pre ++ Db c :: post ->
    is_write c = true ->
    writes quiet = [] ->
    exists mid, pre = quiet ++ mid /\ rest = mid ++ Db c :: post.
Proof.
  induction quiet as [|ev quiet IH]; intros rest pre post c E Hc Q.
  - exists pre. auto.
  - destruct pre as [|ev' pre]; cbn in E.
    + injection E as -> _. rewrite writes_Db_cons in Q by assumption.
      discriminate.
    + injection E as <- E.
      assert (Q' : writes quiet = []).
      { change (ev :: quiet) with ([ev] ++ quiet) in Q.
        rewrite writes_app in Q. now apply app_eq_nil in Q. }
      destruct (IH _ _ _ _ E Hc Q') as (mid & -> & ->).
      exists mid. auto.
Qed.

Lemma writes_nil_no_write (evs pre post : list Event) (c : DbCall) :
  writes evs = [] -> evs = pre ++ Db c :: post -> is_write c = true -> False.
Proof.
  intros Q -> Hc. rewrite writes_app, writes_Db_cons in Q by assumption.
  apply app_eq_nil in Q as [_ Q]. discriminate.
Qed.

End TraceFacts.

(* ===================================================================== *)
(** * Runs on the faithful platform *)
(* ===================================================================== *)

Module FaithfulFacts.
Import RunFacts UpdateFacts JSSetFacts DiffFacts.

Lemma replay_app (ps qs : list Payload) (l : list string) :
  replay (ps ++ qs) l = replay qs (replay ps l).
Proof. apply fold_left_app. Qed.

(** ** The invariant [tracks] goes through the monad *)

Lemma tracks_ret {A : Type} (a : A) : tracks (ret a).
Proof. intros w. cbn. auto. Qed.

Lemma tracks_throw {A : Type} (e : Error) : tracks (throw (A := A) e).
Proof. intros w. cbn. auto. Qed.

Lemma tracks_pending {A : Type} : tracks (pending (A := A)).
Proof. intros w. cbn. auto. Qed.

Lemma tracks_emit (ev : Event) :
  (forall req reply, ev <> Http req reply) -> tracks (emit ev).
Proof.
  intros N w. cbn. destruct ev; cbn; auto. now destruct (N req res).
Qed.

Lemma tracks_bind {A B : Type} (m : Run Faithful.World A)
    (f : A -> Run Faithful.World B) :
  tracks m -> (forall a, tracks (f a)) -> tracks (bind m f).
Proof.
  intros Hm Hf w. unfold bind. destruct (Hm w) as (T1 & G1 & A1).
  destruct (m w) as [[a|e|] w1 e1]; cbn [outcome world events] in *; auto.
  destruct (Hf a w1) as (T2 & G2 & A2).
  rewrite patches_app, map_app, replay_app, <- G1, T2, G2.
  repeat split; auto. apply Forall_app. auto.
Qed.

Lemma tracks_catch {A : Type} (m : Run Faithful.World A)
    (h : Error -> Run Faithful.World A) :
  tracks m -> (forall e, tracks (h e)) -> tracks (catch m h).
Proof.
  intros Hm Hh w. unfold catch. destruct (Hm w) as (T1 & G1 & A1).
  destruct (m w) as [[a|e|] w1 e1]; cbn [outcome world events] in *; auto.
  destruct (Hh e w1) as (T2 & G2 & A2).
  rewrite patches_app, map_app, replay_app, <- G1, T2, G2.
  repeat split; auto. apply Forall_app. auto.
Qed.

Lemma tracks_query (c : DbCall) : tracks (query Faithful.platform c).
Proof.
  intros w. unfold query. cbn [d1 Faithful.platform].
  destruct c; cbn;
    repeat match goal with
           | |- context [Faithful.find_table ?t ?w] =>
               destruct (Faithful.find_table t w); cbn
           | |- context [Faithful.insert_all ?a ?p ?t] =>
               destruct (Faithful.insert_all a p t); cbn
           end; auto.
Qed.

Lemma accepted_answer (l : list string) : accepted (inr (Faithful.answer l)) = true.
Proof. reflexivity. Qed.

Lemma faithful_accepts_all : accepts_all Faithful.platform.
Proof.
  intros req w. cbn [global_fetch Faithful.platform]. unfold Faithful.network.
  destruct (method req); reflexivity.
Qed.

Lemma tracks_fetch_url (req : Request) :
  tracks (fetch_url Faithful.platform req).
Proof.
  intros w. unfold fetch_url. cbn [global_fetch Faithful.platform].
  unfold Faithful.network. destruct req as [u [|] h [p|]]; cbn; auto.
Qed.

Ltac tracking :=
  repeat first
    [ apply tracks_ret | apply tracks_throw | apply tracks_pending
    | apply tracks_query | apply tracks_fetch_url
    | apply tracks_emit; discriminate
    | apply tracks_bind; [|intros]
    | apply tracks_catch; [|intros]
    | match goal with
      | |- tracks (if ?c then _ else _) => destruct c
      | |- tracks (match ?x with _ => _ end) => destruct x
      end ].

Lemma tracks_single (env : Env) (p : Payload) (label : BatchLabel) :
  forall fuel, tracks (updateGatewayListSingle Faithful.platform fuel env p label).
Proof.
  induction fuel as [|fuel IH]; cbn [updateGatewayListSingle].
  - destruct (append p), (remove p); tracking.
  - destruct (append p), (remove p);
      unfold attempt, console_warn, console_error, sleep; tracking;
      exact IH.
Qed.

Lemma tracks_process (fuel : nat) (env : Env) (make : list string -> Payload)
    (k : BatchKind) (count : nat) (todo : list (list string)) :
  forall i, tracks (process_batches Faithful.platform fuel env make k count i todo).
Proof.
  induction todo as [|b todo IH]; intros i; cbn [process_batches]; tracking.
  - apply tracks_single.
  - apply IH.
Qed.

Lemma tracks_insert (table : string) (todo : list (list string)) :
  tracks (insert_batches Faithful.platform table todo).
Proof.
  induction todo as [|b todo IH]; cbn [insert_batches]; tracking. exact IH.
Qed.

Lemma tracks_syncASN (fuel : nat) (env : Env) (asn : string) :
  tracks (syncASN Faithful.platform fuel env asn).
Proof.
  unfold syncASN, fetchDesiredPrefixes, fetchCurrentGatewayList,
    updateGatewayListBatched, testGatewayListUpdate, updateSyncedPrefixes,
    recordSyncTime, console_warn, console_error.
  tracking; try apply tracks_process; try apply tracks_insert.
  intros w. cbn. auto.
Qed.

(** ** Membership in the replayed list *)

Lemma mem_In (x : string) (l : list string) : Faithful.mem x l = true <-> In x l.
Proof. apply has_In. Qed.

Lemma In_apply_append (vs : list string) :
  forall (l : list string) (x : string),
    In x (Faithful.apply_append l vs) <-> In x l \/ In x vs.
Proof.
  induction vs as [|v vs IH]; intros l x; cbn.
  - tauto.
  - rewrite IH. destruct (Faithful.mem v l) eqn:M.
    + apply mem_In in M. split; [tauto|]. intros [H|[<-|H]]; auto.
    + rewrite in_app_iff. cbn. tauto.
Qed.

Lemma In_apply_remove (l vs : list string) (x : string) :
  In x (Faithful.apply_remove l vs) <-> In x l /\ ~ In x vs.
Proof.
  unfold Faithful.apply_remove. rewrite filter_In, negb_true_iff.
  pose proof (mem_In x vs) as M.
  destruct (Faithful.mem x vs); intuition congruence.
Qed.

Lemma values_of_items (l : list string) : map value (map Build_Item l) = l.
Proof. rewrite map_map. cbn. apply map_id. Qed.

Lemma item_values_items (its : list Item) :
  item_values (map Some its) = Some (map value its).
Proof.
  induction its as [|it its IH]; [reflexivity|].
  cbn [map item_values]. now rewrite IH.
Qed.

Lemma item_values_listed (l : list string) :
  item_values (map (fun v => Some (Build_Item v)) l) = Some l.
Proof.
  induction l as [|v l IH]; [reflexivity|].
  cbn [map item_values]. now rewrite IH.
Qed.

Lemma In_apply_patch (p : Payload) (l : list string) (x : string) :
  In x (Faithful.apply_patch p l)
  <-> (In x l \/ In x (Faithful.field (append p)))
      /\ ~ In x (Faithful.field (remove p)).
Proof.
  unfold Faithful.apply_patch. now rewrite In_apply_remove, In_apply_append.
Qed.

Lemma replay_cons (p : Payload) (ps : list Payload) (l : list string) :
  replay (p :: ps) l = replay ps (Faithful.apply_patch p l).
Proof. reflexivity. Qed.

Lemma In_apply_append_payload (b l : list string) (x : string) :
  In x (Faithful.apply_patch (append_payload b) l) <-> In x l \/ In x b.
Proof.
  rewrite In_apply_patch. unfold append_payload. cbn [append remove Faithful.field].
  rewrite values_of_items. cbn. tauto.
Qed.

Lemma In_apply_remove_payload (b l : list string) (x : string) :
  In x (Faithful.apply_patch (remove_payload b) l) <-> In x l /\ ~ In x b.
Proof.
  rewrite In_apply_patch. unfold remove_payload. cbn [append remove Faithful.field].
  rewrite values_of_items. cbn. tauto.
Qed.

Lemma In_replay_appends (bs : list (list string)) :
  forall (l : list string) (x : string),
    In x (replay (map append_payload bs) l) <-> In x l \/ In x (concat bs).
Proof.
  induction bs as [|b bs IH]; intros l x; cbn [map concat].
  - cbn. tauto.
  - rewrite replay_cons, IH, In_apply_append_payload, in_app_iff. tauto.
Qed.

Lemma In_replay_removes (bs : list (list string)) :
  forall (l : list string) (x : string),
    In x (replay (map remove_payload bs) l) <-> In x l /\ ~ In x (concat bs).
Proof.
  induction bs as [|b bs IH]; intros l x; cbn [map concat].
  - cbn. tauto.
  - rewrite replay_cons, IH, In_apply_remove_payload, in_app_iff. tauto.
Qed.

Lemma In_replay_probe (A l : list string) (x : string) :
  In x (replay (probe A) l) <-> In x l \/ exists rest, A = x :: rest.
Proof.
  destruct A as [|first rest]; cbn [probe].
  - cbn. split; [auto | intros [H | [rest E]]; [assumption | discriminate]].
  - rewrite replay_cons.
    change {| append := Some [ {| value := first |} ]; remove := None |}
      with (append_payload [first]).
    cbn [replay fold_left]. rewrite In_apply_append_payload. cbn [In]. split.
    + intros [H | [<- | []]]; eauto.
    + intros [H | [rest' E]]; [tauto|]. injection E as -> _. tauto.
Qed.

(** After the plan of a diff and the connectivity test, the list holds
    the desired prefixes and nothing else. *)
Lemma In_replay_plan (D G : list string) (x : string) :
  In x (replay (plan 50 (toAdd D G) (toRemove D G) ++ probe (toAdd D G)) G)
  <-> In x D.
Proof.
  rewrite replay_app, In_replay_probe. unfold plan.
  rewrite replay_app, In_replay_removes, In_replay_appends.
  rewrite !BatchFacts.concat_batches by lia.
  rewrite In_toAdd, In_toRemove. split.
  - intros [[[H | [H _]] N] | [rest E]].
    + destruct (in_dec string_dec x D); tauto.
    + assumption.
    + assert (H : In x (toAdd D G)) by (rewrite E; left; reflexivity).
      now apply In_toAdd in H.
  - intros H. left. destruct (in_dec string_dec x G); tauto.
Qed.

Lemma filter_none {A : Type} (f : A -> bool) (l : list A) :
  (forall x, In x l -> f x = false) -> filter f l = [].
Proof.
  induction l as [|x l IH]; intros H; cbn; [reflexivity|].
  rewrite (H x) by (left; reflexivity). apply IH. intros y Hy.
  apply H. now right.
Qed.

(** A list with the members of the desired list needs no change. *)
Lemma diff_of_equal (D G : list string) :
  (forall x, In x G <-> In x D) -> toAdd D G = [] /\ toRemove D G = [].
Proof.
  intros E. unfold toAdd, toRemove. split; apply filter_none; intros x H.
  - apply negb_false_iff, has_from. now apply E.
  - apply negb_false_iff, has_from. now apply E.
Qed.

Lemma applied_all (evs : list Event) :
  Forall (fun pr => accepted (snd pr) = true) (patches evs) ->
  applied evs = map fst (patches evs).
Proof.
  unfold applied. intros F. f_equal.
  induction F as [|pr l H F IH]; cbn; [reflexivity|].
  rewrite H. cbn. now rewrite IH.
Qed.

(** ** The loaders *)

Lemma faithful_last_run (asn : string) (w : Faithful.World) :
  world (query Faithful.platform (SelectLastRun asn) w) = w.
Proof. reflexivity. Qed.

Lemma faithful_desired (table : string) (w : Faithful.World) :
  world (fetchDesiredPrefixes Faithful.platform table w) = w
  /\ forall d,
       outcome (fetchDesiredPrefixes Faithful.platform table w) = Return d ->
       exists rows,
         Faithful.find_table table w = Some rows
         /\ d = Faithful.select_active rows.
Proof.
  unfold fetchDesiredPrefixes, catch, bind, query. cbn.
  destruct (Faithful.find_table table w) as [rows|] eqn:Ft; cbn.
  - destruct (Faithful.select_active rows) as [|row more] eqn:Sa; cbn.
    + repeat (rewrite Ft; cbn). split; [reflexivity | discriminate].
    + split; [reflexivity|]. intros d [= <-]. eauto.
  - split; [reflexivity | discriminate].
Qed.

Lemma faithful_desired_run (table : string) (w : Faithful.World)
    (rows : list (string * Z)) :
  Faithful.find_table table w = Some rows ->
  Faithful.select_active rows <> [] ->
  fetchDesiredPrefixes Faithful.platform table w
  = {| outcome := Return (Faithful.select_active rows); world := w;
       events := [Db (SelectActivePrefixes table)] |}.
Proof.
  intros Ft Ne. unfold fetchDesiredPrefixes, catch, bind, query. cbn.
  rewrite Ft. cbn.
  destruct (Faithful.select_active rows); [contradiction | reflexivity].
Qed.

Lemma faithful_current_run (env : Env) (w : Faithful.World) :
  fetchCurrentGatewayList Faithful.platform env w
  = {| outcome := Return (Faithful.gateway_list w); world := w;
       events := [Http (get_request env)
                    (inr (Faithful.answer (Faithful.gateway_list w)))] |}.
Proof.
  rewrite StageFacts.fetchCurrent_run. cbn. now rewrite item_values_listed.
Qed.

Lemma faithful_insert (table : string) (todo : list (list string)) :
  forall w, outcome (insert_batches Faithful.platform table todo w) = Return tt.
Proof.
  induction todo as [|b todo IH]; intros w; cbn; [reflexivity|].
  unfold bind, query. cbn.
  destruct (Faithful.insert_all table b (Faithful.synced_prefixes w)). cbn.
  apply IH.
Qed.

Lemma faithful_updateSynced (table : string) (prefixes : list string)
    (w : Faithful.World) :
  outcome (updateSyncedPrefixes Faithful.platform table prefixes w) = Return tt.
Proof.
  unfold updateSyncedPrefixes, catch, bind, query. cbn.
  destruct (length prefixes =? 0); cbn; [reflexivity|].
  match goal with
  | |- context [insert_batches ?P ?t ?b ?w] =>
      pose proof (faithful_insert t b w) as H;
      destruct (insert_batches P t b w) as [o w' e]
  end.
  cbn in *. now rewrite H.
Qed.

Lemma faithful_recordSyncTime (asn : string) (w : Faithful.World) :
  outcome (recordSyncTime Faithful.platform asn w) = Return tt.
Proof. reflexivity. Qed.

(** ** A sync that has nothing to change *)

Lemma faithful_quiet_run (fuel : nat) (env : Env) (asn : string)
    (w : Faithful.World) (rows : list (string * Z)) :
  isValidASN asn = true -> DB env = true -> configured env = true ->
  Faithful.find_table asn w = Some rows ->
  validDesired (Faithful.select_active rows) <> [] ->
  toAdd (validDesired (Faithful.select_active rows)) (Faithful.gateway_list w) = [] ->
  toRemove (validDesired (Faithful.select_active rows)) (Faithful.gateway_list w) = [] ->
  let r := syncASN Faithful.platform fuel env asn w in
  outcome r = Return tt /\ patches (events r) = []
  /\ requests (events r) = [get_request env].
Proof.
  intros V D C Ft Nvd HA HR. cbv zeta.
  assert (Ne : Faithful.select_active rows <> []).
  { intros E. rewrite E in Nvd. now apply Nvd. }
  unfold syncASN. rewrite V, D, (StageFacts.configured_passes _ C). cbn [negb].
  assert (E0 : query Faithful.platform (SelectLastRun asn) w
               = {| outcome := Return
                      (option_map snd
                         (find (fun row => String.eqb (fst row) asn)
                            (Faithful.sync_state w)));
                    world := w; events := [Db (SelectLastRun asn)] |})
    by reflexivity.
  rewrite (@bind_Return _ _ _ _ _ _ _ _ _ E0).
  rewrite (@bind_Return _ _ _ _ _ _ _ _ _ (faithful_desired_run asn w Ft Ne)).
  rewrite (@bind_Return _ _ _ _ _ _ _ _ _ (faithful_current_run env w)).
  set (vd := validDesired (Faithful.select_active rows)) in *.
  match goal with
  | |- context [bind ?m _ w] =>
      assert (Ew : exists ew, m w = {| outcome := Return tt; world := w;
                                       events := ew |}
                              /\ requests ew = [])
  end.
  { destruct (negb (length vd =? length (Faithful.select_active rows)));
      eexists; split; reflexivity. }
  destruct Ew as (ew & Ew & Rw). rewrite (@bind_Return _ _ _ _ _ _ _ _ _ Ew).
  assert (NV : (length vd =? 0) && (0 <? length (Faithful.select_active rows))
               = false).
  { destruct vd; [congruence | reflexivity]. }
  rewrite NV, HA, HR.
  assert (E3 : updateGatewayListBatched Faithful.platform fuel env [] [] 50 w
               = {| outcome := Return tt; world := w; events := [] |})
    by reflexivity.
  rewrite (@bind_Return _ _ _ _ _ _ _ _ _ E3).
  assert (E4 : ret (W := Faithful.World) tt w
               = {| outcome := Return tt; world := w; events := [] |})
    by reflexivity.
  rewrite (@bind_Return _ _ _ _ _ _ _ _ _ E4).
  pose proof (faithful_updateSynced asn vd w) as O5.
  pose proof (StageFacts.updateSynced_trace Faithful.platform asn vd w)
    as (R5 & _ & _).
  destruct (updateSyncedPrefixes Faithful.platform asn vd w) as [o5 w5 e5] eqn:E5.
  cbn [outcome events] in *. subst o5. rewrite (@bind_Return _ _ _ _ _ _ _ _ _ E5).
  pose proof (faithful_recordSyncTime asn w5) as O6.
  pose proof (StageFacts.recordSyncTime_trace Faithful.platform asn w5)
    as (R6 & _ & _).
  destruct (recordSyncTime Faithful.platform asn w5) as [o6 w6 e6].
  cbn [outcome world events] in *. subst o6.
  split; [reflexivity|].
  assert (Rq : requests ([Db (SelectLastRun asn)]
                 ++ [Db (SelectActivePrefixes asn)]
                 ++ [Http (get_request env)
                       (inr (Faithful.answer (Faithful.gateway_list w)))]
                 ++ ew ++ [] ++ [] ++ e5 ++ e6) = [get_request env]).
  { rewrite !requests_app, Rw, R5, R6. reflexivity. }
  split; [|exact Rq].
  rewrite !patches_app, (no_requests _ Rw), (no_requests _ R5),
    (no_requests _ R6). reflexivity.
Qed.

End FaithfulFacts.

(* ===================================================================== *)
(** * Projections of a sequence *)
(* ===================================================================== *)

Module MoreRunFacts.

Section Projections.
Context {W : Type}.

Lemma events_bind {A B : Type} (m : Run W A) (f : A -> Run W B) (w : W) :
  events (bind m f w)
  = events (m w) ++ match outcome (m w) with
                    | Return a => events (f a (world (m w)))
                    | _ => []
                    end.
Proof.
  unfold bind. destruct (m w) as [[a|e|] w1 e1]; cbn;
    now rewrite ?app_nil_r.
Qed.

Lemma outcome_bind {A B : Type} (m : Run W A) (f : A -> Run W B) (w : W) :
  outcome (bind m f w)
  = match outcome (m w) with
    | Return a => outcome (f a (world (m w)))
    | Throw e => Throw e
    | Pending => Pending
    end.
Proof. unfold bind. now destruct (m w) as [[a|e|] w1 e1]. Qed.

Lemma world_bind {A B : Type} (m : Run W A) (f : A -> Run W B) (w : W) :
  world (bind m f w)
  = match outcome (m w) with
    | Return a => world (f a (world (m w)))
    | _ => world (m w)
    end.
Proof. unfold bind. now destruct (m w) as [[a|e|] w1 e1]. Qed.

Lemma events_rethrow {A : Type} (m : Run W A) (wrap : Error -> Error) (w : W) :
  events (catch m (fun err => throw (wrap err)) w) = events (m w).
Proof.
  unfold catch. destruct (m w) as [[a|e|] w1 e1]; cbn;
    now rewrite ?app_nil_r.
Qed.

Lemma outcome_rethrow {A : Type} (m : Run W A) (wrap : Error -> Error) (w : W) :
  outcome (catch m (fun err => throw (wrap err)) w)
  = match outcome (m w) with
    | Throw e => Throw (wrap e)
    | o => o
    end.
Proof. unfold catch. now destruct (m w) as [[a|e|] w1 e1]. Qed.

Lemma world_rethrow {A : Type} (m : Run W A) (wrap : Error -> Error) (w : W) :
  world (catch m (fun err => throw (wrap err)) w) = world (m w).
Proof. unfold catch. now destruct (m w) as [[a|e|] w1 e1]. Qed.

End Projections.

End MoreRunFacts.

(* ===================================================================== *)
(** * The properties of the specification *)
(* ===================================================================== *)

Import RegexFacts ValidatorFacts JSSetFacts DiffFacts BatchFacts RunFacts
  UpdateFacts StageFacts SyncFacts ScriptedFacts TraceFacts FaithfulFacts
  MoreRunFacts.

(** ** Diff Engine *)

(** C1.  For deduplicated lists of strings [D] (desired) and [R]
    (remote), the diff stage of [syncASN] computes [toAdd] as the set
    difference [D \ R] and [toRemove] as [R \ D], membership being
    equality of strings; hence [toAdd] shares no member with [R] and
    [toRemove] none with [D]. *)
Theorem diff_is_set_difference (D R : list string) :
  NoDup D -> NoDup R ->
  (forall x, In x (toAdd D R) <-> In x D /\ ~ In x R)
  /\ (forall x, In x (toRemove D R) <-> In x R /\ ~ In x D)
  /\ NoDup (toAdd D R) /\ NoDup (toRemove D R)
  /\ (forall x, In x (toAdd D R) -> ~ In x R)
  /\ (forall x, In x (toRemove D R) -> ~ In x D).
Proof.
  intros ND NR. split; [apply In_toAdd|]. split; [apply In_toRemove|].
  split; [apply NoDup_filter; assumption|].
  split; [apply NoDup_filter; assumption|]. split.
  - intros x H. now apply In_toAdd in H.
  - intros x H. now apply In_toRemove in H.
Qed.

Lemma diff_is_set_difference_witness :
  let D := ["1.1.1.0/24"; "2.2.2.0/24"]%string in
  let R := ["2.2.2.0/24"; "3.3.3.0/24"]%string in
  (NoDup D /\ NoDup R)
  /\ toAdd D R = ["1.1.1.0/24"]%string
  /\ toRemove D R = ["3.3.3.0/24"]%string
  /\ (forall x, In x (toAdd D R) <-> In x D /\ ~ In x R).
Proof.
  assert (ND : NoDup ["1.1.1.0/24"; "2.2.2.0/24"]%string).
  { repeat constructor; simpl; intuition discriminate. }
  assert (NR : NoDup ["2.2.2.0/24"; "3.3.3.0/24"]%string).
  { repeat constructor; simpl; intuition discriminate. }
  cbv zeta. split; [split; assumption|].
  split; [reflexivity|]. split; [reflexivity|].
  exact (proj1 (diff_is_set_difference ND NR)).
Defined.

(** ** Batched Remote Updater *)

Lemma settled_all (evs : list Event) :
  Forall (fun pr => rate_limited (snd pr) = false) (patches evs) ->
  settled evs = map fst (patches evs).
Proof.
  unfold settled. intros F. f_equal.
  induction F as [|pr l H F IH]; simpl; [reflexivity|].
  rewrite H. simpl. now rewrite IH.
Qed.

Lemma carried_appends (bs : list (list string)) :
  map carried (map append_payload bs) = map (fun b => (Some b, None)) bs.
Proof.
  induction bs as [|b bs IH]; [reflexivity|].
  cbn [map]. rewrite IH. f_equal.
  unfold carried, append_payload. cbn. now rewrite values_of_items.
Qed.

Lemma carried_removes (bs : list (list string)) :
  map carried (map remove_payload bs) = map (fun b => (None, Some b)) bs.
Proof.
  induction bs as [|b bs IH]; [reflexivity|].
  cbn [map]. rewrite IH. f_equal.
  unfold carried, remove_payload. cbn. now rewrite values_of_items.
Qed.

Lemma carried_plan (batchSize : nat) (toAdd toRemove : list string) :
  map carried (plan batchSize toAdd toRemove) = chunks batchSize toAdd toRemove.
Proof.
  unfold plan, chunks. now rewrite map_app, carried_appends, carried_removes.
Qed.

Lemma resent_nil (unsettled : Prop) : resent [] unsettled.
Proof. intros [|x pre] p reply post E; discriminate E. Qed.

Lemma resent_app (l1 l2 : list (Payload * (string + Response)))
    (unsettled1 unsettled : Prop) :
  resent l1 unsettled1 ->
  (unsettled1 -> l2 = [] /\ unsettled) ->
  resent l2 unsettled ->
  resent (l1 ++ l2) unsettled.
Proof.
  intros R1 Stop R2 pre p reply post E RL.
  apply app_eq_app in E as [l [[E1 E2] | [E1 E2]]].
  - destruct l as [|x l].
    + rewrite app_nil_r in E1. subst l1. cbn in E2. symmetry in E2.
      now apply (R2 [] p reply post).
    + cbn in E2. injection E2 as <- ->.
      specialize (R1 pre p reply l E1 RL).
      destruct l as [|[q rq] l]; [|exact R1].
      destruct (Stop R1) as [-> U]. exact U.
  - subst pre. now apply (R2 l p reply post).
Qed.

Section Resent.
Context {W : Type}.
Variable P : Platform W.

Lemma resent_single (env : Env) (p : Payload) (label : BatchLabel) :
  one_sided p = true ->
  forall (fuel : nat) (w : W),
    resent (patches (events (updateGatewayListSingle P fuel env p label w)))
      (outcome (updateGatewayListSingle P fuel env p label w) = Pending).
Proof.
  intros Hp. induction fuel as [|fuel IH]; intros w.
  - rewrite single_zero by assumption. apply resent_nil.
  - pose proof (single_trace P env p label Hp fuel) as T.
    rewrite single_step by assumption. unfold bind. rewrite attempt_run.
    cbn [outcome world events]. unfold attempt_outcome.
    destruct (global_fetch P (patch_request env p) w) as [reply w'].
    cbn [fst snd].
    destruct (rate_limited reply) eqn:RL; [|destruct (accepted reply) eqn:Ac];
      cbn [fst snd outcome world events].
    + specialize (IH w'). specialize (T w'). cbv zeta in T.
      destruct (updateGatewayListSingle P fuel env p label w') as [o w2 evs].
      cbn [outcome world events] in *.
      destruct T as (_ & F & T).
      change (patches (Http (patch_request env p) reply
                         :: [ConsoleWarn (RateLimitHit label); Sleep 1000]
                            ++ evs))
        with ((p, reply) :: patches evs).
      intros [|x pre] q rq post E RL'.
      * cbn [app] in E. injection E as <- <- <-.
        destruct (patches evs) as [|[q rq'] l] eqn:Pe.
        -- destruct o as [a|e|]; [| |reflexivity];
             unfold settled in T; rewrite Pe in T; cbn in T;
             destruct T as [T _]; discriminate T.
        -- apply Forall_inv in F. exact F.
      * cbn [app] in E. injection E as _ E. now apply (IH pre q rq post).
    + intros [|x pre] q rq post E RL'.
      * cbn in E. injection E as <- <- <-. congruence.
      * cbn in E. destruct pre; discriminate E.
    + intros [|x pre] q rq post E RL'.
      * cbn in E. injection E as <- <- <-. congruence.
      * cbn in E. destruct pre; discriminate E.
Qed.

Lemma resent_process (fuel : nat) (env : Env) (make : list string -> Payload)
    (k : BatchKind) (count : nat) :
  (forall b, one_sided (make b) = true) ->
  forall (todo : list (list string)) (i : nat) (w : W),
    resent (patches (events (process_batches P fuel env make k count i todo w)))
      (outcome (process_batches P fuel env make k count i todo w) = Pending).
Proof.
  intros Hmake. induction todo as [|b todo IH]; intros i w.
  - apply resent_nil.
  - cbn [process_batches]. unfold bind.
    pose proof (@resent_single env (make b)
                  {| kind := k; number := i + 1; total := count |}
                  (Hmake b) fuel w) as R1.
    destruct (updateGatewayListSingle P fuel env (make b)
                {| kind := k; number := i + 1; total := count |} w)
      as [o w1 e1].
    cbn [outcome world events] in *.
    destruct o as [a|e|]; cbn [outcome world events].
    + rewrite patches_app. eapply resent_app; [exact R1| |apply IH].
      discriminate.
    + intros pre p reply post E RL. specialize (R1 pre p reply post E RL).
      destruct post as [|[q rq] post]; [discriminate R1 | exact R1].
    + intros pre p reply post E RL. specialize (R1 pre p reply post E RL).
      destruct post as [|[q rq] post]; [reflexivity | exact R1].
Qed.

Lemma resent_batched (fuel : nat) (env : Env) (toAdd toRemove : list string)
    (batchSize : nat) (w : W) :
  resent (patches (events (updateGatewayListBatched P fuel env toAdd toRemove
                             batchSize w)))
    (outcome (updateGatewayListBatched P fuel env toAdd toRemove batchSize w)
     = Pending).
Proof.
  unfold updateGatewayListBatched.
  destruct (loops_forever batchSize toAdd); [apply resent_nil|].
  destruct (loops_forever batchSize toRemove); [apply resent_nil|].
  unfold bind.
  pose proof (resent_process fuel env append_payload AppendBatch
                (length (batches batchSize toAdd)) one_sided_append
                (batches batchSize toAdd) 0 w) as R1.
  destruct (process_batches P fuel env append_payload AppendBatch
              (length (batches batchSize toAdd)) 0 (batches batchSize toAdd) w)
    as [o w1 e1].
  cbn [outcome world events] in *.
  destruct o as [a|e|]; cbn [outcome world events].
  - rewrite patches_app. eapply resent_app; [exact R1| |].
    + discriminate.
    + apply resent_process. apply one_sided_remove.
  - intros pre p reply post E RL. specialize (R1 pre p reply post E RL).
    destruct post as [|[q rq] post]; [discriminate R1 | exact R1].
  - intros pre p reply post E RL. specialize (R1 pre p reply post E RL).
    destruct post as [|[q rq] post]; [reflexivity | exact R1].
Qed.

End Resent.

(** Against C2 as stated: when the first reply is a 429 and the second a
    success, the one chunk of [toAdd] is sent in two PATCH requests, not
    in exactly one. *)
Lemma retried_chunk_sent_twice :
  let w := {| Scripted.replies := [inr too_many_requests; inr updated];
              Scripted.active_prefixes := [] |} in
  let toAdd := ["1.1.1.0/24"%string] in
  let r := updateGatewayListBatched Scripted.platform 2 example_env
             toAdd [] 50 w in
  let p := {| append := Some [ {| value := "1.1.1.0/24"%string |} ];
              remove := None |} in
  outcome r = Return tt
  /\ batches 50 toAdd = [["1.1.1.0/24"%string]]
  /\ requests (events r)
     = [patch_request example_env p; patch_request example_env p].
Proof. cbv zeta. repeat split; reflexivity. Qed.

(** C2 (amended).  With batch size 50, [updateGatewayListBatched] cuts
    [toAdd] and [toRemove] into consecutive chunks of 1 to 50 members
    that keep the order.  The requests that are not answered by a 429
    carry, in order, the first chunks of [toAdd] as an append alone and
    then those of [toRemove] as a remove alone, one request for each
    chunk, and all of them when the updater returns.  A request answered
    by a 429 is followed at once by a request with the same payload, so
    a chunk is sent once more for each 429; when no request is answered
    by a 429, in particular when the API accepts every request, exactly
    one PATCH is made for each chunk.  Every request sets one of
    [append] and [remove] only, and every append request is made before
    every remove request.  A [toAdd] of 120 members gives 3 append
    chunks of 50, 50 and 20 members. *)
Theorem batched_update_plan {W : Type} (P : Platform W) (fuel : nat)
    (env : Env) (toAdd toRemove : list string) (w : W) :
  let r := updateGatewayListBatched P fuel env toAdd toRemove 50 w in
  let sent := map fst (patches (events r)) in
  (concat (batches 50 toAdd) = toAdd
   /\ concat (batches 50 toRemove) = toRemove
   /\ Forall (fun b => 1 <= length b <= 50) (batches 50 toAdd)
   /\ Forall (fun b => 1 <= length b <= 50) (batches 50 toRemove))
  /\ (exists rest,
        chunks 50 toAdd toRemove = map carried (settled (events r)) ++ rest)
  /\ (outcome r = Return tt ->
      map carried (settled (events r)) = chunks 50 toAdd toRemove
      /\ map carried (applied (events r)) = chunks 50 toAdd toRemove)
  /\ resent (patches (events r)) (outcome r = Pending)
  /\ (Forall (fun pr => rate_limited (snd pr) = false) (patches (events r)) ->
      (exists rest, chunks 50 toAdd toRemove = map carried sent ++ rest)
      /\ (outcome r = Return tt ->
          map carried sent = chunks 50 toAdd toRemove))
  /\ (accepts_all P -> 0 < fuel ->
      outcome r = Return tt
      /\ map carried sent = chunks 50 toAdd toRemove)
  /\ (exists first second,
        sent = first ++ second
        /\ Forall (fun p => append p <> None /\ remove p = None) first
        /\ Forall (fun p => append p = None /\ remove p <> None) second)
  /\ (length toAdd = 120 ->
      map (@length string) (batches 50 toAdd) = [50; 50; 20]).
Proof.
  assert (Hb : 0 < 50) by lia.
  destruct (batched_trace P fuel env toAdd toRemove w Hb)
    as (_ & (rest & Hpre) & (first & second & Hev & Hf & Hs) & _ & Hret).
  cbv zeta. split.
  { split; [apply concat_batches; lia|]. split; [apply concat_batches; lia|].
    split; apply bounded_batches; lia. }
  split.
  { exists (map carried rest).
    now rewrite <- carried_plan, Hpre, map_app. }
  split.
  { intros E. destruct (Hret E) as (S & A & _).
    now rewrite S, A, carried_plan. }
  split; [apply resent_batched|].
  split.
  { intros F. rewrite <- (settled_all _ F). split.
    - exists (map carried rest). now rewrite <- carried_plan, Hpre, map_app.
    - intros E. destruct (Hret E) as (S & _). now rewrite S, carried_plan. }
  split.
  { intros Acc Hf'. destruct fuel as [|fuel]; [lia|].
    destruct (batched_accepting fuel env toAdd toRemove w Acc Hb) as (O & Pl).
    split; [assumption|]. now rewrite Pl, carried_plan. }
  split.
  { exists (map fst (patches first)), (map fst (patches second)).
    rewrite Hev, patches_app, map_app. split; [reflexivity|].
    split; apply Forall_forall; intros p Hp;
      apply in_map_iff in Hp as (pr & <- & Hpr).
    - apply (proj1 (Forall_forall _ _) Hf) in Hpr.
      apply in_map_iff in Hpr as (b & <- & _). split; [discriminate|reflexivity].
    - apply (proj1 (Forall_forall _ _) Hs) in Hpr.
      apply in_map_iff in Hpr as (b & <- & _). split; [reflexivity|discriminate]. }
  intros L. rewrite sizes_batches by lia. rewrite L. reflexivity.
Qed.

Lemma batched_update_plan_witness :
  let w := {| Scripted.replies :=
                repeat (inr (Faithful.answer [])) 3;
              Scripted.active_prefixes := [] |} in
  let toAdd := map (fun n => String (ascii_of_nat n) EmptyString) (seq 0 120) in
  let r := updateGatewayListBatched Scripted.platform 1 example_env
             toAdd [] 50 w in
  (outcome r = Return tt /\ length toAdd = 120)
  /\ map carried (map fst (patches (events r)))
     = [(Some (firstn 50 toAdd), None);
        (Some (firstn 50 (skipn 50 toAdd)), None);
        (Some (skipn 100 toAdd), None)].
Proof.
  cbv zeta. split; [split; vm_compute; reflexivity|].
  match goal with
  | |- context [events ?r] =>
      match r with
      | updateGatewayListBatched ?P ?f ?e ?a ?b 50 ?w =>
          pose proof (batched_update_plan P f e a b w) as H
      end
  end.
  cbv zeta in H. destruct H as (_ & _ & _ & _ & H & _).
  destruct H as (_ & H).
  - vm_compute. repeat constructor.
  - rewrite H; vm_compute; reflexivity.
Defined.

(** Against C3 as stated: on a 500 the call for batch 2/5 and the call
    for batch 3/5 throw the same error, built from the status and the
    response text alone, so the error names no batch.  The label is in
    the [console.error] line only. *)
Lemma update_error_has_no_label :
  let w := {| Scripted.replies := [inr server_error];
              Scripted.active_prefixes := [] |} in
  let p := append_payload ["1.1.1.0/24"%string] in
  let second := {| kind := AppendBatch; number := 2; total := 5 |} in
  let third := {| kind := AppendBatch; number := 3; total := 5 |} in
  let run label :=
    updateGatewayListSingle Scripted.platform 1 example_env p label w in
  outcome (run second)
  = Throw (ApiRequestFailed 500 (Garbage "Internal Server Error"%string))
  /\ outcome (run third) = outcome (run second)
  /\ events (run second)
     = [Http (patch_request example_env p) (inr server_error);
        ConsoleError (UpdateError second
          (ApiRequestFailed 500 (Garbage "Internal Server Error"%string)))].
Proof. cbv zeta. repeat split; reflexivity. Qed.

(** C3 (amended).  For a request of [updateGatewayListSingle]: on a 429
    it warns, waits one second and makes the call again with the same
    payload, any number of times; on an accepted reply it returns the
    result; on any other reply (another non-2xx status, a body that does
    not parse or parses to [null], a body whose [success] is false, no
    reply at all) it fails at once with the error built from the reply, which it throws
    again unchanged: the batch label is written to [console.error], not
    into the error.  A failed request makes the sync throw.  After [n]
    429 replies and a success the payload is applied once, after [n]
    pauses of one second. *)
Theorem single_request_outcomes {W : Type} (P : Platform W) (fuel : nat)
    (env : Env) (p : Payload) (label : BatchLabel) (w : W) :
  one_sided p = true ->
  let req := patch_request env p in
  let reply := fst (global_fetch P req w) in
  let w' := snd (global_fetch P req w) in
  let r := updateGatewayListSingle P (S fuel) env p label w in
  (rate_limited reply = true ->
   let r' := updateGatewayListSingle P fuel env p label w' in
   r = {| outcome := outcome r'; world := world r';
          events := [Http req reply; ConsoleWarn (RateLimitHit label);
                     Sleep 1000] ++ events r' |})
  /\ (accepted reply = true ->
      r = {| outcome := Return (reply_result reply); world := w';
             events := [Http req reply] |})
  /\ (failed reply = true ->
      r = {| outcome := Throw (update_error reply); world := w';
             events := [Http req reply;
                        ConsoleError (UpdateError label (update_error reply))] |})
  /\ (forall res, reply = inr res ->
      (rate_limited reply = true <-> status res = 429%Z)
      /\ (failed reply = true <->
          (ok res = false /\ status res <> 429%Z)
          \/ (ok res = true /\ exists text, body res = Garbage text)
          \/ (ok res = true /\ body res = JsonNull)
          \/ (ok res = true /\ exists json,
                body res = Json json /\ success json = false)))
  /\ (forall asn w0,
        failures (events (syncASN P fuel env asn w0)) <> [] ->
        exists e, outcome (syncASN P fuel env asn w0) = Throw e)
  /\ (forall (limited : list Response) (last : Response)
             (rest : list (string + Response)) (active : list string),
        Forall (fun res => status res = 429%Z) limited ->
        accepted (inr last) = true ->
        length limited <= fuel ->
        let ws := {| Scripted.replies := map inr limited ++ inr last :: rest;
                     Scripted.active_prefixes := active |} in
        let rs := updateGatewayListSingle Scripted.platform (S fuel) env p
                    label ws in
        outcome rs = Return (reply_result (inr last))
        /\ sleeps (events rs) = repeat 1000%Z (length limited)
        /\ requests (events rs) = repeat req (S (length limited))
        /\ applied (events rs) = [p]).
Proof.
  intros Hp. cbv zeta.
  rewrite single_step by assumption. unfold bind. rewrite attempt_run.
  cbn [outcome world events]. unfold attempt_outcome.
  destruct (global_fetch P (patch_request env p) w) as [reply w'].
  cbn [fst snd]. split; [|split; [|split; [|split; [|split]]]].
  - intros RL. rewrite RL. cbn [fst snd outcome world events].
    reflexivity.
  - intros Ac.
    assert (RL : rate_limited reply = false).
    { destruct (rate_limited reply) eqn:RL; [|reflexivity].
      apply rate_limited_not_accepted in RL. congruence. }
    rewrite RL, Ac. reflexivity.
  - unfold failed. intros Fl. apply andb_true_iff in Fl as [Ac RL].
    apply negb_true_iff in Ac, RL. rewrite RL, Ac. reflexivity.
  - intros res ->. unfold failed, rate_limited, accepted, ok. split.
    + destruct (Z.eqb_spec (status res) 429) as [->|N]; cbn.
      * split; auto.
      * rewrite andb_false_r. split; [discriminate | contradiction].
    + destruct ((200 <=? status res)%Z && (status res <=? 299)%Z) eqn:Ok; cbn.
      * destruct (body res) as [text| |json]; cbn.
        -- split; [intros _; right; left; eauto | reflexivity].
        -- split; [intros _; right; right; left; auto | reflexivity].
        -- destruct (success json) eqn:Sc; cbn.
           ++ split; [discriminate|].
              intros [[E _] | [(_ & text & E) | [[_ E] | (_ & j & E & Sj)]]];
                [discriminate | discriminate | discriminate | congruence].
           ++ split; [intros _; right; right; right; eauto | reflexivity].
      * destruct (Z.eqb_spec (status res) 429) as [E|N]; cbn.
        -- split; [discriminate|].
           intros [[_ N] | [[E' _] | [[E' _] | [E' _]]]];
             [contradiction | | | ]; discriminate.
        -- split; [auto | reflexivity].
  - intros asn w0 Fl.
    destruct (syncASN_shape P fuel env asn w0) as (_ & [(_ & NR & NP) | B]).
    + destruct (outcome (syncASN P fuel env asn w0)) as [[]|e|] eqn:O.
      * exfalso. now apply (NR tt).
      * eauto.
      * exfalso. apply Fl. now apply NP.
    + destruct B as (desired & existing & pre & mid & post & w1 & _ & _ & _
                     & _ & E & Ppre & _ & _ & _ & _ & Fmid & Ppost & _).
      exfalso. apply Fl. rewrite E, !failures_app, Fmid.
      destruct (no_patches _ Ppre) as (_ & _ & ->).
      destruct (no_patches _ Ppost) as (_ & _ & ->). reflexivity.
  - intros limited last rest active F Ac L.
    assert (NL : rate_limited (inr last) = false).
    { destruct (rate_limited (inr last)) eqn:RL; [|reflexivity].
      apply rate_limited_not_accepted in RL. congruence. }
    destruct (@retry_chain env p label Hp limited (inr last) rest active
                (S fuel) F NL ltac:(lia)) as (O & _ & Sl & Rq & Ap).
    rewrite Ac in O, Ap. auto.
Qed.

Lemma single_request_outcomes_witness :
  let p := append_payload ["1.1.1.0/24"%string] in
  let label := {| kind := AppendBatch; number := 1; total := 1 |} in
  let w := {| Scripted.replies := [inr too_many_requests; inr updated];
              Scripted.active_prefixes := [] |} in
  let r := updateGatewayListSingle Scripted.platform 2 example_env p label w in
  one_sided p = true
  /\ outcome r = Return None
  /\ sleeps (events r) = [1000%Z]
  /\ requests (events r) = [patch_request example_env p;
                            patch_request example_env p]
  /\ applied (events r) = [p].
Proof.
  cbv zeta. split; [reflexivity|].
  pose proof (single_request_outcomes Scripted.platform 1 example_env
                (append_payload ["1.1.1.0/24"%string])
                {| kind := AppendBatch; number := 1; total := 1 |}
                {| Scripted.replies := []; Scripted.active_prefixes := [] |}
                eq_refl) as H.
  cbv zeta in H. destruct H as (_ & _ & _ & _ & _ & H).
  apply (H [too_many_requests] updated [] []).
  - repeat constructor.
  - reflexivity.
  - simpl. lia.
Defined.

(** ** Remote-List Reader *)

(** Against C4 as stated: a 200 reply whose body parses with
    [success: false] does not make [fetchCurrentGatewayList] fail; it
    warns and returns the empty list. *)
Lemma success_false_reads_as_empty :
  let w := {| Scripted.replies := [inr refused];
              Scripted.active_prefixes := [] |} in
  let r := fetchCurrentGatewayList Scripted.platform example_env w in
  ok refused = true
  /\ body refused = Json {| success := false; result := None;
                            errors := Some ["list unavailable"%string] |}
  /\ outcome r = Return []
  /\ events r = [Http (get_request example_env) (inr refused);
                 ConsoleWarn NoItemsInResponse].
Proof. cbv zeta. repeat split; reflexivity. Qed.

Lemma item_values_None (elements : list (option Item)) :
  item_values elements = None <-> In None elements.
Proof.
  induction elements as [|[it|] elements IH]; cbn [item_values In].
  - split; [discriminate | contradiction].
  - destruct (item_values elements); cbn [option_map].
    + split; [discriminate|]. intros [E|H]; [discriminate|].
      now apply IH in H.
    + split; [intros _; right; now apply IH | reflexivity].
  - split; auto.
Qed.

(** C4 (amended).  [fetchCurrentGatewayList] fails, with an error of the
    remote API class wrapped in "Failed to fetch Gateway list", if and
    only if the GET gets no response, a response that is not 2xx, a body
    that does not parse, a body that parses to [null], or, [success] and
    [result] being truthy, an [items] that is truthy but not an array or
    an array with a [null] element (the last three are the [TypeError]s
    of lines 159 and 164, caught and wrapped like the others).  When the
    body parses to a value that is not [null] and its [success] is
    false, or [result] or [items] is absent, it warns and returns the
    empty list; otherwise it returns the [value] field of every item, in
    order. *)
Theorem gateway_list_read {W : Type} (P : Platform W) (env : Env) (w : W) :
  let reply := fst (global_fetch P (get_request env) w) in
  let r := fetchCurrentGatewayList P env w in
  ((exists e, outcome r = Throw e) <->
   match reply with
   | inl _ => True
   | inr res =>
       ok res = false
       \/ (exists text, body res = Garbage text)
       \/ body res = JsonNull
       \/ (exists data found,
             body res = Json data /\ success data = true
             /\ result data = Some found
             /\ (items found = ItemsNotArray
                 \/ exists elements,
                      items found = ItemsArray elements /\ In None elements))
   end)
  /\ (forall e, outcome r = Throw e ->
      error_class e = RemoteAPIError
      /\ exists cause, e = FetchGatewayListFailed cause)
  /\ (forall res,
        reply = inr res -> ok res = true -> body res = JsonNull ->
        r = {| outcome := Throw (FetchGatewayListFailed
                                   (NullProperty "success"));
               world := snd (global_fetch P (get_request env) w);
               events := [Http (get_request env) reply] |})
  /\ (forall res data,
        reply = inr res -> ok res = true -> body res = Json data ->
        (success data = false -> outcome r = Return [])
        /\ (result data = None -> outcome r = Return [])
        /\ (forall found, result data = Some found ->
            items found = ItemsAbsent -> outcome r = Return [])
        /\ (listed_items data = ItemsAbsent ->
            events r = [Http (get_request env) reply;
                        ConsoleWarn NoItemsInResponse])
        /\ (forall found,
              success data = true -> result data = Some found ->
              items found = ItemsNotArray ->
              outcome r = Throw (FetchGatewayListFailed
                                   (NotAFunction "data.result.items.map"))
              /\ events r = [Http (get_request env) reply])
        /\ (forall found elements,
              success data = true -> result data = Some found ->
              items found = ItemsArray elements -> In None elements ->
              outcome r = Throw (FetchGatewayListFailed (NullProperty "value"))
              /\ events r = [Http (get_request env) reply])
        /\ (forall found its,
              success data = true -> result data = Some found ->
              items found = ItemsArray (map Some its) ->
              outcome r = Return (map value its)
              /\ events r = [Http (get_request env) reply])).
Proof.
  cbv zeta. rewrite fetchCurrent_run. cbn [outcome world events].
  destruct (global_fetch P (get_request env) w) as [reply w']. cbn [fst snd].
  unfold read_outcome. split; [|split; [|split]].
  - destruct reply as [msg|res]; [cbn; split; eauto|].
    destruct (ok res); cbn [negb]; [|cbn; split; eauto].
    destruct (body res) as [text| |data]; cbn [fst].
    + split; eauto.
    + split; eauto.
    + unfold listed_items.
      destruct (success data) eqn:Sc.
      2:{ split; [intros [e E]; discriminate|].
          intros [E | [[text E] | [E | (d & f & [= <-] & S' & _)]]];
            try discriminate; congruence. }
      destruct (result data) as [found|] eqn:Rs.
      2:{ split; [intros [e E]; discriminate|].
          intros [E | [[text E] | [E | (d & f & [= <-] & _ & R' & _)]]];
            try discriminate; congruence. }
      destruct (items found) as [| |elements] eqn:It; cbn [fst].
      * split; [intros [e E]; discriminate|].
        intros [E | [[text E] | [E | (d & f & [= <-] & _ & R' & I')]]];
          try discriminate.
        rewrite Rs in R'. injection R' as <-. rewrite It in I'.
        destruct I' as [I' | (els & I' & _)]; discriminate.
      * split; [intros _|eauto].
        right. right. right. exists data, found. auto.
      * destruct (item_values elements) as [values|] eqn:Iv; cbn [fst].
        -- split; [intros [e E]; discriminate|].
           intros [E | [[text E] | [E | (d & f & [= <-] & _ & R' & I')]]];
             try discriminate.
           rewrite Rs in R'. injection R' as <-. rewrite It in I'.
           destruct I' as [I' | (els & [= <-] & Hn)]; [discriminate|].
           apply item_values_None in Hn. congruence.
        -- split; [intros _|eauto].
           right. right. right. exists data, found.
           repeat split; auto. right. exists elements.
           split; [assumption | now apply item_values_None].
  - intros e. destruct reply as [msg|res]; cbn.
    + intros [= <-]. eauto.
    + destruct (ok res); cbn; [|intros [= <-]; eauto].
      destruct (body res) as [text| |data]; cbn;
        [intros [= <-]; eauto | intros [= <-]; eauto|].
      destruct (listed_items data) as [| |elements]; cbn;
        [discriminate | intros [= <-]; eauto|].
      destruct (item_values elements); cbn;
        [discriminate | intros [= <-]; eauto].
  - intros res -> Ok Bd. rewrite Ok, Bd. reflexivity.
  - intros res data -> Ok Bd. rewrite Ok, Bd. cbn [negb].
    unfold listed_items.
    split; [|split; [|split; [|split; [|split; [|split]]]]].
    + intros ->. reflexivity.
    + intros ->. now destruct (success data).
    + intros found -> ->. now destruct (success data).
    + destruct (success data); [|reflexivity].
      destruct (result data) as [found|]; [|reflexivity].
      destruct (items found) as [| |elements];
        [reflexivity | discriminate | discriminate].
    + intros found Sc Rs It. rewrite Sc, Rs, It. split; reflexivity.
    + intros found elements Sc Rs It Hn. rewrite Sc, Rs, It.
      apply item_values_None in Hn. rewrite Hn. split; reflexivity.
    + intros found its Sc Rs It. rewrite Sc, Rs, It.
      rewrite FaithfulFacts.item_values_items. split; reflexivity.
Qed.

(** ** CIDR Validator *)

Lemma ipv4_cidr_has_dot (s : string) :
  ipv4_cidr s -> In "."%char (list_ascii_of_string s).
Proof.
  intros (a & b & c & d & p & -> & _).
  rewrite chars_app, in_app_iff. right. simpl. auto.
Qed.

Lemma colon_containing_cidr_has_colon (s : string) :
  colon_containing_cidr s -> In ":"%char (list_ascii_of_string s).
Proof.
  intros (g & p & -> & H & _). rewrite chars_app, in_app_iff. auto.
Qed.

(** Against C5 as stated: [isValidCIDR] accepts [abc/12], which is
    neither a dotted quad nor a group that contains a colon. *)
Lemma colon_not_required :
  isValidCIDR "abc/12" = true
  /\ ~ (ipv4_cidr "abc/12" \/ colon_containing_cidr "abc/12").
Proof.
  split; [reflexivity|]. intros [H | H].
  - apply ipv4_cidr_has_dot in H. simpl in H. intuition discriminate.
  - apply colon_containing_cidr_has_colon in H. simpl in H.
    intuition discriminate.
Qed.

(** C5 (amended).  [isValidCIDR s] is true if and only if [s] is a
    dotted quad of groups of 1 to 3 digits followed by [/] and 1 or 2
    digits, or a non-empty group of hexadecimal digits and colons, in
    which a colon need not occur, followed by [/] and 1 to 3 digits.  It
    checks no range of an octet or of the prefix length; it is a total
    function, false on every other string. *)
Theorem isValidCIDR_accepts (s : string) :
  (isValidCIDR s = true <-> ipv4_cidr s \/ hex_group_cidr s)
  /\ (isValidCIDR s = false <-> ~ (ipv4_cidr s \/ hex_group_cidr s))
  /\ (colon_containing_cidr s -> isValidCIDR s = true)
  /\ isValidCIDR "999.999.999.999/99" = true
  /\ isValidCIDR "::/999" = true
  /\ map isValidCIDR ["1.1.1.0/24"; "1.1.1.0"; "2001:db8::/32"; "not-a-cidr"]%string
     = [true; false; true; false].
Proof.
  split; [apply isValidCIDR_grammar|]. split; [|split].
  - rewrite <- isValidCIDR_grammar. destruct (isValidCIDR s); split; congruence.
  - intros (g & p & E & Hin & Hg & Hp). apply isValidCIDR_grammar. right.
    exists g, p. repeat split; try assumption; try apply Hp.
    intros ->. contradiction.
  - repeat split; reflexivity.
Qed.

(** ** Desired-Set Loader *)

(** Against C6 as stated: when the select returns zero rows and the
    table check finds no table of that name (the name is that of a
    view, say), the sync fails with "Table ... does not exist", not with
    "no prefixes found", and the two diagnostic queries are not run. *)
Lemma missing_table_is_reported :
  let r := syncASN NoTable.platform 1 example_env "AS64500" tt in
  fst (d1 NoTable.platform (SelectActivePrefixes "AS64500") tt)
  = inr {| results := Some []; d1_success := true; d1_error := None |}
  /\ outcome r = Throw (FetchDesiredFailed "AS64500" (TableMissing "AS64500"))
  /\ outcome r
     <> Throw (FetchDesiredFailed "AS64500" (NoActivePrefixes "AS64500"))
  /\ events r = [Db (SelectLastRun "AS64500");
                 Db (SelectActivePrefixes "AS64500");
                 Db (SelectTableName "AS64500")].
Proof.
  cbv zeta. split; [reflexivity|]. split; [vm_compute; reflexivity|].
  split; [vm_compute; discriminate | vm_compute; reflexivity].
Qed.

(** C6 (amended).  When the query for the active prefixes succeeds with
    zero rows, the sync fails with a data-access error wrapped in
    "Failed to fetch desired prefixes", without any request to the API
    and without any local-state write.  What the error is follows from
    the follow-up queries: the exception of the table check, of the
    sample query or of the count query when one of them throws; "Table
    ... does not exist", right after the table check, when it finds no
    table; and "No prefixes found ... with active = 1", after the table
    check and the two diagnostic queries, otherwise. *)
Theorem empty_desired_fails {W : Type} (P : Platform W) (fuel : nat)
    (env : Env) (asn : string) (w w0 w1 : W) (lastRun : option string)
    (err : option string) :
  isValidASN asn = true -> DB env = true -> configured env = true ->
  d1 P (SelectLastRun asn) w = (inr lastRun, w0) ->
  d1 P (SelectActivePrefixes asn) w0
  = (inr {| results := Some []; d1_success := true; d1_error := err |}, w1) ->
  let r := syncASN P fuel env asn w in
  let check := d1 P (SelectTableName asn) w1 in
  let sample := d1 P (SelectSample asn) (snd check) in
  let counts := d1 P (SelectActiveCounts asn) (snd sample) in
  let stops cause wf follow_up :=
    r = {| outcome := Throw (FetchDesiredFailed asn cause); world := wf;
           events := map Db ([SelectLastRun asn; SelectActivePrefixes asn]
                             ++ follow_up) |} in
  match fst check with
  | inl message => stops (D1Exception message) (snd check) [SelectTableName asn]
  | inr found =>
      if negb found
      then stops (TableMissing asn) (snd check) [SelectTableName asn]
      else
        match fst sample with
        | inl message =>
            stops (D1Exception message) (snd sample)
              [SelectTableName asn; SelectSample asn]
        | inr _ =>
            match fst counts with
            | inl message =>
                stops (D1Exception message) (snd counts)
                  [SelectTableName asn; SelectSample asn;
                   SelectActiveCounts asn]
            | inr _ =>
                stops (NoActivePrefixes asn) (snd counts)
                  [SelectTableName asn; SelectSample asn;
                   SelectActiveCounts asn]
            end
        end
  end
  /\ (exists cause,
        outcome r = Throw (FetchDesiredFailed asn cause)
        /\ error_class (FetchDesiredFailed asn cause) = DataAccessError)
  /\ requests (events r) = []
  /\ writes (events r) = [].
Proof.
  intros V D C E0 E1. cbv zeta.
  assert (Q0 : query P (SelectLastRun asn) w
               = {| outcome := Return lastRun; world := w0;
                    events := [Db (SelectLastRun asn)] |}).
  { unfold query. now rewrite E0. }
  assert (Hd : forall cause wf follow_up,
             filter is_write follow_up = [] ->
             fetchDesiredPrefixes P asn w0
             = {| outcome := Throw (FetchDesiredFailed asn cause); world := wf;
                  events := map Db (SelectActivePrefixes asn :: follow_up) |} ->
             syncASN P fuel env asn w
             = {| outcome := Throw (FetchDesiredFailed asn cause); world := wf;
                  events := map Db ([SelectLastRun asn; SelectActivePrefixes asn]
                                    ++ follow_up) |}
             /\ (exists cause',
                   outcome (syncASN P fuel env asn w)
                   = Throw (FetchDesiredFailed asn cause')
                   /\ error_class (FetchDesiredFailed asn cause')
                      = DataAccessError)
             /\ requests (events (syncASN P fuel env asn w)) = []
             /\ writes (events (syncASN P fuel env asn w)) = []).
  { intros cause wf follow_up Wf Ed.
    unfold syncASN. rewrite V, D, (configured_passes _ C). cbn [negb].
    rewrite (@bind_Return _ _ _ _ _ _ _ _ _ Q0).
    rewrite (@bind_Throw _ _ _ _ _ _ _ _ _ Ed).
    cbn [outcome world events app map].
    split; [reflexivity|]. split; [eauto|].
    assert (Q : forall calls, requests (map Db calls) = []
                              /\ db_calls (map Db calls) = calls).
    { induction calls as [|c calls [IH1 IH2]]; [split; reflexivity|].
      split; [exact IH1|].
      change (db_calls (map Db (c :: calls)))
        with (c :: db_calls (map Db calls)).
      now rewrite IH2. }
    change (Db (SelectLastRun asn) :: Db (SelectActivePrefixes asn)
              :: map Db follow_up)
      with (map Db (SelectLastRun asn :: SelectActivePrefixes asn :: follow_up)).
    split; [apply Q|].
    unfold writes. rewrite (proj2 (Q _)). cbn [filter is_write]. exact Wf. }
  assert (Q1 : query P (SelectActivePrefixes asn) w0
               = {| outcome := Return {| results := Some []; d1_success := true;
                                         d1_error := err |};
                    world := w1; events := [Db (SelectActivePrefixes asn)] |}).
  { unfold query. now rewrite E1. }
  destruct (d1 P (SelectTableName asn) w1) as [[msg|[|]] w2] eqn:Et;
    cbn [fst snd negb].
  - apply Hd; [reflexivity|].
    unfold fetchDesiredPrefixes, catch.
    rewrite (@bind_Return _ _ _ _ _ _ _ _ _ Q1).
    cbn [outcome world events d1_success results negb length Nat.eqb].
    unfold bind, query. rewrite Et. reflexivity.
  - destruct (d1 P (SelectSample asn) w2) as [[msg|[]] w3] eqn:Es;
      cbn [fst snd].
    + apply Hd; [reflexivity|].
      unfold fetchDesiredPrefixes, catch.
      rewrite (@bind_Return _ _ _ _ _ _ _ _ _ Q1).
      cbn [outcome world events d1_success results negb length Nat.eqb].
      unfold bind, query. rewrite Et. cbn [outcome world events negb].
      rewrite Es. reflexivity.
    + destruct (d1 P (SelectActiveCounts asn) w3) as [[msg|[]] w4] eqn:Ec;
        cbn [fst snd];
        (apply Hd; [reflexivity|]);
        unfold fetchDesiredPrefixes, catch;
        rewrite (@bind_Return _ _ _ _ _ _ _ _ _ Q1);
        cbn [outcome world events d1_success results negb length Nat.eqb];
        unfold bind, query; rewrite Et; cbn [outcome world events negb];
        rewrite Es; cbn [outcome world events]; rewrite Ec; reflexivity.
  - apply Hd; [reflexivity|].
    unfold fetchDesiredPrefixes, catch.
    rewrite (@bind_Return _ _ _ _ _ _ _ _ _ Q1).
    cbn [outcome world events d1_success results negb length Nat.eqb].
    unfold bind, query. rewrite Et. reflexivity.
Qed.

Lemma empty_desired_fails_witness :
  let w := {| Scripted.replies := []; Scripted.active_prefixes := [] |} in
  let r := syncASN Scripted.platform 1 example_env "AS64500" w in
  (isValidASN "AS64500" = true /\ DB example_env = true
   /\ configured example_env = true)
  /\ outcome r
     = Throw (FetchDesiredFailed "AS64500" (NoActivePrefixes "AS64500"))
  /\ requests (events r) = [].
Proof.
  cbv zeta. split; [repeat split|].
  pose proof (@empty_desired_fails _ Scripted.platform 1 example_env
                "AS64500"
                {| Scripted.replies := []; Scripted.active_prefixes := [] |}
                _ _ None None eq_refl eq_refl eq_refl eq_refl eq_refl) as H.
  cbv zeta in H. destruct H as (H & _ & Rq & _).
  split; [|exact Rq].
  cbn [d1 Scripted.platform Scripted.database fst snd negb] in H.
  rewrite H. reflexivity.
Defined.

(** ** Reconciliation Orchestrator *)

Lemma handler_db_calls {W : Type} (P : Platform W) (fuel : nat) (env : Env)
    (asn : string) (w : W) :
  db_calls (events (fetch P fuel env (Some asn) w))
  = if String.eqb asn "" || negb (isValidASN asn) then []
    else db_calls (events (syncASN P fuel env asn w)).
Proof.
  unfold fetch, catch.
  destruct (String.eqb asn "" || negb (isValidASN asn)); [reflexivity|].
  unfold bind. destruct (syncASN P fuel env asn w) as [[[]|e|] w' evs]; cbn;
    rewrite ?db_calls_app; cbn; now rewrite ?app_nil_r.
Qed.

(** C7.  An ASN that does not match [AS] followed by one or more digits
    is rejected before any call: [syncASN] throws "Invalid ASN format"
    and the entry point answers 400, both with an empty trace.  A table
    name is interpolated into a statement only when it is the ASN and
    matches the pattern. *)
Theorem invalid_asn_rejected {W : Type} (P : Platform W) (fuel : nat)
    (env : Env) (asn : string) (w : W) :
  isValidASN asn = false ->
  (isValidASN asn = false <-> ~ as_digits asn)
  /\ syncASN P fuel env asn w
     = {| outcome := Throw InvalidASNFormat; world := w; events := [] |}
  /\ error_class InvalidASNFormat = InputValidationError
  /\ fetch P fuel env (Some asn) w
     = {| outcome := Return BadRequest; world := w; events := [] |}
  /\ fetch P fuel env None w
     = {| outcome := Return BadRequest; world := w; events := [] |}
  /\ (forall asn' w' c table,
        In c (db_calls (events (syncASN P fuel env asn' w'))
              ++ db_calls (events (fetch P fuel env (Some asn') w'))) ->
        interpolated_table c = Some table ->
        table = asn' /\ as_digits table).
Proof.
  intros V. split; [|split; [|split; [|split; [|split]]]].
  - rewrite <- isValidASN_grammar. destruct (isValidASN asn); split; congruence.
  - now apply syncASN_invalid.
  - reflexivity.
  - unfold fetch, catch. rewrite V, orb_true_r. reflexivity.
  - reflexivity.
  - intros asn' w' c table Hin Ht.
    assert (Hs : In c (db_calls (events (syncASN P fuel env asn' w')))).
    { apply in_app_iff in Hin as [H|H]; [assumption|].
      rewrite handler_db_calls in H.
      destruct (String.eqb asn' "" || negb (isValidASN asn'));
        [contradiction | assumption]. }
    destruct (syncASN_shape P fuel env asn' w') as (T & _).
    rewrite Forall_forall in T. pose proof (T c Hs table Ht) as ->.
    split; [reflexivity|]. apply isValidASN_grammar.
    destruct (isValidASN asn') eqn:V'; [reflexivity|].
    rewrite (syncASN_invalid P fuel env asn' w' V') in Hs. contradiction.
Qed.

Lemma invalid_asn_rejected_witness :
  let asn := "AS1; DROP TABLE sync_state"%string in
  let w := {| Scripted.replies := []; Scripted.active_prefixes := [] |} in
  isValidASN asn = false
  /\ syncASN Scripted.platform 1 example_env asn w
     = {| outcome := Throw InvalidASNFormat; world := w; events := [] |}.
Proof.
  cbv zeta. split; [reflexivity|].
  apply (invalid_asn_rejected Scripted.platform 1 example_env
           "AS1; DROP TABLE sync_state" _ eq_refl).
Defined.

(** C8.  In every sync, a local-state write (the delete and the inserts
    on [synced_prefixes], the upsert on [sync_state]) comes after every
    request of the plan, append and remove batches alike, has been
    applied, and no PATCH follows it; when a PATCH of the run has failed,
    the run makes no local-state write. *)
Theorem persistence_follows_remote {W : Type} (P : Platform W) (fuel : nat)
    (env : Env) (asn : string) (w : W) :
  let r := syncASN P fuel env asn w in
  (forall pre c post,
     events r = pre ++ Db c :: post -> is_write c = true ->
     exists desired existing w1,
       let w0 := world (query P (SelectLastRun asn) w) in
       let A := toAdd (validDesired desired) existing in
       let R := toRemove (validDesired desired) existing in
       outcome (fetchDesiredPrefixes P asn w0) = Return desired
       /\ w1 = world (fetchDesiredPrefixes P asn w0)
       /\ outcome (fetchCurrentGatewayList P env w1) = Return existing
       /\ applied pre = plan 50 A R ++ probe A
       /\ settled pre = plan 50 A R ++ probe A
       /\ failures pre = []
       /\ patches post = [])
  /\ (failures (events r) <> [] -> writes (events r) = []).
Proof.
  cbv zeta.
  destruct (syncASN_shape P fuel env asn w) as (_ & [(Q & _ & _) | B]).
  - split; [|auto]. intros pre c post E Hc. exfalso.
    eapply writes_nil_no_write; eauto.
  - destruct B as (desired & existing & pre0 & mid & post0 & w1 & _ & Ed & Ew
                   & Ee & E & Ppre & Wpre & Dmid & Smid & Amid & Fmid & Ppost
                   & _).
    destruct (no_patches _ Ppre) as (Spre & Apre & Fpre).
    split.
    + intros pre c post E' Hc. exists desired, existing, w1.
      cbv zeta. split; [assumption|]. split; [assumption|].
      split; [assumption|].
      rewrite E, app_assoc in E'.
      assert (Q : writes (pre0 ++ mid) = []).
      { rewrite writes_app, Wpre, (no_db_calls _ Dmid). reflexivity. }
      destruct (write_after _ _ _ _ _ E' Hc Q) as (l & -> & Epost).
      rewrite Epost, patches_app in Ppost.
      apply app_eq_nil in Ppost as [Pl Ppost'].
      destruct (no_patches _ Pl) as (Sl & Al & Fl).
      rewrite !applied_app, !settled_app, !failures_app.
      rewrite Apre, Spre, Fpre, Amid, Smid, Fmid, Al, Sl, Fl.
      cbn [app]. rewrite !app_nil_r.
      repeat split. change (Db c :: post) with ([Db c] ++ post) in Ppost'.
      rewrite patches_app in Ppost'. now apply app_eq_nil in Ppost'.
    + intros Fl. exfalso. apply Fl. rewrite E, !failures_app, Fpre, Fmid.
      destruct (no_patches _ Ppost) as (_ & _ & ->). reflexivity.
Qed.



(** ** Idempotence *)

Lemma only_get_no_patch (env : Env) (evs : list Event) :
  requests evs = [get_request env] -> patches evs = [].
Proof.
  induction evs as [|ev evs IH]; [reflexivity|].
  destruct ev as [c|req reply|ms|wn|lg]; try exact IH.
  cbn [requests flat_map app]. intros [= -> E].
  cbn. now apply no_requests.
Qed.

Section Quiet.
Context {W : Type}.
Variable P : Platform W.

Lemma fetchCurrent_one_request (env : Env) (w : W) :
  requests (events (fetchCurrentGatewayList P env w)) = [get_request env].
Proof.
  rewrite fetchCurrent_run. cbn [events].
  destruct (fst (global_fetch P (get_request env) w)) as [msg|res];
    unfold read_outcome; [reflexivity|].
  destruct (ok res); [|reflexivity].
  destruct (body res) as [text| |data]; [reflexivity|reflexivity|].
  destruct (listed_items data) as [| |elements]; try reflexivity.
  destruct (item_values elements); reflexivity.
Qed.

(** A sync whose two differences are empty makes no PATCH request. *)
Lemma quiet_run (fuel : nat) (env : Env) (asn : string) (w : W)
    (lastRun : option string) (desired existing : list string) :
  isValidASN asn = true -> DB env = true -> configured env = true ->
  let w0 := world (query P (SelectLastRun asn) w) in
  let w1 := world (fetchDesiredPrefixes P asn w0) in
  let w2 := world (fetchCurrentGatewayList P env w1) in
  outcome (query P (SelectLastRun asn) w) = Return lastRun ->
  outcome (fetchDesiredPrefixes P asn w0) = Return desired ->
  outcome (fetchCurrentGatewayList P env w1) = Return existing ->
  validDesired desired <> [] ->
  toAdd (validDesired desired) existing = [] ->
  toRemove (validDesired desired) existing = [] ->
  let r := syncASN P fuel env asn w in
  patches (events r) = []
  /\ requests (events r) = [get_request env]
  /\ outcome r
     = outcome (bind (updateSyncedPrefixes P asn (validDesired desired))
                  (fun _ => recordSyncTime P asn) w2).
Proof.
  intros V D C w0 w1 w2 E E0 E1 Nvd HA HR. cbv zeta. subst w0 w1 w2.
  assert (NV : (length (validDesired desired) =? 0) && (0 <? length desired)
               = false).
  { destruct (validDesired desired); [congruence | reflexivity]. }
  assert (B : updateGatewayListBatched P fuel env [] [] 50
              = bind (ret tt) (fun _ => ret tt)) by reflexivity.
  destruct (fetchDesired_trace P asn (world (query P (SelectLastRun asn) w)))
    as (R0 & _).
  pose proof (fetchCurrent_one_request env
                (world (fetchDesiredPrefixes P asn
                          (world (query P (SelectLastRun asn) w))))) as R1.
  assert (Rq : requests (events (syncASN P fuel env asn w)) = [get_request env]
               /\ outcome (syncASN P fuel env asn w)
                  = outcome
                      (bind (updateSyncedPrefixes P asn (validDesired desired))
                         (fun _ => recordSyncTime P asn)
                         (world
                            (fetchCurrentGatewayList P env
                               (world
                                  (fetchDesiredPrefixes P asn
                                     (world (query P (SelectLastRun asn) w)))))))).
  { unfold syncASN. rewrite V, D, (configured_passes _ C). cbn [negb].
    rewrite ?outcome_bind, ?events_bind, E. cbn beta iota.
    rewrite ?outcome_bind, ?events_bind, E0. cbn beta iota.
    rewrite ?outcome_bind, ?events_bind, E1. cbn beta iota.
    rewrite NV, HA, HR, B.
    set (w2 := world (fetchCurrentGatewayList P env _)) in *.
    destruct (updateSynced_trace P asn (validDesired desired) w2) as (R5 & _).
    assert (R6 : forall w6, requests (events (recordSyncTime P asn w6)) = [])
      by (intros w6; apply recordSyncTime_trace).
    assert (Rl : requests (events (query P (SelectLastRun asn) w)) = [])
      by (rewrite query_run; reflexivity).
    destruct (negb (length (validDesired desired) =? length desired));
      repeat (rewrite ?outcome_bind, ?events_bind, ?world_bind;
              cbn [console_warn emit ret outcome world events]);
      rewrite !requests_app, Rl, R0, R1, R5;
      (split; [|reflexivity]);
      destruct (outcome (updateSyncedPrefixes P asn (validDesired desired) w2));
      rewrite ?R6; reflexivity. }
  destruct Rq as (Rq & O).
  split; [now apply only_get_no_patch with (env := env)|]. split; assumption.
Qed.

End Quiet.

(** Against C9 as stated: the API applies every PATCH of the first
    sync, which returns, and the tables do not change; but the GET of
    the first sync was answered by a body with [success: false], so the
    first sync took the list for empty and removed nothing.  The second
    sync reads the list and sends a PATCH that removes [3.3.3.0/24]. *)
Lemma unread_list_breaks_idempotence :
  let w := {| Flaky.inner := example_world; Flaky.unreadable := 1 |} in
  let r1 := syncASN Flaky.platform 1 example_env "AS64500" w in
  let r2 := syncASN Flaky.platform 1 example_env "AS64500" (world r1) in
  outcome r1 = Return tt
  /\ Forall (fun pr => accepted (snd pr) = true) (patches (events r1))
  /\ Faithful.gateway_list (Flaky.inner (world r1))
     = replay (map fst (patches (events r1)))
         (Faithful.gateway_list example_world)
  /\ Faithful.tables (Flaky.inner (world r1)) = Faithful.tables example_world
  /\ outcome r2 = Return tt
  /\ map carried (map fst (patches (events r2)))
     = [(None, Some ["3.3.3.0/24"; "3.3.3.0/24"]%string)].
Proof.
  cbv zeta. split; [vm_compute; reflexivity|].
  split; [vm_compute; repeat constructor|].
  repeat split; vm_compute; reflexivity.
Qed.

(** C9 (amended).  Let a first sync for an ASN return, its GET having
    returned the list [existing], and let a second sync load the same
    desired prefixes and read a list whose members are those of
    [existing] after the accepted requests of the first sync have been
    applied to it (so the first sync read the list as it was, the API
    applied its appends and removals, and nothing else changed the
    list).  Then the second sync computes [toAdd = toRemove = []] and
    makes no PATCH request at all, neither for a batch nor for the
    connectivity test: its only request is the GET. *)
Theorem second_sync_changes_nothing {W : Type} (P : Platform W) (fuel : nat)
    (env : Env) (asn : string) (w w' : W) (lastRun' : option string)
    (desired existing existing' : list string) :
  let r1 := syncASN P fuel env asn w in
  let w0 := world (query P (SelectLastRun asn) w) in
  let w1 := world (fetchDesiredPrefixes P asn w0) in
  let r2 := syncASN P fuel env asn w' in
  let w0' := world (query P (SelectLastRun asn) w') in
  let w1' := world (fetchDesiredPrefixes P asn w0') in
  let w2' := world (fetchCurrentGatewayList P env w1') in
  outcome r1 = Return tt ->
  outcome (fetchDesiredPrefixes P asn w0) = Return desired ->
  outcome (fetchCurrentGatewayList P env w1) = Return existing ->
  outcome (query P (SelectLastRun asn) w') = Return lastRun' ->
  outcome (fetchDesiredPrefixes P asn w0') = Return desired ->
  outcome (fetchCurrentGatewayList P env w1') = Return existing' ->
  (forall x, In x existing' <-> In x (replay (applied (events r1)) existing)) ->
  applied (events r1)
  = plan 50 (toAdd (validDesired desired) existing)
      (toRemove (validDesired desired) existing)
    ++ probe (toAdd (validDesired desired) existing)
  /\ (forall x, In x existing' <-> In x (validDesired desired))
  /\ toAdd (validDesired desired) existing' = []
  /\ toRemove (validDesired desired) existing' = []
  /\ patches (events r2) = []
  /\ requests (events r2) = [get_request env]
  /\ outcome r2
     = outcome (bind (updateSyncedPrefixes P asn (validDesired desired))
                  (fun _ => recordSyncTime P asn) w2').
Proof.
  cbv zeta. intros O1 Hd He Hl Hd' He' Happ.
  destruct (syncASN_shape P fuel env asn w)
    as (_ & [(_ & NR & _) | B]); [now destruct (NR tt)|].
  destruct B as (desired0 & existing0 & pre & mid & post & w1 & (V & D & C & Nvd)
                 & Ed & Ew & Ee & E & Ppre & _ & _ & _ & Amid & _ & Ppost & _).
  subst w1. rewrite Hd in Ed. injection Ed as <-.
  rewrite He in Ee. injection Ee as <-.
  assert (Ap : applied (events (syncASN P fuel env asn w))
               = plan 50 (toAdd (validDesired desired) existing)
                   (toRemove (validDesired desired) existing)
                 ++ probe (toAdd (validDesired desired) existing)).
  { rewrite E, !applied_app, Amid.
    destruct (no_patches _ Ppre) as (_ & -> & _).
    destruct (no_patches _ Ppost) as (_ & -> & _).
    now rewrite app_nil_r. }
  assert (M : forall x, In x existing' <-> In x (validDesired desired)).
  { intros x. rewrite Happ, Ap. apply In_replay_plan. }
  destruct (diff_of_equal _ _ M) as (HA & HR).
  split; [exact Ap|]. split; [exact M|].
  split; [exact HA|]. split; [exact HR|].
  now apply quiet_run with (lastRun := lastRun') (existing := existing').
Qed.

Lemma second_sync_changes_nothing_witness :
  let r1 := syncASN Faithful.platform 1 example_env "AS64500" example_world in
  let r2 := syncASN Faithful.platform 1 example_env "AS64500" (world r1) in
  outcome r1 = Return tt
  /\ Faithful.gateway_list (world r1) = ["2.2.2.0/24"; "1.1.1.0/24"]%string
  /\ outcome r2 = Return tt
  /\ patches (events r2) = [].
Proof.
  cbv zeta. split; [vm_compute; reflexivity|].
  split; [vm_compute; reflexivity|].
  split; [vm_compute; reflexivity|].
  refine (proj1 (proj2 (proj2 (proj2 (proj2
    (@second_sync_changes_nothing _ Faithful.platform 1 example_env "AS64500"
       example_world
       (world (syncASN Faithful.platform 1 example_env "AS64500"
                 example_world))
       (Some "2025-05-23T10:00:00.000Z"%string)
       ["1.1.1.0/24"; "2.2.2.0/24"; "1.1.1.0/24"]%string
       ["2.2.2.0/24"; "3.3.3.0/24"; "3.3.3.0/24"]%string
       ["2.2.2.0/24"; "1.1.1.0/24"]%string
       _ _ _ _ _ _ _)))))).
  - vm_compute. reflexivity.
  - vm_compute. reflexivity.
  - vm_compute. reflexivity.
  - vm_compute. reflexivity.
  - vm_compute. reflexivity.
  - vm_compute. reflexivity.
  - intros x. vm_compute. tauto.
Defined.

(* ===================================================================== *)
(** * Further properties of the worker *)
(* ===================================================================== *)


Import MoreRunFacts.

(** ** Configuration *)

(** X1.  With a well-formed ASN, a missing D1 binding makes [syncASN]
    throw "Database not initialized", and a missing or empty credential
    makes it throw "Missing Cloudflare API credentials" (the binding is
    tested first); in both cases nothing is read or sent, and the entry
    point logs the error and answers 500. *)
Theorem missing_configuration_stops {W : Type} (P : Platform W) (fuel : nat)
    (env : Env) (asn : string) (w : W) :
  isValidASN asn = true ->
  DB env && configured env = false ->
  let e := if DB env then MissingCredentials else DatabaseNotInitialized in
  syncASN P fuel env asn w
  = {| outcome := Throw e; world := w; events := [] |}
  /\ error_class e = ConfigurationError
  /\ fetch P fuel env (Some asn) w
     = {| outcome := Return (SyncFailed e); world := w;
          events := [ConsoleError (HandlerError e)] |}
  /\ response_status (SyncFailed e) = 500%Z.
Proof.
  intros V C. cbv zeta.
  assert (S : syncASN P fuel env asn w
              = {| outcome := Throw (if DB env then MissingCredentials
                                     else DatabaseNotInitialized);
                   world := w; events := [] |}).
  { unfold syncASN. rewrite V. cbn [negb].
    destruct (DB env); cbn [negb andb] in *; [|reflexivity].
    unfold configured in C.
    destruct (truthy (ACCOUNT_ID env)), (truthy (LIST_ID env)),
      (truthy (API_EMAIL env)), (truthy (API_KEY env));
      try discriminate; reflexivity. }
  split; [exact S|]. split; [now destruct (DB env)|].
  split; [|reflexivity].
  unfold fetch, catch.
  assert (N : String.eqb asn "" = false).
  { destruct asn; [discriminate V | reflexivity]. }
  rewrite N, V. cbn [negb orb].
  rewrite (@bind_Throw _ _ _ _ _ _ _ _ _ S). reflexivity.
Qed.

Lemma missing_configuration_stops_witness :
  let env := {| DB := true; ACCOUNT_ID := Some "account"%string;
                LIST_ID := Some "list"%string; API_EMAIL := Some ""%string;
                API_KEY := None |} in
  let w := {| Scripted.replies := []; Scripted.active_prefixes := [] |} in
  (isValidASN "AS64500" = true /\ DB env && configured env = false)
  /\ syncASN Scripted.platform 1 env "AS64500" w
     = {| outcome := Throw MissingCredentials; world := w; events := [] |}.
Proof.
  cbv zeta. split; [split; reflexivity|].
  apply (@missing_configuration_stops _ Scripted.platform 1
           {| DB := true; ACCOUNT_ID := Some "account"%string;
              LIST_ID := Some "list"%string; API_EMAIL := Some ""%string;
              API_KEY := None |} "AS64500" _ eq_refl eq_refl).
Defined.

(** ** The entry point *)

(** X2.  The entry point never throws.  It answers 400 exactly when the
    [asn] parameter is absent or does not match the pattern; otherwise
    it runs [syncASN] once and answers 200 when the sync returns, or logs
    the error and answers 500 with it when the sync throws, adding no
    other event to those of the sync. *)
Theorem handler_responses {W : Type} (P : Platform W) (fuel : nat)
    (env : Env) (param : option string) (w : W) :
  let r := fetch P fuel env param w in
  (forall e, outcome r <> Throw e)
  /\ (outcome r = Return BadRequest <->
      match param with
      | None => True
      | Some asn => isValidASN asn = false
      end)
  /\ (outcome r = Return BadRequest -> events r = [] /\ world r = w)
  /\ (forall asn,
        param = Some asn -> isValidASN asn = true ->
        let s := syncASN P fuel env asn w in
        world r = world s
        /\ match outcome s with
           | Return _ =>
               outcome r = Return SyncComplete /\ events r = events s
           | Throw e =>
               outcome r = Return (SyncFailed e)
               /\ events r = events s ++ [ConsoleError (HandlerError e)]
           | Pending => outcome r = Pending /\ events r = events s
           end).
Proof.
  cbv zeta. unfold fetch, catch. destruct param as [asn|].
  - assert (E : String.eqb asn "" || negb (isValidASN asn)
                = negb (isValidASN asn)).
    { destruct asn; reflexivity. }
    rewrite E. destruct (isValidASN asn) eqn:V; cbn [negb].
    + unfold bind.
      destruct (syncASN P fuel env asn w) as [[[]|e|] w1 e1] eqn:S; cbn;
        (split; [discriminate|]);
        (split; [split; [discriminate | intros F; discriminate F]|]);
        (split; [discriminate|]);
        intros asn' [= <-] _; rewrite S; cbn; rewrite ?app_nil_r; auto.
    + cbn. split; [discriminate|]. split; [tauto|]. split; [auto|].
      intros asn' [= <-]. congruence.
  - cbn. split; [discriminate|]. split; [tauto|]. split; [auto|].
    discriminate.
Qed.

(** ** Validation and deduplication of the desired prefixes *)

Module ValidDesiredFacts.
Import JSSetFacts.

Lemma length_add (s : JSSet.t) (x : string) :
  length (JSSet.add s x) <= S (length s).
Proof.
  unfold JSSet.add. destruct (JSSet.has s x); [lia|].
  rewrite length_app. simpl. lia.
Qed.

Lemma length_fold_add (l : list string) :
  forall s : JSSet.t, length (fold_left JSSet.add l s) <= length s + length l.
Proof.
  induction l as [|x l IH]; intros s; simpl; [lia|].
  specialize (IH (JSSet.add s x)). pose proof (length_add s x). lia.
Qed.

Lemma fold_add_NoDup (l : list string) :
  forall s : JSSet.t, NoDup (s ++ l) -> fold_left JSSet.add l s = s ++ l.
Proof.
  induction l as [|x l IH]; intros s N; simpl.
  - now rewrite app_nil_r.
  - assert (Hx : JSSet.has s x = false).
    { apply has_false. intros H. apply NoDup_remove_2 in N. apply N.
      apply in_app_iff. auto. }
    unfold JSSet.add at 2. rewrite Hx.
    rewrite IH; rewrite <- app_assoc; [reflexivity | exact N].
Qed.

Lemma fold_add_full (l : list string) :
  forall s : JSSet.t,
    NoDup s -> length (fold_left JSSet.add l s) = length s + length l ->
    NoDup (s ++ l).
Proof.
  induction l as [|x l IH]; intros s N E; simpl in *.
  - now rewrite app_nil_r.
  - unfold JSSet.add in E at 2. destruct (JSSet.has s x) eqn:Hx.
    + pose proof (length_fold_add l s). lia.
    + assert (N' : NoDup (s ++ [x])).
      { pose proof (NoDup_add x N) as H. unfold JSSet.add in H.
        now rewrite Hx in H. }
      specialize (IH (s ++ [x]) N').
      rewrite length_app in IH. simpl in IH.
      rewrite <- app_assoc in IH. apply IH. lia.
Qed.

Lemma from_NoDup (l : list string) : NoDup l -> JSSet.from l = l.
Proof. intros N. unfold JSSet.from. now rewrite fold_add_NoDup. Qed.

Lemma length_from (l : list string) : length (JSSet.from l) <= length l.
Proof. unfold JSSet.from. apply (length_fold_add l []). Qed.

Lemma length_from_full (l : list string) :
  length (JSSet.from l) = length l <-> NoDup l.
Proof.
  split.
  - intros E. apply (fold_add_full l (s := [])); [constructor | exact E].
  - intros N. now rewrite from_NoDup.
Qed.

Lemma filter_all {A : Type} (f : A -> bool) (l : list A) :
  forallb f l = true -> filter f l = l.
Proof.
  induction l as [|x l IH]; simpl; [reflexivity|].
  intros H. apply andb_true_iff in H as [Hx H]. now rewrite Hx, IH.
Qed.

Lemma length_filter_full {A : Type} (f : A -> bool) (l : list A) :
  length (filter f l) = length l <-> forallb f l = true.
Proof.
  induction l as [|x l IH]; simpl; [tauto|].
  pose proof (filter_length_le f l) as L.
  destruct (f x); simpl.
  - rewrite <- IH. split; [intros E; injection E; auto | intros ->; reflexivity].
  - split; [intros E; lia | discriminate].
Qed.

Lemma NoDup_filter_back (f : string -> bool) (l : list string) :
  forallb f l = true -> NoDup (filter f l) -> NoDup l.
Proof. intros H. now rewrite filter_all. Qed.

Lemma filter_both {A : Type} (f g : A -> bool) (l : list A) :
  filter f (filter g l) = filter (fun x => g x && f x) l.
Proof.
  induction l as [|x l IH]; [reflexivity|].
  cbn [filter]. destruct (g x); cbn [filter andb]; now rewrite IH.
Qed.

Lemma has_add (s : JSSet.t) (x z : string) :
  JSSet.has (s ++ [x]) z = JSSet.has s z || String.eqb z x.
Proof.
  unfold JSSet.has. rewrite existsb_app. cbn [existsb].
  now rewrite orb_false_r.
Qed.

(** Adding the members of a list to a set: the set, then the members
    that are new, each at its first occurrence. *)
Lemma has_one (y z : string) : JSSet.has [y] z = String.eqb z y.
Proof. unfold JSSet.has. cbn [existsb]. apply orb_false_r. Qed.

Lemma fold_add_split (l : list string) :
  forall s : JSSet.t,
    fold_left JSSet.add l s
    = s ++ filter (fun z => negb (JSSet.has s z)) (JSSet.from l).
Proof.
  induction l as [|y l IH]; intros s.
  - cbn. now rewrite app_nil_r.
  - unfold JSSet.from. cbn [fold_left].
    rewrite (IH (JSSet.add s y)), (IH (JSSet.add [] y)).
    change (JSSet.add [] y) with [y].
    cbn [app filter]. rewrite filter_both.
    unfold JSSet.add. destruct (JSSet.has s y) eqn:Hy; cbn [negb].
    + f_equal. apply filter_ext. intros z. rewrite has_one.
      destruct (String.eqb_spec z y) as [->|N]; cbn [negb andb];
        [now rewrite Hy | reflexivity].
    + rewrite <- app_assoc. cbn [app]. do 2 f_equal.
      apply filter_ext. intros z. rewrite has_add, has_one, negb_orb.
      apply andb_comm.
Qed.

Lemma from_cons (x : string) (l : list string) :
  JSSet.from (x :: l)
  = x :: filter (fun y => negb (String.eqb y x)) (JSSet.from l).
Proof.
  unfold JSSet.from at 1. cbn [fold_left].
  rewrite fold_add_split. change (JSSet.add [] x) with [x]. cbn [app].
  f_equal. apply filter_ext. intros z. now rewrite has_one.
Qed.

End ValidDesiredFacts.

(** X3.  [validDesired] keeps the entries that are valid CIDR strings,
    each once, at its first occurrence and in the order of the list: it
    is empty on the empty list, drops a first entry that is not valid,
    and keeps a valid first entry in front of what it makes of the rest
    with the later copies of that entry taken out.  So its members are
    the valid entries, without duplicates; on a list without duplicates
    it is the filter by [isValidCIDR]; applying it twice changes
    nothing; it is never longer than the list, and it has the length of
    the list (so that no warning is logged) exactly when every entry is
    valid and no entry is repeated. *)
Theorem validDesired_keeps_valid_once (desired : list string) :
  validDesired [] = []
  /\ (forall x rest,
        validDesired (x :: rest)
        = if isValidCIDR x
          then x :: filter (fun y => negb (String.eqb y x)) (validDesired rest)
          else validDesired rest)
  /\ (forall x, In x (validDesired desired)
                <-> In x desired /\ isValidCIDR x = true)
  /\ NoDup (validDesired desired)
  /\ (NoDup desired -> validDesired desired = filter isValidCIDR desired)
  /\ validDesired (validDesired desired) = validDesired desired
  /\ forallb isValidCIDR (validDesired desired) = true
  /\ length (validDesired desired) <= length desired
  /\ (length (validDesired desired) = length desired <->
      NoDup desired /\ forallb isValidCIDR desired = true).
Proof.
  unfold validDesired, JSSet.spread.
  assert (V : forallb isValidCIDR (JSSet.from (filter isValidCIDR desired))
              = true).
  { apply forallb_forall. intros x H.
    apply (proj1 (JSSetFacts.In_from _ _)) in H.
    now apply (proj1 (filter_In _ _ _)) in H. }
  split; [reflexivity|].
  split.
  { intros x rest. cbn [filter].
    destruct (isValidCIDR x); [apply ValidDesiredFacts.from_cons | reflexivity]. }
  split; [intros x; apply DiffFacts.In_validDesired|].
  split; [apply DiffFacts.NoDup_validDesired|].
  split; [|split; [|split; [|split]]].
  - intros N. apply ValidDesiredFacts.from_NoDup. now apply NoDup_filter.
  - rewrite (ValidDesiredFacts.filter_all _ _ V).
    apply ValidDesiredFacts.from_NoDup, JSSetFacts.NoDup_from.
  - exact V.
  - pose proof (ValidDesiredFacts.length_from (filter isValidCIDR desired)).
    pose proof (filter_length_le isValidCIDR desired). lia.
  - pose proof (ValidDesiredFacts.length_from (filter isValidCIDR desired)) as L1.
    pose proof (filter_length_le isValidCIDR desired) as L2. split.
    + intros E.
      assert (E1 : length (filter isValidCIDR desired) = length desired) by lia.
      assert (E2 : length (JSSet.from (filter isValidCIDR desired))
                   = length (filter isValidCIDR desired)) by lia.
      apply ValidDesiredFacts.length_filter_full in E1.
      apply ValidDesiredFacts.length_from_full in E2.
      split; [|assumption].
      now apply (ValidDesiredFacts.NoDup_filter_back isValidCIDR).
    + intros [N F]. rewrite (ValidDesiredFacts.filter_all _ _ F).
      now apply ValidDesiredFacts.length_from_full.
Qed.

(** ** The diff as a reconciliation *)

(** X4.  Whatever the two lists, adding [toAdd] to the remote members
    and taking [toRemove] away gives exactly the members of the desired
    list; the two lists share no member; and both are empty exactly when
    the remote list and the desired list have the same members. *)
Theorem diff_reconciles (D R : list string) :
  (forall x, (In x R \/ In x (toAdd D R)) /\ ~ In x (toRemove D R) <-> In x D)
  /\ (forall x, In x (toAdd D R) -> ~ In x (toRemove D R))
  /\ (toAdd D R = [] /\ toRemove D R = [] <-> forall x, In x D <-> In x R).
Proof.
  split; [|split].
  - intros x. rewrite DiffFacts.In_toAdd, DiffFacts.In_toRemove.
    destruct (in_dec string_dec x D), (in_dec string_dec x R); tauto.
  - intros x. rewrite DiffFacts.In_toAdd, DiffFacts.In_toRemove. tauto.
  - split.
    + intros [HA HR] x.
      pose proof (DiffFacts.In_toAdd D R x) as A.
      pose proof (DiffFacts.In_toRemove D R x) as B.
      rewrite HA in A. rewrite HR in B. simpl in A, B.
      destruct (in_dec string_dec x D), (in_dec string_dec x R); tauto.
    + intros E. apply FaithfulFacts.diff_of_equal. intros x.
      symmetry. apply E.
Qed.

(** ** Desired-Set Loader *)

Module LoaderFacts.
Import RunFacts StageFacts.

Section Loader.
Context {W : Type}.
Variable P : Platform W.

Lemma query_inr (c : DbCall) (w w' : W) (reply : Reply c) :
  d1 P c w = (inr reply, w') ->
  query P c w = {| outcome := Return reply; world := w'; events := [Db c] |}.
Proof. intros E. unfold query. now rewrite E. Qed.

Lemma query_inl (c : DbCall) (w w' : W) (message : string) :
  d1 P c w = (inl message, w') ->
  query P c w = {| outcome := Throw (D1Exception message); world := w';
                   events := [Db c] |}.
Proof. intros E. unfold query. now rewrite E. Qed.

(** A load that returns has made the one query. *)
Lemma fetchDesired_Return (table : string) (w : W) (rows : list string) :
  outcome (fetchDesiredPrefixes P table w) = Return rows ->
  events (fetchDesiredPrefixes P table w) = [Db (SelectActivePrefixes table)]
  /\ world (fetchDesiredPrefixes P table w)
     = snd (d1 P (SelectActivePrefixes table) w)
  /\ exists reply,
       fst (d1 P (SelectActivePrefixes table) w) = inr reply
       /\ d1_success reply = true /\ results reply = Some rows.
Proof.
  unfold fetchDesiredPrefixes.
  rewrite outcome_rethrow, events_rethrow, world_rethrow.
  rewrite outcome_bind, events_bind, world_bind, query_run.
  cbn [outcome world events].
  destruct (d1 P (SelectActivePrefixes table) w) as [[msg|reply] w1];
    cbn [fst snd]; [discriminate|].
  destruct (d1_success reply) eqn:S; cbn [negb]; [|discriminate].
  destruct (results reply) as [rs|] eqn:R; [|discriminate].
  destruct rs as [|row rs]; cbn [length Nat.eqb].
  - rewrite outcome_bind.
    destruct (outcome (query P (SelectTableName table) w1)) as [[|]|e|];
      cbn [negb]; try discriminate.
    rewrite outcome_bind.
    destruct (outcome (query P (SelectSample table) _)); try discriminate.
    rewrite outcome_bind.
    destruct (outcome (query P (SelectActiveCounts table) _)); discriminate.
  - cbn. intros [= <-]. split; [reflexivity|]. split; [reflexivity|].
    exists reply. auto.
Qed.

End Loader.
End LoaderFacts.

(** X5.  [fetchDesiredPrefixes] by the reply of its query: an exception
    of D1, a reply without [success], and a reply without [results] each
    fail after that one query; a reply with rows returns the rows as
    they come, in order, after that one query; with zero rows a table
    check that finds nothing fails with "table does not exist", without
    the two diagnostic queries.  Every failure is the cause wrapped once
    in "Failed to fetch desired prefixes from <table>". *)
Theorem desired_loader_outcomes {W : Type} (P : Platform W) (table : string)
    (w : W) :
  let select := SelectActivePrefixes table in
  let first := fst (d1 P select w) in
  let w1 := snd (d1 P select w) in
  let r := fetchDesiredPrefixes P table w in
  let failed_with cause :=
    r = {| outcome := Throw (FetchDesiredFailed table cause); world := w1;
           events := [Db select] |} in
  (forall message, first = inl message -> failed_with (D1Exception message))
  /\ (forall reply, first = inr reply -> d1_success reply = false ->
      failed_with (QueryFailed (d1_error reply)))
  /\ (forall reply, first = inr reply -> d1_success reply = true ->
      results reply = None -> failed_with NoResultsReturned)
  /\ (forall reply rows, first = inr reply -> d1_success reply = true ->
      results reply = Some rows -> rows <> [] ->
      r = {| outcome := Return rows; world := w1; events := [Db select] |})
  /\ (forall reply w2, first = inr reply -> d1_success reply = true ->
      results reply = Some [] ->
      d1 P (SelectTableName table) w1 = (inr false, w2) ->
      r = {| outcome := Throw (FetchDesiredFailed table (TableMissing table));
             world := w2;
             events := [Db select; Db (SelectTableName table)] |})
  /\ (forall e, outcome r = Throw e ->
      exists cause, e = FetchDesiredFailed table cause
                    /\ forall t c, cause <> FetchDesiredFailed t c).
Proof.
  cbv zeta. unfold fetchDesiredPrefixes.
  split; [|split; [|split; [|split; [|split]]]].
  - intros message E. unfold catch, bind. rewrite StageFacts.query_run.
    cbn [outcome world events]. rewrite E. reflexivity.
  - intros reply E S. unfold catch, bind. rewrite StageFacts.query_run.
    cbn [outcome world events]. rewrite E. cbn [fst snd]. rewrite S.
    reflexivity.
  - intros reply E S R. unfold catch, bind. rewrite StageFacts.query_run.
    cbn [outcome world events]. rewrite E. cbn [fst snd]. rewrite S, R.
    reflexivity.
  - intros reply rows E S R N. unfold catch, bind.
    rewrite StageFacts.query_run.
    cbn [outcome world events]. rewrite E. cbn [fst snd]. rewrite S, R.
    destruct rows; [contradiction | reflexivity].
  - intros reply w2 E S R T. unfold catch.
    assert (Q : query P (SelectActivePrefixes table) w
                = {| outcome := Return reply;
                     world := snd (d1 P (SelectActivePrefixes table) w);
                     events := [Db (SelectActivePrefixes table)] |}).
    { rewrite StageFacts.query_run, E. reflexivity. }
    rewrite (@RunFacts.bind_Return _ _ _ _ _ _ _ _ _ Q). rewrite S, R.
    cbn [negb length Nat.eqb outcome world events].
    rewrite (@RunFacts.bind_Return _ _ _ _ _ _ _ _ _
               (LoaderFacts.query_inr P _ _ T)).
    reflexivity.
  - intros e. rewrite outcome_rethrow.
    match goal with
    | |- context [outcome ?x] => destruct (outcome x) as [a|cause|] eqn:O
    end; try discriminate.
    intros [= <-]. exists cause. split; [reflexivity|].
    intros t c ->. revert O.
    rewrite outcome_bind, StageFacts.query_run. cbn [outcome world].
    destruct (d1 P (SelectActivePrefixes table) w) as [[msg|reply] w1];
      cbn [fst snd]; [discriminate|].
    destruct (d1_success reply); cbn [negb]; [|discriminate].
    destruct (results reply) as [rs|]; [|discriminate].
    destruct rs as [|row rs]; cbn [length Nat.eqb]; [|discriminate].
    rewrite outcome_bind, StageFacts.query_run. cbn [outcome world].
    destruct (d1 P (SelectTableName table) w1) as [[msg|[|]] w2];
      cbn [fst snd negb]; try discriminate.
    rewrite outcome_bind, StageFacts.query_run. cbn [outcome world].
    destruct (d1 P (SelectSample table) w2) as [[msg|[]] w3];
      cbn [fst snd]; try discriminate.
    rewrite outcome_bind, StageFacts.query_run. cbn [outcome world].
    destruct (d1 P (SelectActiveCounts table) w3) as [[msg|[]] w4];
      cbn [fst snd]; discriminate.
Qed.

(** ** The connectivity test *)

(** X6.  [testGatewayListUpdate] makes exactly one PATCH, appending the
    one prefix, and never waits: it returns exactly when the reply is
    accepted, and on any other reply, a 429 included, it logs the error
    and throws it at once, without a retry. *)
Theorem probe_makes_one_request {W : Type} (P : Platform W) (env : Env)
    (prefix : string) (w : W) :
  let p := {| append := Some [ {| value := prefix |} ]; remove := None |} in
  let reply := fst (global_fetch P (patch_request env p) w) in
  let r := testGatewayListUpdate P env prefix w in
  requests (events r) = [patch_request env p]
  /\ sleeps (events r) = []
  /\ world r = snd (global_fetch P (patch_request env p) w)
  /\ (outcome r = Return tt <-> accepted reply = true)
  /\ (accepted reply = true -> events r = [Http (patch_request env p) reply])
  /\ (accepted reply = false ->
      exists e, outcome r = Throw e
                /\ events r = [Http (patch_request env p) reply;
                               ConsoleError (TestPatchError e)])
  /\ (forall res, reply = inr res -> status res = 429%Z ->
      outcome r = Throw (TestApiRequestFailed 429 (body res))).
Proof.
  cbv zeta. unfold testGatewayListUpdate, catch, bind, fetch_url.
  destruct (global_fetch P _ w) as [[msg|res] w']; cbn [fst snd].
  { cbn. repeat split; try discriminate; eauto. }
  assert (St : forall res', inr res = (inr res' : string + Response) ->
                            status res' = 429%Z -> ok res = false).
  { intros res' [= <-] St. unfold ok. now rewrite St. }
  cbn [outcome world events]. unfold accepted.
  destruct (ok res) eqn:Ok; cbn [negb andb].
  - destruct (body res) as [text| |json] eqn:Bd; cbn;
      [| |destruct (success json) eqn:Sc; cbn];
      repeat split; try discriminate; eauto;
      intros res' E S'; now discriminate (St res' E S').
  - cbn. repeat split; try discriminate; eauto.
    intros res' [= <-] S'. now rewrite S'.
Qed.

(** ** Retry without a bound *)

Module RetryFacts.
Import RunFacts UpdateFacts.

Section Retry.
Context {W : Type}.
Variable P : Platform W.

Lemma busy_single (env : Env) (p : Payload) (label : BatchLabel) :
  always_busy P -> one_sided p = true ->
  forall (fuel : nat) (w : W),
    let r := updateGatewayListSingle P fuel env p label w in
    outcome r = Pending
    /\ requests (events r) = repeat (patch_request env p) fuel
    /\ sleeps (events r) = repeat 1000%Z fuel
    /\ applied (events r) = [].
Proof.
  intros B Hp. induction fuel as [|fuel IH]; intros w; cbv zeta.
  - rewrite single_zero by assumption. cbn. auto.
  - rewrite single_step by assumption. unfold bind. rewrite attempt_run.
    cbn [outcome world events]. unfold attempt_outcome.
    pose proof (B (patch_request env p) w) as RL.
    destruct (global_fetch P (patch_request env p) w) as [reply w'].
    cbn [fst snd] in *. rewrite RL. cbn [fst snd outcome world events].
    destruct (IH w') as (O & Rq & Sl & Ap).
    destruct (updateGatewayListSingle P fuel env p label w') as [o w2 evs].
    cbn [outcome world events] in *.
    split; [assumption|].
    change (Http (patch_request env p) reply
              :: [ConsoleWarn (RateLimitHit label); Sleep 1000] ++ evs)
      with ([Http (patch_request env p) reply;
             ConsoleWarn (RateLimitHit label); Sleep 1000] ++ evs).
    rewrite requests_app, sleeps_app, applied_app, Rq, Sl, Ap.
    split; [reflexivity|]. split; [reflexivity|].
    unfold applied. cbn. now rewrite (rate_limited_not_accepted _ RL).
Qed.

End Retry.
End RetryFacts.

(** X7.  When the API answers every request by a 429,
    [updateGatewayListSingle] never settles: whatever the number of
    attempts it is given, it has made that many requests with the same
    payload, waited one second after each, applied nothing and thrown no
    error. *)
Theorem persistent_rate_limit_never_settles {W : Type} (P : Platform W)
    (fuel : nat) (env : Env) (p : Payload) (label : BatchLabel) (w : W) :
  always_busy P -> one_sided p = true ->
  let r := updateGatewayListSingle P fuel env p label w in
  outcome r = Pending
  /\ requests (events r) = repeat (patch_request env p) fuel
  /\ sleeps (events r) = repeat 1000%Z fuel
  /\ applied (events r) = [].
Proof. intros B Hp. now apply RetryFacts.busy_single. Qed.

Lemma persistent_rate_limit_never_settles_witness :
  let p := append_payload ["1.1.1.0/24"%string] in
  let label := {| kind := AppendBatch; number := 1; total := 1 |} in
  let r := updateGatewayListSingle Busy.platform 7 example_env p label tt in
  (always_busy Busy.platform /\ one_sided p = true)
  /\ outcome r = Pending
  /\ sleeps (events r) = repeat 1000%Z 7.
Proof.
  cbv zeta.
  assert (B : always_busy Busy.platform) by (intros req w; reflexivity).
  split; [split; [exact B | reflexivity]|].
  destruct (@persistent_rate_limit_never_settles _ Busy.platform 7 example_env
              (append_payload ["1.1.1.0/24"%string])
              {| kind := AppendBatch; number := 1; total := 1 |} tt B eq_refl)
    as (O & _ & S & _).
  split; assumption.
Defined.

(** ** A batch that fails *)

Module FailureFacts.
Import RunFacts UpdateFacts.

Section Failure.
Context {W : Type}.
Variable P : Platform W.

(** The error thrown is the one of the reply that failed, and logging it
    under the label of the call is the last thing done. *)
Lemma single_throw (env : Env) (p : Payload) (label : BatchLabel) :
  one_sided p = true ->
  forall (fuel : nat) (w : W) (e : Error),
    outcome (updateGatewayListSingle P fuel env p label w) = Throw e ->
    exists evs reply,
      events (updateGatewayListSingle P fuel env p label w)
      = evs ++ [Http (patch_request env p) reply;
                ConsoleError (UpdateError label e)]
      /\ e = update_error reply /\ failed reply = true.
Proof.
  intros Hp. induction fuel as [|fuel IH]; intros w e.
  - rewrite single_zero by assumption. discriminate.
  - rewrite single_step by assumption.
    rewrite outcome_bind, events_bind.
    rewrite attempt_run. cbn [outcome world events]. unfold attempt_outcome.
    destruct (global_fetch P (patch_request env p) w) as [reply w'].
    cbn [fst snd].
    destruct (rate_limited reply) eqn:RL; [|destruct (accepted reply) eqn:Ac];
      cbn [fst snd].
    + intros O. destruct (IH w' e O) as (evs & reply' & E & Er & F).
      rewrite E.
      exists (Http (patch_request env p) reply
                :: ConsoleWarn (RateLimitHit label) :: Sleep 1000 :: evs),
        reply'.
      auto.
    + discriminate.
    + intros [= <-]. exists [], reply. cbn [app]. split; [reflexivity|].
      split; [reflexivity|]. unfold failed. now rewrite RL, Ac.
Qed.

Lemma process_throw (fuel : nat) (env : Env) (make : list string -> Payload)
    (k : BatchKind) (count : nat) :
  (forall b, one_sided (make b) = true) ->
  forall (todo : list (list string)) (i : nat) (w : W) (e : Error),
    outcome (process_batches P fuel env make k count i todo w) = Throw e ->
    exists done failing rest evs reply,
      todo = done ++ failing :: rest
      /\ settled (events (process_batches P fuel env make k count i todo w))
         = map make (done ++ [failing])
      /\ applied (events (process_batches P fuel env make k count i todo w))
         = map make done
      /\ events (process_batches P fuel env make k count i todo w)
         = evs ++ [Http (patch_request env (make failing)) reply;
                   ConsoleError
                     (UpdateError {| kind := k; number := i + length done + 1;
                                     total := count |} e)]
      /\ e = update_error reply.
Proof.
  intros Hmake. induction todo as [|b todo IH]; intros i w e.
  - discriminate.
  - cbn [process_batches]. rewrite outcome_bind, events_bind.
    pose proof (single_trace P env (make b)
                  {| kind := k; number := i + 1; total := count |}
                  (Hmake b) fuel w) as H1.
    pose proof (@single_throw env (make b)
                  {| kind := k; number := i + 1; total := count |}
                  (Hmake b) fuel w) as H2.
    cbn zeta in H1.
    destruct (updateGatewayListSingle P fuel env (make b)
                {| kind := k; number := i + 1; total := count |} w)
      as [o w1 e1].
    cbn [outcome world events] in *. destruct H1 as (_ & _ & H1).
    destruct o as [a|e0|]; [| |discriminate].
    + intros O. destruct (IH (i + 1) w1 e O) as (done & failing & rest & evs
                                                  & reply & T & St & Ap & Ev
                                                  & Er).
      destruct H1 as (S1 & A1 & _).
      exists (b :: done), failing, rest, (e1 ++ evs), reply.
      rewrite settled_app, applied_app, S1, A1, St, Ap, Ev, T.
      repeat split; try reflexivity; try assumption.
      rewrite <- app_assoc. cbn [length].
      now replace (i + 1 + length done + 1) with (i + S (length done) + 1)
        by lia.
    + intros [= <-]. destruct H1 as (S1 & A1).
      destruct (H2 e0 eq_refl) as (evs & reply & Ev & Er & _).
      exists [], b, todo, evs, reply.
      rewrite app_nil_r, S1, A1, Ev. cbn [length app map].
      repeat split; try reflexivity; try assumption.
      now replace (i + 0 + 1) with (i + 1) by lia.
Qed.

End Failure.
End FailureFacts.

(** X8.  When [updateGatewayListBatched] throws, the planned requests
    split into those done, the one that failed, and those never sent:
    the ones done were all applied and stay applied, the failing one is
    the last request made, and the last thing logged is the error under
    the label "append|remove batch i/n" of the failing request.  The
    error thrown is the one of the failing reply, with no label. *)
Theorem failed_batch_stops_update {W : Type} (P : Platform W) (fuel : nat)
    (env : Env) (toAdd toRemove : list string) (batchSize : nat) (w : W)
    (e : Error) :
  0 < batchSize ->
  let r := updateGatewayListBatched P fuel env toAdd toRemove batchSize w in
  outcome r = Throw e ->
  exists done failing rest evs reply,
    plan batchSize toAdd toRemove = done ++ failing :: rest
    /\ settled (events r) = done ++ [failing]
    /\ applied (events r) = done
    /\ events r
       = evs ++ [Http (patch_request env failing) reply;
                 ConsoleError
                   (UpdateError
                      (label_at (length (batches batchSize toAdd))
                                (length (batches batchSize toRemove))
                                (length done)) e)]
    /\ e = update_error reply.
Proof.
  intros Hb. cbv zeta. unfold updateGatewayListBatched, plan.
  rewrite !(BatchFacts.loops_forever_false Hb).
  rewrite outcome_bind, events_bind.
  pose proof (UpdateFacts.process_trace P fuel env append_payload AppendBatch
                (length (batches batchSize toAdd)) UpdateFacts.one_sided_append
                (batches batchSize toAdd) 0 w) as H1.
  pose proof (@FailureFacts.process_throw _ P fuel env append_payload
                AppendBatch (length (batches batchSize toAdd))
                UpdateFacts.one_sided_append (batches batchSize toAdd) 0 w)
    as H2.
  cbn zeta in H1.
  destruct (process_batches P fuel env append_payload AppendBatch
              (length (batches batchSize toAdd)) 0 (batches batchSize toAdd) w)
    as [o w1 e1].
  cbn [outcome world events] in *.
  destruct o as [[]|e0|]; [| |discriminate].
  - intros O.
    destruct H1 as (_ & _ & _ & d1 & r1 & T1 & S1 & H1).
    destruct (H1 eq_refl) as (-> & A1 & _).
    rewrite app_nil_r in T1. rewrite <- T1 in S1.
    destruct (@FailureFacts.process_throw _ P fuel env remove_payload
                RemoveBatch (length (batches batchSize toRemove))
                UpdateFacts.one_sided_remove (batches batchSize toRemove) 0
                w1 e O)
      as (done & failing & rest & evs & reply & T & St & Ap & Ev & Er).
    exists (map append_payload (batches batchSize toAdd)
            ++ map remove_payload done),
      (remove_payload failing), (map remove_payload rest), (e1 ++ evs), reply.
    rewrite RunFacts.settled_app, RunFacts.applied_app, St, Ap, Ev, S1, A1.
    split; [rewrite T, map_app, <- app_assoc; reflexivity|].
    split; [rewrite map_app, <- app_assoc; reflexivity|].
    split; [reflexivity|]. split; [|assumption].
    rewrite <- app_assoc. do 3 f_equal.
    rewrite length_app, !length_map. unfold label_at.
    assert (L : (length (batches batchSize toAdd) + length done
                 <? length (batches batchSize toAdd)) = false)
      by (apply Nat.ltb_ge; lia).
    rewrite L.
    now replace (length (batches batchSize toAdd) + length done
                 - length (batches batchSize toAdd) + 1)
      with (0 + length done + 1) by lia.
  - intros [= <-].
    destruct (H2 e0 eq_refl)
      as (done & failing & rest & evs & reply & T & St & Ap & Ev & Er).
    exists (map append_payload done), (append_payload failing),
      (map append_payload rest ++ map remove_payload (batches batchSize toRemove)),
      evs, reply.
    rewrite app_nil_r, St, Ap, Ev.
    split; [rewrite T, map_app, <- app_assoc; reflexivity|].
    split; [rewrite map_app; reflexivity|].
    split; [reflexivity|]. split; [|assumption].
    do 3 f_equal.
    rewrite length_map. unfold label_at.
    assert (L : (length done <? length (batches batchSize toAdd)) = true).
    { apply Nat.ltb_lt. rewrite T, length_app. cbn [length]. lia. }
    rewrite L. reflexivity.
Qed.

Lemma failed_batch_stops_update_witness :
  let w := {| Scripted.replies := [inr updated; inr server_error];
              Scripted.active_prefixes := [] |} in
  let r := updateGatewayListBatched Scripted.platform 1 example_env
             ["1.1.1.0/24"%string] ["4.4.4.0/24"%string] 50 w in
  let e := ApiRequestFailed 500 (Garbage "Internal Server Error"%string) in
  (0 < 50 /\ outcome r = Throw e)
  /\ exists done failing rest evs reply,
       plan 50 ["1.1.1.0/24"%string] ["4.4.4.0/24"%string]
       = done ++ failing :: rest
       /\ settled (events r) = done ++ [failing]
       /\ applied (events r) = done
       /\ events r
          = evs ++ [Http (patch_request example_env failing) reply;
                    ConsoleError
                      (UpdateError
                         (label_at (length (batches 50 ["1.1.1.0/24"%string]))
                                   (length (batches 50 ["4.4.4.0/24"%string]))
                                   (length done)) e)]
       /\ e = update_error reply.
Proof.
  cbv zeta. split; [split; [lia | reflexivity]|].
  apply (@failed_batch_stops_update _ Scripted.platform 1 example_env
           ["1.1.1.0/24"%string] ["4.4.4.0/24"%string] 50
           {| Scripted.replies := [inr updated; inr server_error];
              Scripted.active_prefixes := [] |}
           (ApiRequestFailed 500 (Garbage "Internal Server Error"%string)));
    [lia | reflexivity].
Defined.

(** ** Batch sizes *)

Module SizeFacts.

Lemma batch_sizes_0 (n : nat) : batch_sizes n 0 = [].
Proof.
  unfold batch_sizes. rewrite Nat.Div0.div_0_l, Nat.Div0.mod_0_l. reflexivity.
Qed.

Lemma batch_sizes_last (n m : nat) :
  0 < m -> m <= n -> batch_sizes n m = [m].
Proof.
  intros Hm Hle. unfold batch_sizes.
  destruct (Nat.eq_dec m n) as [->|Hne].
  - rewrite Nat.div_same, Nat.Div0.mod_same by lia. reflexivity.
  - rewrite Nat.div_small, Nat.mod_small by lia. cbn [repeat app].
    destruct (Nat.eqb_spec m 0); [lia | reflexivity].
Qed.

Lemma batch_sizes_step (n m : nat) :
  0 < n -> n < m -> batch_sizes n m = n :: batch_sizes n (m - n).
Proof.
  intros Hn Hlt. unfold batch_sizes.
  assert (E : m = (m - n) + 1 * n) by lia.
  assert (D : m / n = S ((m - n) / n)).
  { rewrite E at 1. rewrite Nat.div_add by lia. lia. }
  assert (R : m mod n = (m - n) mod n).
  { rewrite E at 1. now rewrite Nat.Div0.mod_add. }
  rewrite D, R. reflexivity.
Qed.

Lemma sizes_from_full (n len : nat) :
  0 < n ->
  forall fuel i, len - i <= fuel ->
    sizes_from fuel i n len = batch_sizes n (len - i).
Proof.
  intros Hn. induction fuel as [|fuel IH]; intros i Hl.
  - replace (len - i) with 0 by lia. now rewrite batch_sizes_0.
  - cbn [sizes_from]. destruct (Nat.ltb_spec i len) as [Hlt|Hge].
    + rewrite IH by lia.
      destruct (Nat.le_gt_cases (len - i) n) as [Hle|Hgt].
      * rewrite Nat.min_r by lia.
        replace (len - (i + n)) with 0 by lia.
        rewrite batch_sizes_0. symmetry. apply batch_sizes_last; lia.
      * rewrite Nat.min_l by lia.
        replace (len - (i + n)) with (len - i - n) by lia.
        symmetry. apply batch_sizes_step; lia.
    + replace (len - i) with 0 by lia. now rewrite batch_sizes_0.
Qed.

Lemma length_batch_sizes (n len : nat) :
  0 < n -> length (batch_sizes n len) = (len + n - 1) / n.
Proof.
  intros Hn. unfold batch_sizes. rewrite length_app, repeat_length.
  pose proof (Nat.div_mod_eq len n) as D.
  pose proof (Nat.mod_upper_bound len n ltac:(lia)) as B.
  revert D B. generalize (len / n) (len mod n). intros q r D B.
  destruct (Nat.eqb_spec r 0) as [Z|NZ]; cbn [length].
  - apply Nat.div_unique with (r := n - 1); [lia|]. nia.
  - apply Nat.div_unique with (r := r - 1); [lia|]. nia.
Qed.

End SizeFacts.

(** X9.  With a positive batch size, the batches cut from a list are all
    full but possibly the last: as many batches of [batchSize] as fit,
    then one with the remainder if there is one; there are
    ceil(length / batchSize) of them and none is empty. *)
Theorem batches_full_but_last {A : Type} (batchSize : nat) (l : list A) :
  0 < batchSize ->
  map (@length A) (batches batchSize l) = batch_sizes batchSize (length l)
  /\ length (batches batchSize l) = (length l + batchSize - 1) / batchSize
  /\ Forall (fun b => 0 < length b) (batches batchSize l).
Proof.
  intros Hn.
  assert (M : map (@length A) (batches batchSize l)
              = batch_sizes batchSize (length l)).
  { rewrite (BatchFacts.sizes_batches l Hn).
    rewrite (@SizeFacts.sizes_from_full batchSize (length l) Hn) by lia.
    now rewrite Nat.sub_0_r. }
  split; [exact M|]. split.
  - rewrite <- (length_map (@length A)), M.
    now apply SizeFacts.length_batch_sizes.
  - assert (F : Forall (fun n => 0 < n) (map (@length A) (batches batchSize l))).
    { rewrite M. unfold batch_sizes. apply Forall_app. split.
      - apply Forall_forall. intros x Hx. apply repeat_spec in Hx. lia.
      - destruct (Nat.eqb_spec (length l mod batchSize) 0);
          constructor; [lia | constructor]. }
    apply Forall_forall. intros b Hb.
    apply (proj1 (Forall_forall _ _) F). now apply in_map.
Qed.

Lemma batches_full_but_last_witness :
  0 < 50
  /\ map (@length nat) (batches 50 (seq 0 120)) = [50; 50; 20]
  /\ length (batches 50 (seq 0 120)) = 3.
Proof.
  destruct (@batches_full_but_last nat 50 (seq 0 120) ltac:(lia))
    as (M & L & _).
  split; [lia|]. split; [exact M | exact L].
Defined.

(** ** The local record of what was synced *)

Module LocalFacts.
Import RunFacts StageFacts.

Section Local.
Context {W : Type}.
Variable P : Platform W.

Lemma insert_batches_calls (table : string) (todo : list (list string)) :
  forall w : W,
    let r := insert_batches P table todo w in
    events r = map Db (db_calls (events r))
    /\ outcome r <> Pending
    /\ (exists rest, map (InsertSynced table) todo = db_calls (events r) ++ rest)
    /\ (outcome r = Return tt ->
        db_calls (events r) = map (InsertSynced table) todo)
    /\ (forall e, outcome r = Throw e -> exists message, e = D1Exception message).
Proof.
  induction todo as [|b todo IH]; intros w; cbv zeta.
  - cbn. repeat split; try discriminate. now exists [].
  - cbn [insert_batches]. rewrite events_bind, outcome_bind, query_run.
    cbn [outcome world events].
    destruct (d1 P (InsertSynced table b) w) as [[msg|reply] w1];
      cbn [fst snd].
    + cbn. repeat split; try discriminate.
      * now exists (map (InsertSynced table) todo).
      * intros e [= <-]. eauto.
    + destruct (IH w1) as (Ev & NP & (rest & Pre) & Ret & Thr).
      rewrite db_calls_app. cbn [db_calls flat_map app map].
      split; [now rewrite Ev at 1|]. split; [assumption|].
      split; [exists rest; now rewrite Pre|].
      split; [intros O; now rewrite (Ret O) | assumption].
Qed.

Lemma updateSynced_calls (table : string)
    (prefixes : list string) (w : W) :
  let r := updateSyncedPrefixes P table prefixes w in
  events r = map Db (db_calls (events r))
  /\ (exists ran rest,
        db_calls (events r) = DeleteSynced table :: ran
        /\ replace_statements table prefixes = DeleteSynced table :: ran ++ rest)
  /\ (outcome r = Return tt ->
      db_calls (events r) = replace_statements table prefixes)
  /\ (forall e, outcome r = Throw e ->
      exists message, e = UpdateSyncedFailed table (D1Exception message))
  /\ outcome r <> Pending
  /\ concat (batches 100 prefixes) = prefixes
  /\ Forall (fun b => 1 <= length b <= 100) (batches 100 prefixes).
Proof.
  cbv zeta. unfold updateSyncedPrefixes, replace_statements.
  rewrite events_rethrow, outcome_rethrow, events_bind, outcome_bind.
  rewrite query_run. cbn [outcome world events].
  assert (Hb : 0 < 100) by lia.
  assert (Tail : concat (batches 100 prefixes) = prefixes
                 /\ Forall (fun b => 1 <= length b <= 100)
                      (batches 100 prefixes)).
  { split; [now apply BatchFacts.concat_batches
           | now apply BatchFacts.bounded_batches]. }
  destruct (d1 P (DeleteSynced table) w) as [[msg|reply] w1]; cbn [fst snd].
  - cbn. repeat split; try discriminate; try apply Tail.
    + exists [], (map (InsertSynced table) (batches 100 prefixes)). auto.
    + intros e [= <-]. eauto.
  - destruct prefixes as [|p prefixes]; cbn [length Nat.eqb].
    + cbn. repeat split; try discriminate; try apply Tail.
      exists [], []. auto.
    + destruct (insert_batches_calls table
                  (batches 100 (p :: prefixes)) w1)
        as (Ev & NP & (rest & Pre) & Ret & Thr).
      rewrite db_calls_app. cbn [db_calls flat_map app map].
      split; [now rewrite Ev at 1|].
      split; [exists (db_calls (events (insert_batches P table
                                          (batches 100 (p :: prefixes)) w1))),
                rest; now rewrite Pre|].
      split.
      { destruct (outcome (insert_batches P table _ w1)) as [[]| |];
          try discriminate. intros _. now rewrite Ret. }
      split.
      { intros e.
        destruct (outcome (insert_batches P table _ w1)) as [[]|e0|];
          try discriminate.
        intros [= <-]. destruct (Thr e0 eq_refl) as [message ->]. eauto. }
      split; [|exact Tail].
      destruct (outcome (insert_batches P table _ w1)); congruence.
Qed.


Lemma recordSyncTime_run (asn : string) (w : W) :
  events (recordSyncTime P asn w) = [Db (UpsertSyncState asn (now P w))]
  /\ (forall e, outcome (recordSyncTime P asn w) = Throw e ->
      exists message, e = RecordSyncTimeFailed asn (D1Exception message))
  /\ outcome (recordSyncTime P asn w) <> Pending.
Proof.
  unfold recordSyncTime, catch, bind, query, toISOString_now. cbn.
  destruct (d1 P (UpsertSyncState asn (now P w)) w) as [[msg|reply] w1]; cbn;
    repeat split; try discriminate.
  intros e [= <-]. eauto.
Qed.

End Local.

(** On the faithful platform. *)

Lemma seen_row (asn p : string) (kept : list (string * string))
    (acc : list string) :
  forallb (other_asn asn) kept = true ->
  existsb (Faithful.same_row (asn, p)) (kept ++ map (pair asn) acc)
  = JSSet.has acc p.
Proof.
  intros K. rewrite existsb_app.
  assert (E1 : existsb (Faithful.same_row (asn, p)) kept = false).
  { induction kept as [|row kept IH]; [reflexivity|].
    cbn [forallb] in K. apply andb_true_iff in K as [K1 K2].
    cbn [existsb]. rewrite (IH K2), orb_false_r.
    unfold Faithful.same_row, other_asn in *. cbn [fst snd].
    rewrite String.eqb_sym. apply negb_true_iff in K1. now rewrite K1. }
  rewrite E1. cbn [orb]. unfold JSSet.has.
  induction acc as [|q acc IH]; [reflexivity|].
  cbn [map existsb]. rewrite IH. f_equal.
  unfold Faithful.same_row. cbn [fst snd]. now rewrite String.eqb_refl.
Qed.

Lemma insert_all_fold (asn : string) (kept : list (string * string)) :
  forallb (other_asn asn) kept = true ->
  forall (ps acc : list string),
    fst (Faithful.insert_all asn ps (kept ++ map (pair asn) acc))
    = kept ++ map (pair asn) (fold_left JSSet.add ps acc).
Proof.
  intros K. induction ps as [|p ps IH]; intros acc; [reflexivity|].
  cbn [Faithful.insert_all fold_left]. unfold Faithful.insert_or_ignore.
  rewrite (seen_row asn p kept acc K). unfold JSSet.add at 2.
  destruct (JSSet.has acc p).
  - specialize (IH acc).
    destruct (Faithful.insert_all asn ps (kept ++ map (pair asn) acc)).
    exact IH.
  - specialize (IH (acc ++ [p])).
    rewrite map_app, app_assoc in IH. cbn [map] in IH.
    destruct (Faithful.insert_all asn ps
                ((kept ++ map (pair asn) acc) ++ [(asn, p)])).
    exact IH.
Qed.

Lemma faithful_insert_batches (asn : string) (kept : list (string * string)) :
  forallb (other_asn asn) kept = true ->
  forall (todo : list (list string)) (acc : list string) (w : Faithful.World),
    Faithful.synced_prefixes w = kept ++ map (pair asn) acc ->
    world (insert_batches Faithful.platform asn todo w)
    = Faithful.set_local w
        (kept ++ map (pair asn) (fold_left JSSet.add (concat todo) acc))
        (Faithful.sync_state w).
Proof.
  intros K. induction todo as [|b todo IH]; intros acc w S.
  - cbn. rewrite <- S. now destruct w.
  - cbn [insert_batches concat]. rewrite world_bind, fold_left_app.
    unfold query at 1 2. cbn [d1 Faithful.platform Faithful.database].
    pose proof (insert_all_fold asn kept K b acc) as F. rewrite <- S in F.
    destruct (Faithful.insert_all asn b (Faithful.synced_prefixes w))
      as [t ns].
    cbn [fst snd outcome world] in *.
    rewrite (IH (fold_left JSSet.add b acc)
               (Faithful.set_local w t (Faithful.sync_state w)));
      [reflexivity | exact F].
Qed.

Lemma other_filter (asn : string) (t : list (string * string)) :
  forallb (other_asn asn) (filter (other_asn asn) t) = true.
Proof.
  apply forallb_forall. intros row H. now apply filter_In in H.
Qed.

Lemma filter_other_rows (asn : string) (kept : list (string * string))
    (ps : list string) :
  forallb (other_asn asn) kept = true ->
  filter (other_asn asn) (kept ++ map (pair asn) ps) = kept.
Proof.
  intros K. rewrite filter_app.
  assert (E1 : filter (other_asn asn) kept = kept).
  { induction kept as [|row kept IH]; [reflexivity|].
    cbn [forallb] in K. apply andb_true_iff in K as [K1 K2].
    cbn [filter]. rewrite K1. f_equal. now apply IH. }
  assert (E2 : filter (other_asn asn) (map (pair asn) ps) = []).
  { induction ps as [|p ps IH]; [reflexivity|].
    cbn [map filter]. unfold other_asn at 1. cbn [fst].
    now rewrite String.eqb_refl. }
  now rewrite E1, E2, app_nil_r.
Qed.

Lemma updateSynced_world (table : string) (prefixes : list string)
    (w : Faithful.World) :
  world (updateSyncedPrefixes Faithful.platform table prefixes w)
  = Faithful.set_local w
      (filter (other_asn table) (Faithful.synced_prefixes w)
       ++ map (pair table) (JSSet.from prefixes))
      (Faithful.sync_state w).
Proof.
  unfold updateSyncedPrefixes.
  rewrite world_rethrow, world_bind.
  unfold query at 1 2. cbn [d1 Faithful.platform Faithful.database].
  cbn [fst snd outcome world].
  destruct prefixes as [|p prefixes]; cbn [length Nat.eqb].
  - cbn. now rewrite app_nil_r.
  - rewrite (@faithful_insert_batches table
               (filter (other_asn table) (Faithful.synced_prefixes w))
               (other_filter table _)
               (batches 100 (p :: prefixes)) []).
    + rewrite BatchFacts.concat_batches by lia. reflexivity.
    + cbn. now rewrite app_nil_r.
Qed.

End LocalFacts.

(** X10.  [updateSyncedPrefixes] runs a prefix of the statements "delete
    the rows of the ASN, then insert the prefixes in batches of 100", in
    that order and starting with the delete, and nothing else; it
    returns only after all of them.  An empty list of prefixes needs no
    case of its own: it has no batch.  A failure is the exception of the
    failing statement wrapped once in "Failed to update synced prefixes
    for <table>"; the statements run before it are not undone. *)
Theorem local_record_statements {W : Type} (P : Platform W) (table : string)
    (prefixes : list string) (w : W) :
  let r := updateSyncedPrefixes P table prefixes w in
  events r = map Db (db_calls (events r))
  /\ (exists ran rest,
        db_calls (events r) = DeleteSynced table :: ran
        /\ replace_statements table prefixes = DeleteSynced table :: ran ++ rest)
  /\ (outcome r = Return tt ->
      db_calls (events r) = replace_statements table prefixes)
  /\ (forall e, outcome r = Throw e ->
      exists message, e = UpdateSyncedFailed table (D1Exception message))
  /\ outcome r <> Pending
  /\ concat (batches 100 prefixes) = prefixes
  /\ Forall (fun b => 1 <= length b <= 100) (batches 100 prefixes).
Proof. apply LocalFacts.updateSynced_calls. Qed.

(** X11.  On the faithful database, [updateSyncedPrefixes] returns and
    leaves in [synced_prefixes] the rows of the other ASNs as they
    were, followed by one row for each distinct prefix given, in the
    order of first occurrence; nothing else changes, and running it
    again with the same prefixes changes nothing. *)
Theorem local_record_replaced (table : string) (prefixes : list string)
    (w : Faithful.World) :
  let r := updateSyncedPrefixes Faithful.platform table prefixes w in
  let rows := filter (other_asn table) (Faithful.synced_prefixes w)
              ++ map (pair table) (JSSet.from prefixes) in
  outcome r = Return tt
  /\ world r = Faithful.set_local w rows (Faithful.sync_state w)
  /\ world (updateSyncedPrefixes Faithful.platform table prefixes (world r))
     = world r.
Proof.
  cbv zeta.
  split; [apply FaithfulFacts.faithful_updateSynced|].
  split; [apply LocalFacts.updateSynced_world|].
  rewrite !LocalFacts.updateSynced_world.
  cbn [Faithful.set_local Faithful.synced_prefixes Faithful.sync_state
         Faithful.tables Faithful.gateway_list Faithful.clock].
  rewrite LocalFacts.filter_other_rows by apply LocalFacts.other_filter.
  reflexivity.
Qed.

(** ** The statements of a sync that returns *)

Module OrderFacts.
Import RunFacts UpdateFacts StageFacts.

(** One step through a [bind] of a computation whose outcome is known
    to be a return. *)
Ltac peel O Ev Wr :=
  rewrite outcome_bind in O; rewrite events_bind in Ev;
  rewrite world_bind in Wr;
  match type of O with
  | context [match outcome ?m with _ => _ end] =>
      let a := fresh "a" in
      let E := fresh "E" in
      destruct (outcome m) as [a| |] eqn:E; try discriminate O
  end.

Section Order.
Context {W : Type}.
Variable P : Platform W.

Lemma fetchCurrent_requests (env : Env) (w : W) :
  requests (events (fetchCurrentGatewayList P env w)) = [get_request env].
Proof.
  rewrite fetchCurrent_run. cbn [outcome world events].
  destruct (global_fetch P (get_request env) w) as [reply w']. cbn [fst snd].
  unfold read_outcome.
  destruct reply as [msg|res]; [reflexivity|].
  destruct (ok res); [|reflexivity].
  destruct (body res) as [text| |data]; [reflexivity|reflexivity|].
  destruct (listed_items data) as [| |elements]; try reflexivity.
  destruct (item_values elements); reflexivity.
Qed.

(** The stages of a sync that returns: each of them has returned, on
    the world the one before left. *)
Lemma returned_stages (fuel : nat) (env : Env) (asn : string) (w : W) :
  outcome (syncASN P fuel env asn w) = Return tt ->
  let w0 := world (query P (SelectLastRun asn) w) in
  let w1 := world (fetchDesiredPrefixes P asn w0) in
  let w2 := world (fetchCurrentGatewayList P env w1) in
  exists desired existing,
    let vd := validDesired desired in
    let A := toAdd vd existing in
    let R := toRemove vd existing in
    let test := match A with
                | first :: _ => testGatewayListUpdate P env first
                | [] => ret tt
                end in
    let w4 := world (updateGatewayListBatched P fuel env A R 50 w2) in
    let w5 := world (test w4) in
    let w6 := world (updateSyncedPrefixes P asn vd w5) in
    (isValidASN asn = true /\ DB env = true /\ configured env = true)
    /\ (exists lastRun,
          outcome (query P (SelectLastRun asn) w) = Return lastRun)
    /\ outcome (fetchDesiredPrefixes P asn w0) = Return desired
    /\ outcome (fetchCurrentGatewayList P env w1) = Return existing
    /\ vd <> []
    /\ outcome (updateGatewayListBatched P fuel env A R 50 w2) = Return tt
    /\ outcome (test w4) = Return tt
    /\ outcome (updateSyncedPrefixes P asn vd w5) = Return tt
    /\ outcome (recordSyncTime P asn w6) = Return tt
    /\ world (syncASN P fuel env asn w) = world (recordSyncTime P asn w6)
    /\ events (syncASN P fuel env asn w)
       = events (query P (SelectLastRun asn) w)
         ++ events (fetchDesiredPrefixes P asn w0)
         ++ events (fetchCurrentGatewayList P env w1)
         ++ (if negb (length vd =? length desired)
             then [ConsoleWarn (SkippedPrefixes (length desired - length vd))]
             else [])
         ++ events (updateGatewayListBatched P fuel env A R 50 w2)
         ++ events (test w4)
         ++ events (updateSyncedPrefixes P asn vd w5)
         ++ events (recordSyncTime P asn w6).
Proof.
  intros O. cbv zeta.
  remember (events (syncASN P fuel env asn w)) as evs eqn:Ev.
  remember (world (syncASN P fuel env asn w)) as wr eqn:Wr.
  unfold syncASN in O, Ev, Wr.
  destruct (isValidASN asn) eqn:V; cbn [negb] in O, Ev, Wr; [|discriminate].
  destruct (DB env) eqn:D; cbn [negb] in O, Ev, Wr; [|discriminate].
  destruct (negb (truthy (ACCOUNT_ID env)) || negb (truthy (LIST_ID env))
            || negb (truthy (API_EMAIL env)) || negb (truthy (API_KEY env)))
    eqn:C; [discriminate|].
  assert (Cf : configured env = true).
  { unfold configured.
    destruct (truthy (ACCOUNT_ID env)), (truthy (LIST_ID env)),
      (truthy (API_EMAIL env)), (truthy (API_KEY env));
      try discriminate C; reflexivity. }
  clear C.
  peel O Ev Wr. peel O Ev Wr. peel O Ev Wr. peel O Ev Wr.
  match type of E with outcome _ = Return ?a => rename a into lastRun end.
  match type of E0 with outcome _ = Return ?a => rename a into desired end.
  match type of E1 with outcome _ = Return ?a => rename a into existing end.
  destruct (fetchDesired_trace P asn (world (query P (SelectLastRun asn) w)))
    as (_ & _ & _ & _ & Ne).
  specialize (Ne desired E0).
  exists desired, existing.
  destruct (negb (length (validDesired desired) =? length desired));
    cbn [console_warn emit ret world events] in O, Ev, Wr;
    (destruct ((length (validDesired desired) =? 0) && (0 <? length desired))
       eqn:C; [discriminate|]);
    peel O Ev Wr; peel O Ev Wr; peel O Ev Wr;
    repeat match goal with u : unit |- _ => destruct u end;
    subst evs wr.
  all: split; [auto|]; split; [eauto|].
  all: split; [reflexivity|]; split; [reflexivity|].
  all: split;
    [intros Vd; rewrite Vd in C; cbn in C;
     destruct desired; [contradiction | discriminate]|].
  all: repeat (split; [first [reflexivity | assumption]|]).
  all: split; reflexivity.
Qed.

Lemma returned_calls (fuel : nat) (env : Env) (asn : string) (w : W) :
  outcome (syncASN P fuel env asn w) = Return tt ->
  exists desired w',
    outcome (fetchDesiredPrefixes P asn (world (query P (SelectLastRun asn) w)))
    = Return desired
    /\ validDesired desired <> []
    /\ db_calls (events (syncASN P fuel env asn w))
       = SelectLastRun asn :: SelectActivePrefixes asn
         :: replace_statements asn (validDesired desired)
         ++ [UpsertSyncState asn (now P w')].
Proof.
  intros O.
  destruct (returned_stages fuel env asn w O)
    as (desired & existing & _ & _ & E0 & E1 & Ne & E4 & E5 & E6 & E7 & _ & Ev).
  cbv zeta in *.
  set (w0 := world (query P (SelectLastRun asn) w)) in *.
  set (w1 := world (fetchDesiredPrefixes P asn w0)) in *.
  set (w2 := world (fetchCurrentGatewayList P env w1)) in *.
  set (w4 := world (updateGatewayListBatched P fuel env
                      (toAdd (validDesired desired) existing)
                      (toRemove (validDesired desired) existing) 50 w2)) in *.
  match type of E5 with
  | outcome ?r = _ => set (w5 := world r) in *
  end.
  set (w6 := world (updateSyncedPrefixes P asn (validDesired desired) w5)) in *.
  exists desired, w6. split; [assumption|]. split; [assumption|].
  rewrite Ev, !db_calls_app.
  rewrite query_run. cbn [events db_calls flat_map app].
  destruct (LoaderFacts.fetchDesired_Return P asn w0 E0) as (Ev1 & _).
  rewrite Ev1. cbn [db_calls flat_map app].
  destruct (fetchCurrent_trace P env w1) as (D2 & _). rewrite D2.
  assert (D3 : db_calls
                 (if negb (length (validDesired desired) =? length desired)
                  then [ConsoleWarn
                          (SkippedPrefixes
                             (length desired - length (validDesired desired)))]
                  else []) = []).
  { destruct (negb (length (validDesired desired) =? length desired));
      reflexivity. }
  rewrite D3.
  destruct (batched_trace P fuel env (toAdd (validDesired desired) existing)
              (toRemove (validDesired desired) existing) w2
              (batchSize := 50) ltac:(lia)) as (D4 & _).
  rewrite D4.
  assert (D5 : db_calls
                 (events
                    (match toAdd (validDesired desired) existing with
                     | first :: _ => testGatewayListUpdate P env first
                     | [] => ret tt
                     end w4)) = []).
  { destruct (toAdd (validDesired desired) existing) as [|first rest];
      [reflexivity|].
    now destruct (probe_trace P env first w4) as (D5 & _). }
  rewrite D5.
  destruct (LocalFacts.updateSynced_calls P asn (validDesired desired) w5)
    as (_ & _ & Ret & _).
  rewrite (Ret E6).
  destruct (LocalFacts.recordSyncTime_run P asn w6) as (Ev7 & _).
  rewrite Ev7. reflexivity.
Qed.

Lemma writes_replace (table : string) (prefixes : list string) :
  filter is_write (replace_statements table prefixes)
  = replace_statements table prefixes.
Proof.
  unfold replace_statements. cbn [filter is_write]. f_equal.
  induction (batches 100 prefixes) as [|b bs IH]; [reflexivity|].
  cbn [map filter is_write]. now rewrite IH.
Qed.

End Order.
End OrderFacts.

(** X12.  A sync that returns has run exactly these statements, in this
    order: the read of the last run, the read of the active prefixes,
    the delete of the rows of the ASN, the inserts of the valid
    prefixes in batches of 100, and the upsert of the time of the sync,
    which is the last one.  The valid prefixes are not empty. *)
Theorem returned_sync_statements {W : Type} (P : Platform W) (fuel : nat)
    (env : Env) (asn : string) (w : W) :
  let r := syncASN P fuel env asn w in
  outcome r = Return tt ->
  exists desired w',
    outcome (fetchDesiredPrefixes P asn (world (query P (SelectLastRun asn) w)))
    = Return desired
    /\ validDesired desired <> []
    /\ db_calls (events r)
       = SelectLastRun asn :: SelectActivePrefixes asn
         :: replace_statements asn (validDesired desired)
         ++ [UpsertSyncState asn (now P w')]
    /\ writes (events r)
       = replace_statements asn (validDesired desired)
         ++ [UpsertSyncState asn (now P w')].
Proof.
  cbv zeta. intros O.
  destruct (OrderFacts.returned_calls P fuel env asn w O)
    as (desired & w' & E & Ne & Calls).
  exists desired, w'. repeat split; try assumption.
  unfold writes. rewrite Calls. cbn [filter is_write].
  now rewrite filter_app, OrderFacts.writes_replace.
Qed.

Lemma returned_sync_statements_witness :
  let r := syncASN Faithful.platform 1 example_env "AS64500" example_world in
  outcome r = Return tt
  /\ exists desired w',
       outcome (fetchDesiredPrefixes Faithful.platform "AS64500"
                  (world (query Faithful.platform (SelectLastRun "AS64500")
                            example_world)))
       = Return desired
       /\ validDesired desired <> []
       /\ db_calls (events r)
          = SelectLastRun "AS64500" :: SelectActivePrefixes "AS64500"
            :: replace_statements "AS64500" (validDesired desired)
            ++ [UpsertSyncState "AS64500" (now Faithful.platform w')]
       /\ writes (events r)
          = replace_statements "AS64500" (validDesired desired)
            ++ [UpsertSyncState "AS64500" (now Faithful.platform w')].
Proof.
  cbv zeta. split; [vm_compute; reflexivity|].
  apply (@returned_sync_statements _ Faithful.platform 1 example_env
           "AS64500"%string example_world).
  vm_compute. reflexivity.
Defined.

(** ** Desired prefixes that are all malformed *)

(** X13.  When the table has active rows but none of them is a
    well-formed prefix, the sync stops after reading the Gateway list:
    it warns that all rows were skipped, throws "No valid prefixes
    after filtering", and sends no PATCH and writes nothing, so the
    Gateway list is not emptied. *)
Theorem malformed_desired_stops {W : Type} (P : Platform W) (fuel : nat)
    (env : Env) (asn : string) (w : W) (lastRun : option string)
    (desired existing : list string) :
  isValidASN asn = true -> DB env = true -> configured env = true ->
  let w0 := world (query P (SelectLastRun asn) w) in
  let w1 := world (fetchDesiredPrefixes P asn w0) in
  outcome (query P (SelectLastRun asn) w) = Return lastRun ->
  outcome (fetchDesiredPrefixes P asn w0) = Return desired ->
  outcome (fetchCurrentGatewayList P env w1) = Return existing ->
  Forall (fun p => isValidCIDR p = false) desired ->
  let r := syncASN P fuel env asn w in
  outcome r = Throw NoValidPrefixes
  /\ world r = world (fetchCurrentGatewayList P env w1)
  /\ requests (events r) = [get_request env]
  /\ writes (events r) = []
  /\ exists evs,
       events r = evs ++ [ConsoleWarn (SkippedPrefixes (length desired))].
Proof.
  intros V D C w0 w1 E E0 E1 Bad. cbv zeta.
  assert (VD : validDesired desired = []).
  { unfold validDesired.
    replace (filter isValidCIDR desired) with (@nil string); [reflexivity|].
    symmetry. clear - Bad. induction Bad as [|p l Hp _ IH]; [reflexivity|].
    cbn beta in Hp. cbn [filter]. rewrite Hp. exact IH. }
  destruct (StageFacts.fetchDesired_trace P asn w0) as (R0 & W0 & _ & _ & Ne).
  specialize (Ne desired E0).
  assert (Len : 0 < length desired) by (destruct desired; [contradiction | cbn; lia]).
  unfold syncASN. rewrite V, D, (StageFacts.configured_passes _ C).
  cbn [negb].
  assert (C1 : negb (0 =? length desired) = true)
    by (destruct desired; [contradiction | reflexivity]).
  assert (C2 : (0 =? 0) && (0 <? length desired) = true)
    by (destruct desired; [contradiction | reflexivity]).
  subst w0 w1.
  rewrite ?outcome_bind, ?events_bind, ?world_bind, E. cbn beta iota.
  rewrite ?outcome_bind, ?events_bind, ?world_bind, E0. cbn beta iota.
  rewrite ?outcome_bind, ?events_bind, ?world_bind, E1. cbn beta iota.
  rewrite VD. cbn [length]. rewrite C1, C2, Nat.sub_0_r.
  rewrite ?outcome_bind, ?events_bind, ?world_bind.
  cbn [console_warn emit throw outcome world events].
  set (w0 := world (query P (SelectLastRun asn) w)) in *.
  set (w1 := world (fetchDesiredPrefixes P asn w0)) in *.
  destruct (LoaderFacts.fetchDesired_Return P asn w0 E0) as (Ev0 & _).
  pose proof (OrderFacts.fetchCurrent_requests P env w1) as R1.
  destruct (StageFacts.fetchCurrent_trace P env w1) as (D1 & _).
  rewrite Ev0, StageFacts.query_run. cbn [events]. rewrite app_nil_r.
  split; [reflexivity|]. split; [reflexivity|].
  unfold writes.
  rewrite !RunFacts.requests_app, !RunFacts.db_calls_app, R1, D1.
  split; [reflexivity|]. split; [reflexivity|].
  exists ([Db (SelectLastRun asn)] ++ [Db (SelectActivePrefixes asn)]
          ++ events (fetchCurrentGatewayList P env w1)).
  now rewrite <- !app_assoc.
Qed.

Lemma malformed_desired_stops_witness :
  let w := {| Scripted.replies := [inr updated];
              Scripted.active_prefixes := ["10.0.0.0"; "not a prefix"]%string |} in
  let r := syncASN Scripted.platform 1 example_env "AS64500" w in
  outcome r = Throw NoValidPrefixes
  /\ requests (events r) = [get_request example_env]
  /\ writes (events r) = [].
Proof.
  cbv zeta.
  destruct (@malformed_desired_stops _ Scripted.platform 1 example_env
              "AS64500"%string
              {| Scripted.replies := [inr updated];
                 Scripted.active_prefixes := ["10.0.0.0"; "not a prefix"]%string |}
              None ["10.0.0.0"; "not a prefix"]%string [])
    as (O & _ & R & Wr & _).
  - vm_compute. reflexivity.
  - reflexivity.
  - reflexivity.
  - reflexivity.
  - reflexivity.
  - vm_compute. reflexivity.
  - repeat constructor.
  - repeat split; assumption.
Defined.

(** ** The requests of a sync *)

Module RequestFacts.
Import RunFacts UpdateFacts StageFacts.

Section Requests.
Context {W : Type}.
Variable P : Platform W.
Variable env : Env.

Lemma patching_bind {A B : Type} (m : Run W A) (f : A -> Run W B) (w : W) :
  only_patches env (events (m w)) ->
  (forall a, only_patches env (events (f a (world (m w))))) ->
  only_patches env (events (bind m f w)).
Proof.
  unfold only_patches. intros Hm Hf.
  rewrite events_bind, requests_app. apply Forall_app.
  split; [assumption|]. destruct (outcome (m w)); [apply Hf | |]; constructor.
Qed.

Lemma patching_quiet (evs : list Event) : requests evs = [] -> only_patches env evs.
Proof. unfold only_patches. intros ->. constructor. Qed.

Lemma patching_single (p : Payload) (label : BatchLabel) :
  one_sided p = true ->
  forall (fuel : nat) (w : W),
    only_patches env (events (updateGatewayListSingle P fuel env p label w)).
Proof.
  intros Hp. induction fuel as [|fuel IH]; intros w.
  - rewrite single_zero by assumption. constructor.
  - rewrite single_step by assumption. apply patching_bind.
    + unfold only_patches.
      rewrite attempt_run. cbn [events]. unfold attempt_outcome.
      change (requests (Http (patch_request env p) ?r :: ?evs))
        with (patch_request env p :: requests evs).
      constructor; [exists p; auto|].
      destruct (rate_limited _); [constructor|].
      destruct (accepted _); constructor.
    + intros [r|]; [constructor | apply IH].
Qed.

Lemma patching_process (fuel : nat) (make : list string -> Payload)
    (k : BatchKind) (count : nat) :
  (forall b, one_sided (make b) = true) ->
  forall (todo : list (list string)) (i : nat) (w : W),
    only_patches env (events (process_batches P fuel env make k count i todo w)).
Proof.
  intros Hmake. induction todo as [|b todo IH]; intros i w; [constructor|].
  cbn [process_batches]. apply patching_bind.
  - now apply patching_single.
  - intros _. apply IH.
Qed.

Lemma patching_batched (fuel : nat) (toAdd toRemove : list string)
    (batchSize : nat) (w : W) :
  only_patches env (events (updateGatewayListBatched P fuel env toAdd toRemove
                      batchSize w)).
Proof.
  unfold updateGatewayListBatched.
  destruct (loops_forever batchSize toAdd); [constructor|].
  destruct (loops_forever batchSize toRemove); [constructor|].
  apply patching_bind.
  - apply patching_process. apply one_sided_append.
  - intros _. apply patching_process. apply one_sided_remove.
Qed.

Lemma probe_requests (prefix : string) (w : W) :
  requests (events (testGatewayListUpdate P env prefix w))
  = [patch_request env
       {| append := Some [ {| value := prefix |} ]; remove := None |}].
Proof.
  unfold testGatewayListUpdate, catch, bind, fetch_url.
  destruct (global_fetch P _ w) as [[msg|res] w']; [reflexivity|].
  cbn [outcome world events].
  destruct (ok res); cbn [negb]; [|reflexivity].
  destruct (body res) as [text| |json]; [reflexivity|reflexivity|].
  destruct (success json); reflexivity.
Qed.

Lemma patching_after_read (fuel : nat) (asn : string)
    (desired existing : list string) (w : W) :
  only_patches env
    (events
       (bind (if negb (length (validDesired desired) =? length desired)
              then console_warn
                     (SkippedPrefixes
                        (length desired - length (validDesired desired)))
              else ret tt)
          (fun _ =>
             if (length (validDesired desired) =? 0) && (0 <? length desired)
             then throw NoValidPrefixes
             else
               bind (updateGatewayListBatched P fuel env
                       (toAdd (validDesired desired) existing)
                       (toRemove (validDesired desired) existing) 50)
                 (fun _ =>
                    bind (match toAdd (validDesired desired) existing with
                          | first :: _ => testGatewayListUpdate P env first
                          | [] => ret tt
                          end)
                      (fun _ =>
                         bind (updateSyncedPrefixes P asn
                                 (validDesired desired))
                           (fun _ => recordSyncTime P asn)))) w)).
Proof.
  apply patching_bind.
  { destruct (negb _); constructor. }
  intros _. destruct (_ && _); [constructor|].
  apply patching_bind; [apply patching_batched|]. intros _.
  apply patching_bind.
  { destruct (toAdd (validDesired desired) existing) as [|first rest];
      [constructor|].
    unfold only_patches.
    rewrite probe_requests. constructor; [|constructor].
    eexists. split; reflexivity. }
  intros _. apply patching_bind.
  - apply patching_quiet. apply updateSynced_trace.
  - intros _. apply patching_quiet. apply recordSyncTime_trace.
Qed.

Lemma sync_requests (fuel : nat) (asn : string) (w : W) :
  requests (events (syncASN P fuel env asn w)) = []
  \/ exists rest,
       requests (events (syncASN P fuel env asn w)) = get_request env :: rest
       /\ Forall (is_patch_of env) rest.
Proof.
  unfold syncASN.
  destruct (negb (isValidASN asn)); [now left|].
  destruct (negb (DB env)); [now left|].
  destruct (negb (truthy (ACCOUNT_ID env)) || negb (truthy (LIST_ID env))
            || negb (truthy (API_EMAIL env)) || negb (truthy (API_KEY env)));
    [now left|].
  rewrite events_bind, requests_app, query_run. cbn [outcome world events].
  change (requests [Db (SelectLastRun asn)]) with (@nil Request).
  cbn [app].
  destruct (fst (d1 P (SelectLastRun asn) w)) as [msg|lastRun]; [now left|].
  rewrite events_bind, requests_app.
  destruct (fetchDesired_trace P asn (snd (d1 P (SelectLastRun asn) w)))
    as (R0 & _).
  rewrite R0. cbn [app].
  destruct (outcome (fetchDesiredPrefixes P asn _)) as [desired| |];
    [|now left|now left].
  right. rewrite events_bind, requests_app.
  rewrite (OrderFacts.fetchCurrent_requests P env). cbn [app].
  eexists. split; [reflexivity|].
  destruct (outcome (fetchCurrentGatewayList P env _)) as [existing| |];
    [|constructor|constructor].
  apply patching_after_read.
Qed.

End Requests.
End RequestFacts.

(** X14.  Whatever happens, the requests of a sync are either none, or
    one GET of the Gateway list followed only by PATCH requests of the
    same list, each with exactly one of [append] and [remove]: every
    request goes to the list's URL with the same credentials, and the
    list is read once, before any change. *)
Theorem sync_requests_shape {W : Type} (P : Platform W) (fuel : nat)
    (env : Env) (asn : string) (w : W) :
  let reqs := requests (events (syncASN P fuel env asn w)) in
  (reqs = []
   \/ exists rest, reqs = get_request env :: rest
                   /\ Forall (is_patch_of env) rest)
  /\ Forall (fun req => url req = gateway_url env
                        /\ headers req = gateway_headers env) reqs.
Proof.
  cbv zeta.
  pose proof (RequestFacts.sync_requests P env fuel asn w) as S.
  split; [exact S|].
  destruct S as [-> | (rest & -> & F)]; [constructor|].
  constructor; [split; reflexivity|].
  eapply Forall_impl; [|exact F].
  intros req (p & -> & _). split; reflexivity.
Qed.

(** ** The state a sync leaves on the faithful platform *)

Module StateFacts.
Import RunFacts UpdateFacts StageFacts.

Lemma keeps_ret {A : Type} (a : A) : keeps_local (ret a).
Proof. intros w. reflexivity. Qed.

Lemma keeps_throw {A : Type} (e : Error) : keeps_local (throw (A := A) e).
Proof. intros w. reflexivity. Qed.

Lemma keeps_pending {A : Type} : keeps_local (pending (A := A)).
Proof. intros w. reflexivity. Qed.

Lemma keeps_emit (ev : Event) : keeps_local (emit ev).
Proof. intros w. reflexivity. Qed.

Lemma keeps_bind {A B : Type} (m : Run Faithful.World A)
    (f : A -> Run Faithful.World B) :
  keeps_local m -> (forall a, keeps_local (f a)) -> keeps_local (bind m f).
Proof.
  intros Hm Hf w. rewrite world_bind.
  destruct (outcome (m w)); [rewrite Hf| |]; apply Hm.
Qed.

Lemma keeps_catch {A : Type} (m : Run Faithful.World A)
    (h : Error -> Run Faithful.World A) :
  keeps_local m -> (forall e, keeps_local (h e)) -> keeps_local (catch m h).
Proof.
  intros Hm Hh w. unfold catch. specialize (Hm w).
  destruct (m w) as [[a|e|] w1 e1]; cbn [outcome world events] in *; auto.
  now rewrite Hh.
Qed.

Lemma keeps_fetch_url (req : Request) :
  keeps_local (fetch_url Faithful.platform req).
Proof.
  intros w. unfold fetch_url. cbn [global_fetch Faithful.platform].
  unfold Faithful.network. destruct (method req); reflexivity.
Qed.

Lemma keeps_read (c : DbCall) :
  is_write c = false -> keeps_local (query Faithful.platform c).
Proof.
  intros Hc w. unfold query. cbn [d1 Faithful.platform].
  destruct c; try discriminate Hc; cbn;
    repeat match goal with
           | |- context [Faithful.find_table ?t ?w] =>
               destruct (Faithful.find_table t w); cbn
           end; reflexivity.
Qed.

Ltac keeping :=
  repeat first
    [ apply keeps_ret | apply keeps_throw | apply keeps_pending
    | apply keeps_emit | apply keeps_fetch_url
    | apply keeps_read; reflexivity
    | apply keeps_bind; [|intros]
    | apply keeps_catch; [|intros]
    | match goal with
      | |- keeps_local (if ?c then _ else _) => destruct c
      | |- keeps_local (match ?x with _ => _ end) => destruct x
      end ].

Lemma keeps_single (env : Env) (p : Payload) (label : BatchLabel) :
  forall fuel,
    keeps_local (updateGatewayListSingle Faithful.platform fuel env p label).
Proof.
  induction fuel as [|fuel IH]; cbn [updateGatewayListSingle].
  - destruct (append p), (remove p); keeping.
  - destruct (append p), (remove p);
      unfold attempt, console_warn, console_error, sleep; keeping;
      exact IH.
Qed.

Lemma keeps_process (fuel : nat) (env : Env) (make : list string -> Payload)
    (k : BatchKind) (count : nat) (todo : list (list string)) :
  forall i,
    keeps_local (process_batches Faithful.platform fuel env make k count i todo).
Proof.
  induction todo as [|b todo IH]; intros i; cbn [process_batches].
  - apply keeps_ret.
  - apply keeps_bind; [apply keeps_single | intros _; apply IH].
Qed.

Lemma keeps_batched (fuel : nat) (env : Env) (toAdd toRemove : list string)
    (batchSize : nat) :
  keeps_local (updateGatewayListBatched Faithful.platform fuel env toAdd
                 toRemove batchSize).
Proof.
  unfold updateGatewayListBatched.
  destruct (loops_forever batchSize toAdd); [apply keeps_pending|].
  destruct (loops_forever batchSize toRemove); [apply keeps_pending|].
  apply keeps_bind; [apply keeps_process | intros _; apply keeps_process].
Qed.

Lemma keeps_probe (env : Env) (prefix : string) :
  keeps_local (testGatewayListUpdate Faithful.platform env prefix).
Proof. unfold testGatewayListUpdate, console_error. keeping. Qed.

Lemma keeps_current (env : Env) :
  keeps_local (fetchCurrentGatewayList Faithful.platform env).
Proof. unfold fetchCurrentGatewayList, console_warn. keeping. Qed.

Lemma keeps_desired (table : string) :
  keeps_local (fetchDesiredPrefixes Faithful.platform table).
Proof. unfold fetchDesiredPrefixes. keeping. Qed.

Lemma recordSyncTime_world (asn : string) (w : Faithful.World) :
  world (recordSyncTime Faithful.platform asn w)
  = Faithful.set_local w (Faithful.synced_prefixes w)
      (Faithful.upsert asn (Faithful.clock w) (Faithful.sync_state w)).
Proof. reflexivity. Qed.

End StateFacts.

(** X15.  On the faithful platform, where the API applies every PATCH
    and answers every GET with the items of the list, and the database
    follows the schema, a sync that returns has read the list as it was
    and leaves the database with: the rows of [synced_prefixes] of the
    other ASNs as they were, followed by one row for each valid desired
    prefix, in order; the time of the clock as the last run of the ASN,
    in the row of the ASN; the ASN tables untouched.  The local record
    and the Gateway list then name the same prefixes. *)
Theorem faithful_final_state (fuel : nat) (env : Env) (asn : string)
    (w : Faithful.World) :
  let r := syncASN Faithful.platform fuel env asn w in
  outcome r = Return tt ->
  exists rows,
    Faithful.find_table asn w = Some rows
    /\ Faithful.synced_prefixes (world r)
       = filter (other_asn asn) (Faithful.synced_prefixes w)
         ++ map (pair asn) (validDesired (Faithful.select_active rows))
    /\ Faithful.sync_state (world r)
       = Faithful.upsert asn (Faithful.clock w) (Faithful.sync_state w)
    /\ Faithful.tables (world r) = Faithful.tables w
    /\ Faithful.clock (world r) = Faithful.clock w
    /\ outcome (fetchCurrentGatewayList Faithful.platform env w)
       = Return (Faithful.gateway_list w)
    /\ (forall x, In (asn, x) (Faithful.synced_prefixes (world r))
                  <-> In x (Faithful.gateway_list (world r))).
Proof.
  cbv zeta. intros O.
  (* the Gateway list *)
  destruct (SyncFacts.syncASN_shape Faithful.platform fuel env asn w)
    as (_ & [(_ & NR & _) | B]); [now destruct (NR tt)|].
  destruct B as (desired & existing & pre & mid & post & w1 & _
                 & Ed & Ew & Ee & E & Ppre & _ & _ & _ & Amid & _ & Ppost & _).
  destruct (FaithfulFacts.tracks_syncASN fuel env asn w) as (T & G & Acc).
  rewrite E, !RunFacts.patches_app, Ppre, Ppost, app_nil_r in G, Acc.
  cbn [app] in G, Acc.
  rewrite <- (FaithfulFacts.applied_all _ Acc), Amid in G.
  rewrite FaithfulFacts.faithful_last_run in Ed, Ew.
  destruct (FaithfulFacts.faithful_desired asn w) as (Ww & Hd).
  destruct (Hd _ Ed) as (rows & Ft & ->).
  rewrite Ww in Ew. subst w1.
  rewrite FaithfulFacts.faithful_current_run in Ee. cbn [outcome] in Ee.
  injection Ee as <-.
  assert (M : forall x,
             In x (Faithful.gateway_list
                     (world (syncASN Faithful.platform fuel env asn w)))
             <-> In x (validDesired (Faithful.select_active rows))).
  { intros x. rewrite G. apply FaithfulFacts.In_replay_plan. }
  clear G Acc Amid E Ppre Ppost pre mid post.
  (* the database *)
  destruct (OrderFacts.returned_stages Faithful.platform fuel env asn w O)
    as (desired & existing & _ & _ & E0 & E1 & _ & _ & _ & _ & _ & Wr & _).
  cbv zeta in *.
  rewrite FaithfulFacts.faithful_last_run in *.
  rewrite Ww in *. rewrite Ed in E0. injection E0 as <-.
  assert (W2 : world (fetchCurrentGatewayList Faithful.platform env w) = w)
    by now rewrite FaithfulFacts.faithful_current_run.
  rewrite W2 in *.
  rewrite FaithfulFacts.faithful_current_run in E1. cbn [outcome] in E1.
  injection E1 as <-.
  set (vd := validDesired (Faithful.select_active rows)) in *.
  set (A := toAdd vd (Faithful.gateway_list w)) in *.
  set (R := toRemove vd (Faithful.gateway_list w)) in *.
  pose proof (StateFacts.keeps_batched fuel env A R 50 w) as K4.
  set (w4 := world (updateGatewayListBatched Faithful.platform fuel env A R
                      50 w)) in *.
  assert (K5 : local_state
                 (world (match A with
                         | first :: _ =>
                             testGatewayListUpdate Faithful.platform env first
                         | [] => ret tt
                         end w4)) = local_state w4).
  { destruct A as [|first rest];
      [apply StateFacts.keeps_ret | apply StateFacts.keeps_probe]. }
  match type of K5 with
  | local_state ?x = _ => set (w5 := x) in *
  end.
  rewrite K4 in K5. unfold local_state in K5.
  injection K5 as Kt Ks Ky Kc.
  assert (Rows : Faithful.synced_prefixes
                   (world (syncASN Faithful.platform fuel env asn w))
                 = filter (other_asn asn) (Faithful.synced_prefixes w)
                   ++ map (pair asn) vd).
  { rewrite Wr, StateFacts.recordSyncTime_world, LocalFacts.updateSynced_world.
    cbn [Faithful.set_local Faithful.synced_prefixes]. rewrite Ks.
    subst vd.
    now rewrite (ValidDesiredFacts.from_NoDup
                   (DiffFacts.NoDup_validDesired _)). }
  exists rows. split; [assumption|]. split; [exact Rows|].
  split.
  { rewrite Wr, StateFacts.recordSyncTime_world, LocalFacts.updateSynced_world.
    cbn [Faithful.set_local Faithful.sync_state Faithful.clock].
    now rewrite Ky, Kc. }
  split.
  { rewrite Wr, StateFacts.recordSyncTime_world, LocalFacts.updateSynced_world.
    cbn [Faithful.set_local Faithful.tables]. exact Kt. }
  split.
  { rewrite Wr, StateFacts.recordSyncTime_world, LocalFacts.updateSynced_world.
    cbn [Faithful.set_local Faithful.clock]. exact Kc. }
  split; [now rewrite FaithfulFacts.faithful_current_run|].
  intros x. rewrite M, Rows, in_app_iff, filter_In, in_map_iff.
  split.
  - intros [[_ Hx] | (y & [= <-] & Hy)]; [|assumption].
    unfold other_asn in Hx. cbn [fst] in Hx.
    now rewrite String.eqb_refl in Hx.
  - intros Hx. right. now exists x.
Qed.

Lemma faithful_final_state_witness :
  let r := syncASN Faithful.platform 1 example_env "AS64500" example_world in
  outcome r = Return tt
  /\ exists rows,
       Faithful.find_table "AS64500" example_world = Some rows
       /\ Faithful.synced_prefixes (world r)
          = filter (other_asn "AS64500")
              (Faithful.synced_prefixes example_world)
            ++ map (pair "AS64500"%string)
                 (validDesired (Faithful.select_active rows))
       /\ Faithful.sync_state (world r)
          = Faithful.upsert "AS64500" (Faithful.clock example_world)
              (Faithful.sync_state example_world)
       /\ Faithful.tables (world r) = Faithful.tables example_world
       /\ Faithful.clock (world r) = Faithful.clock example_world
       /\ outcome (fetchCurrentGatewayList Faithful.platform example_env
                     example_world)
          = Return (Faithful.gateway_list example_world)
       /\ (forall x, In ("AS64500"%string, x)
                       (Faithful.synced_prefixes (world r))
                     <-> In x (Faithful.gateway_list (world r))).
Proof.
  cbv zeta. split; [vm_compute; reflexivity|].
  apply (@faithful_final_state 1 example_env "AS64500"%string example_world).
  vm_compute. reflexivity.
Defined.

(** ** The bound on the retries *)

Module BoundFacts.
Import RunFacts UpdateFacts.

Section Bound.
Context {W : Type}.
Variable P : Platform W.

Lemma bind_stable {A B : Type} (m m' : Run W A) (f f' : A -> Run W B)
    (w : W) :
  outcome (bind m f w) <> Pending ->
  (outcome (m w) <> Pending -> m' w = m w) ->
  (forall a, outcome (m w) = Return a ->
             outcome (f a (world (m w))) <> Pending ->
             f' a (world (m w)) = f a (world (m w))) ->
  bind m' f' w = bind m f w.
Proof.
  intros N Hm Hf. rewrite outcome_bind in N.
  assert (E : m' w = m w).
  { apply Hm. intros Pe. now rewrite Pe in N. }
  unfold bind. rewrite E.
  destruct (outcome (m w)) as [a| |] eqn:O; [|reflexivity|reflexivity].
  now rewrite (Hf a eq_refl N).
Qed.

Lemma catch_stable {A : Type} (m m' : Run W A) (h : Error -> Run W A)
    (w : W) :
  outcome (catch m h w) <> Pending ->
  (outcome (m w) <> Pending -> m' w = m w) ->
  catch m' h w = catch m h w.
Proof.
  intros N Hm.
  assert (E : m' w = m w).
  { apply Hm. intros Pe. apply N. unfold catch. now rewrite Pe. }
  unfold catch. now rewrite E.
Qed.

Lemma single_unfold (fuel : nat) (env : Env) (p : Payload)
    (label : BatchLabel) :
  updateGatewayListSingle P fuel env p label
  = match append p, remove p with
    | None, None => ret None
    | _, _ =>
        match fuel with
        | 0 => pending
        | S fuel' =>
            bind (attempt P env p label)
              (fun a => match a with
                        | Settled r => ret r
                        | Again => updateGatewayListSingle P fuel' env p label
                        end)
        end
    end.
Proof. destruct fuel; reflexivity. Qed.

Lemma single_stable (env : Env) (p : Payload) (label : BatchLabel) :
  forall (fuel fuel' : nat) (w : W),
    fuel <= fuel' ->
    outcome (updateGatewayListSingle P fuel env p label w) <> Pending ->
    updateGatewayListSingle P fuel' env p label w
    = updateGatewayListSingle P fuel env p label w.
Proof.
  induction fuel as [|fuel IH]; intros fuel' w Le;
    rewrite (single_unfold fuel'), (single_unfold _ env p label).
  - destruct (append p), (remove p); intros N; try now destruct N.
    reflexivity.
  - destruct fuel' as [|fuel']; [lia|].
    assert (Step : outcome
                     (bind (attempt P env p label)
                        (fun a => match a with
                                  | Settled r => ret r
                                  | Again =>
                                      updateGatewayListSingle P fuel env p label
                                  end) w) <> Pending ->
                   bind (attempt P env p label)
                     (fun a => match a with
                               | Settled r => ret r
                               | Again =>
                                   updateGatewayListSingle P fuel' env p label
                               end) w
                   = bind (attempt P env p label)
                       (fun a => match a with
                                 | Settled r => ret r
                                 | Again =>
                                     updateGatewayListSingle P fuel env p label
                                 end) w).
    { intros N. apply bind_stable; [assumption | reflexivity|].
      intros [r|] _ N'; [reflexivity|]. apply IH; [lia | assumption]. }
    destruct (append p), (remove p); auto.
Qed.

Lemma process_stable (fuel fuel' : nat) (env : Env)
    (make : list string -> Payload) (k : BatchKind) (count : nat) :
  fuel <= fuel' ->
  forall (todo : list (list string)) (i : nat) (w : W),
    outcome (process_batches P fuel env make k count i todo w) <> Pending ->
    process_batches P fuel' env make k count i todo w
    = process_batches P fuel env make k count i todo w.
Proof.
  intros Le. induction todo as [|b todo IH]; intros i w N; [reflexivity|].
  cbn [process_batches] in *. apply bind_stable; [assumption| |].
  - now apply single_stable.
  - intros _ _ N'. now apply IH.
Qed.

Lemma batched_stable (fuel fuel' : nat) (env : Env)
    (toAdd toRemove : list string) (batchSize : nat) (w : W) :
  fuel <= fuel' ->
  outcome (updateGatewayListBatched P fuel env toAdd toRemove batchSize w)
  <> Pending ->
  updateGatewayListBatched P fuel' env toAdd toRemove batchSize w
  = updateGatewayListBatched P fuel env toAdd toRemove batchSize w.
Proof.
  intros Le. unfold updateGatewayListBatched.
  destruct (loops_forever batchSize toAdd); [reflexivity|].
  destruct (loops_forever batchSize toRemove); [reflexivity|].
  intros N. apply bind_stable; [assumption| |].
  - now apply process_stable.
  - intros _ _ N'. now apply process_stable.
Qed.

Lemma sync_stable (fuel fuel' : nat) (env : Env) (asn : string) (w : W) :
  fuel <= fuel' ->
  outcome (syncASN P fuel env asn w) <> Pending ->
  syncASN P fuel' env asn w = syncASN P fuel env asn w.
Proof.
  intros Le. unfold syncASN.
  destruct (negb (isValidASN asn)); [reflexivity|].
  destruct (negb (DB env)); [reflexivity|].
  destruct (negb (truthy (ACCOUNT_ID env)) || negb (truthy (LIST_ID env))
            || negb (truthy (API_EMAIL env)) || negb (truthy (API_KEY env)));
    [reflexivity|].
  intros N.
  apply bind_stable; [assumption | reflexivity|]. intros _ _ N0.
  apply bind_stable; [assumption | reflexivity|]. intros desired _ N1.
  apply bind_stable; [assumption | reflexivity|]. intros existing _ N2.
  apply bind_stable; [assumption | reflexivity|]. intros _ _ N3.
  destruct ((length (validDesired desired) =? 0) && (0 <? length desired));
    [reflexivity|].
  apply bind_stable; [assumption | | reflexivity].
  now apply batched_stable.
Qed.

End Bound.
End BoundFacts.

(** X16.  The bound on the number of attempts of one request only cuts
    runs short: a sync that has come to an end, by a return or by an
    error, within some bound gives the same outcome, the same trace and
    the same state under every larger bound, and so does the entry
    point. *)
Theorem retry_bound_irrelevant {W : Type} (P : Platform W)
    (fuel fuel' : nat) (env : Env) (asn : string) (w : W) :
  fuel <= fuel' ->
  outcome (syncASN P fuel env asn w) <> Pending ->
  syncASN P fuel' env asn w = syncASN P fuel env asn w
  /\ fetch P fuel' env (Some asn) w = fetch P fuel env (Some asn) w.
Proof.
  intros Le N.
  pose proof (BoundFacts.sync_stable P env asn w Le N) as S.
  split; [exact S|].
  unfold fetch.
  destruct (String.eqb asn "" || negb (isValidASN asn)); [reflexivity|].
  unfold catch, bind. cbv beta. now rewrite S.
Qed.

Lemma retry_bound_irrelevant_witness :
  let w := {| Scripted.replies :=
                [inr updated; inr too_many_requests; inr updated; inr updated];
              Scripted.active_prefixes := ["1.1.1.0/24"]%string |} in
  (2 <= 9 /\ outcome (syncASN Scripted.platform 2 example_env "AS64500" w)
             = Return tt)
  /\ syncASN Scripted.platform 9 example_env "AS64500" w
     = syncASN Scripted.platform 2 example_env "AS64500" w.
Proof.
  cbv zeta. split; [split; [lia | vm_compute; reflexivity]|].
  apply (@retry_bound_irrelevant _ Scripted.platform 2 9 example_env
           "AS64500"%string
           {| Scripted.replies :=
                [inr updated; inr too_many_requests; inr updated; inr updated];
              Scripted.active_prefixes := ["1.1.1.0/24"]%string |}).
  - lia.
  - vm_compute. discriminate.
Defined.
